(** * Pervasive-attention decoder (attn2d): grid, residual stack, prediction

    A shallow embedding of
      - [examples/pervasive/models/archive/attn2d_dynamic_ll.py]
        ([_expand], [Attn2dDecoder.forward], [Attn2dDecoder.forward_train],
        [Attn2dEncoder], [Attn2dWaitkModel.forward], [base_architecture]);
      - [examples/pervasive/modules/archive/resnet6.py]
        ([ResNet6], [_ResLayer], [get_stats]).

    Numbers are real numbers (the exact arithmetic that the floating-point
    kernels approximate).  Python integers are [Z]; sizes and indices are
    [nat].  A Python exception is a [Raise] in the [result] monad. *)

From Stdlib Require Import List Arith ZArith QArith_base Lia Bool Reals Lra.
From Stdlib Require String.
Import ListNotations.
Import String.StringSyntax.
Delimit Scope string_scope with string.
Close Scope Q_scope.

(* ================================================================== *)
(** * Errors *)

Inductive exn : Type :=
| ValueError          (* raised by the source itself *)
| UnboundLocalError   (* a local variable read before it is bound *)
| IndexError          (* dimension or embedding index out of range *)
| ZeroDivisionError
| RuntimeError.       (* torch shape errors *)

Inductive result (A : Type) : Type :=
| Ok (a : A)
| Raise (e : exn).
Arguments Ok {A} a.
Arguments Raise {A} e.

Definition bind {A B : Type} (m : result A) (k : A -> result B) : result B :=
  match m with
  | Ok a => k a
  | Raise e => Raise e
  end.

Notation "x <- m ;; k" := (bind m (fun x => k))
  (at level 61, m at next level, right associativity).
Notation "' pat <- m ;; k" := (bind m (fun x => match x with pat => k end))
  (at level 61, pat pattern, m at next level, right associativity).

Definition is_ok {A : Type} (m : result A) : bool :=
  match m with Ok _ => true | Raise _ => false end.

(* ================================================================== *)
(** * Strided tensors in a store

    A torch tensor is a view (sizes and strides) of a flat storage.
    [unsqueeze] and [expand] return views of the storage of their argument;
    [torch.cat] writes a new storage. *)

Definition storage := list R.
Definition heap := list storage.

Record view : Type := View {
  v_store : nat;            (* index of the storage in the heap *)
  v_sizes : list nat;
  v_strides : list nat
}.

Fixpoint dot (idx strides : list nat) : nat :=
  match idx, strides with
  | i :: idx', s :: strides' => i * s + dot idx' strides'
  | _, _ => 0
  end.

Definition read (h : heap) (v : view) (idx : list nat) : R :=
  nth (dot idx (v_strides v)) (nth (v_store v) h []) 0%R.

Definition ndim (v : view) : nat := length (v_sizes v).

(** [tensor.size(d)] *)
Definition size (v : view) (d : nat) : result nat :=
  match nth_error (v_sizes v) d with
  | Some n => Ok n
  | None => Raise IndexError
  end.

Definition prod (l : list nat) : nat := fold_right Nat.mul 1 l.

(** Row-major strides of a freshly allocated tensor. *)
Fixpoint contiguous (sizes : list nat) : list nat :=
  match sizes with
  | [] => []
  | _ :: rest => prod rest :: contiguous rest
  end.

(** All multi-indices of a shape, in row-major order. *)
Fixpoint indices (sizes : list nat) : list (list nat) :=
  match sizes with
  | [] => [[]]
  | n :: rest =>
      flat_map (fun i => map (cons i) (indices rest)) (seq 0 n)
  end.

(** Allocation of a contiguous tensor whose element at [idx] is [f idx]. *)
Definition alloc (h : heap) (sizes : list nat) (f : list nat -> R)
  : view * heap :=
  (View (length h) sizes (contiguous sizes), h ++ [map f (indices sizes)]).

(** [tensor.unsqueeze(dim)], for a non-negative [dim]. *)
Definition unsqueeze (v : view) (dim : nat) : result view :=
  if dim <=? ndim v then
    let new_stride :=
      match nth_error (v_sizes v) dim, nth_error (v_strides v) dim with
      | Some n, Some s => n * s
      | _, _ => 1
      end in
    Ok (View (v_store v)
             (firstn dim (v_sizes v) ++ 1 :: skipn dim (v_sizes v))
             (firstn dim (v_strides v)
              ++ new_stride :: skipn dim (v_strides v)))
  else Raise IndexError.

(** [tensor.expand(shape)] for a [shape] with as many entries as the tensor
    has dimensions ([_expand] builds it from [range(tensor.dim())]):
    [-1] keeps a dimension, a dimension of size 1 is repeated with stride 0
    (to any size, 0 included), any other change of size is an error. *)
Fixpoint expand_dims (sizes strides : list nat) (shape : list Z)
  : result (list nat * list nat) :=
  match sizes, strides, shape with
  | [], [], [] => Ok ([], [])
  | n :: sizes', s :: strides', t :: shape' =>
      ' (ns, ss) <- expand_dims sizes' strides' shape' ;;
      if (t =? -1)%Z then Ok (n :: ns, s :: ss)
      else if (t <? 0)%Z then Raise RuntimeError
      else if (Z.of_nat n =? t)%Z then Ok (n :: ns, s :: ss)
      else if n =? 1 then Ok (Z.to_nat t :: ns, 0 :: ss)
      else Raise RuntimeError
  | _, _, _ => Raise RuntimeError
  end.

Definition expand (v : view) (shape : list Z) : result view :=
  ' (ns, ss) <- expand_dims (v_sizes v) (v_strides v) shape ;;
  Ok (View (v_store v) ns ss).

(** [_expand(tensor, dim, reps)] *)
Definition _expand (tensor : view) (dim reps : nat) : result view :=
  tensor <- unsqueeze tensor dim ;;
  let shape :=
    map (fun i => if i =? dim then Z.of_nat reps else (-1)%Z)
        (seq 0 (ndim tensor)) in
  expand tensor shape.

(** Sizes of [torch.cat((a, b), dim)]: the ranks agree, every size but the
    one at [dim] agrees, and [dim] is a dimension of the tensors. *)
Fixpoint cat_sizes (sa sb : list nat) (dim : nat) : result (list nat) :=
  match sa, sb with
  | na :: sa', nb :: sb' =>
      match dim with
      | 0 => if list_eq_dec Nat.eq_dec sa' sb'
             then Ok ((na + nb) :: sa') else Raise RuntimeError
      | S dim' =>
          if na =? nb then
            rest <- cat_sizes sa' sb' dim' ;; Ok (na :: rest)
          else Raise RuntimeError
      end
  | _, _ => Raise RuntimeError
  end.

(** The index read in [b] for an index of the result that lies past [a]. *)
Fixpoint shift_at (dim off : nat) (idx : list nat) : list nat :=
  match idx, dim with
  | i :: idx', 0 => (i - off) :: idx'
  | i :: idx', S dim' => i :: shift_at dim' off idx'
  | [], _ => []
  end.

(** [torch.cat((a, b), dim)]: a new contiguous tensor. A [dim] that is not
    a dimension of the first tensor is an [IndexError]; tensors whose ranks
    or other sizes differ are a [RuntimeError]. *)
Definition cat (h : heap) (a b : view) (dim : nat) : result (view * heap) :=
  if dim <? ndim a then
    sizes <- cat_sizes (v_sizes a) (v_sizes b) dim ;;
    let na := nth dim (v_sizes a) 0 in
    Ok (alloc h sizes
          (fun idx => if nth dim idx 0 <? na then read h a idx
                      else read h b (shift_at dim na idx)))
  else Raise IndexError.

(** The grid builder: the three lines
<<
    src_emb = _expand(src_emb, 1, tgt_length)
    tgt_emb = _expand(tgt_emb, 2, src_length)
    x = torch.cat((src_emb, tgt_emb), dim=3)
>>
    together with the two [size(1)] reads before them. *)
Definition build_grid (h : heap) (src_emb tgt_emb : view)
  : result (view * heap) :=
  src_length <- size src_emb 1 ;;
  tgt_length <- size tgt_emb 1 ;;
  src_emb <- _expand src_emb 1 tgt_length ;;
  tgt_emb <- _expand tgt_emb 2 src_length ;;
  cat h src_emb tgt_emb 3.

(* ================================================================== *)
(** * Tensors as values

    Past the grid builder nothing is updated in place: every operation of
    the residual stack returns a new tensor or a view. A tensor is then its
    sizes and the element at each index. *)

Record tensor4 : Type := T4 {
  n0 : nat; n1 : nat; n2 : nat; n3 : nat;
  at4 : nat -> nat -> nat -> nat -> R
}.

Record tensor3 : Type := T3 {
  m0 : nat; m1 : nat; m2 : nat;
  at3 : nat -> nat -> nat -> R
}.

(** A [B x T] boolean mask ([ByteTensor]). *)
Record mask2 : Type := M2 {
  k0 : nat; k1 : nat;
  mat : nat -> nat -> bool
}.

(** A [B x T] tensor of token ids ([LongTensor]). *)
Record tokens2 : Type := Tok {
  t0 : nat; t1 : nat;
  tok : nat -> nat -> nat
}.

(** Two tensors are the same when their sizes agree and their elements
    agree at every index within the sizes. *)
Definition teq3 (x y : tensor3) : Prop :=
  m0 x = m0 y /\ m1 x = m1 y /\ m2 x = m2 y /\
  forall a b c, a < m0 x -> b < m1 x -> c < m2 x ->
                at3 x a b c = at3 y a b c.

(** The value of a rank-4 view in a store. *)
Definition tensor4_of (h : heap) (v : view) : result tensor4 :=
  match v_sizes v with
  | [a; b; c; d] => Ok (T4 a b c d (fun i j k l => read h v [i; j; k; l]))
  | _ => Raise RuntimeError
  end.

(** [sum_{i < n} f i], summed from index 0 upwards. *)
Fixpoint sumR (n : nat) (f : nat -> R) : R :=
  match n with
  | 0 => 0%R
  | S k => (sumR k f + f k)%R
  end.

(** [max_{i <= n} f i] *)
Fixpoint maxR (n : nat) (f : nat -> R) : R :=
  match n with
  | 0 => f 0
  | S k => Rmax (maxR k f) (f (S k))
  end.

Definition relu (x : R) : R := Rmax 0 x.

(** Truth value of a Python float used as a condition (a rate given on the
    command line is a rational number). *)
Definition truthy (p : Q) : bool := negb (Qeq_bool p (0 # 1)%Q).

(** [x.permute(0, 3, 1, 2)] and its inverse [x.permute(0, 2, 3, 1)]. *)
Definition permute_0312 (x : tensor4) : tensor4 :=
  T4 (n0 x) (n3 x) (n1 x) (n2 x) (fun b c i j => at4 x b i j c).

Definition permute_0231 (x : tensor4) : tensor4 :=
  T4 (n0 x) (n2 x) (n3 x) (n1 x) (fun b i j c => at4 x b c i j).

(** Broadcasting of one dimension: equal sizes, or one of them is 1. *)
Definition bdim (a b : nat) : result nat :=
  if a =? b then Ok a
  else if a =? 1 then Ok b
  else if b =? 1 then Ok a
  else Raise RuntimeError.

(** The index read in a tensor of size [n] along a broadcast dimension. *)
Definition bidx (n i : nat) : nat := if n =? 1 then 0 else i.

(** [scale * (x + y)], with torch's broadcasting of [x + y]. *)
Definition scaled_add (scale : R) (x y : tensor4) : result tensor4 :=
  d0 <- bdim (n0 x) (n0 y) ;;
  d1 <- bdim (n1 x) (n1 y) ;;
  d2 <- bdim (n2 x) (n2 y) ;;
  d3 <- bdim (n3 x) (n3 y) ;;
  Ok (T4 d0 d1 d2 d3
        (fun a b c d =>
           (scale * (at4 x (bidx (n0 x) a) (bidx (n1 x) b)
                           (bidx (n2 x) c) (bidx (n3 x) d)
                     + at4 y (bidx (n0 y) a) (bidx (n1 y) b)
                             (bidx (n2 y) c) (bidx (n3 y) d)))%R)).

(** [F.dropout(x, p, training)]: the identity outside training; in training
    the random rescaled mask drawn for this call, [noise]. *)
Definition F_dropout (training : bool) (noise : tensor4 -> tensor4)
  (x : tensor4) : tensor4 :=
  if training then noise x else x.

(** [nn.Linear] *)
Record Linear : Type := MkLinear {
  in_features : nat;
  out_features : nat;
  weight : nat -> nat -> R;     (* out x in *)
  bias : nat -> R
}.

(** [nn.Linear] applied on the last axis. *)
Definition linear (l : Linear) (x : tensor4) : result tensor4 :=
  if n3 x =? in_features l then
    Ok (T4 (n0 x) (n1 x) (n2 x) (out_features l)
          (fun a b c o =>
             (sumR (in_features l) (fun i => at4 x a b c i * weight l o i)
              + bias l o)%R))
  else Raise RuntimeError.

Definition linear3 (l : Linear) (x : tensor3) : result tensor3 :=
  if m2 x =? in_features l then
    Ok (T3 (m0 x) (m1 x) (out_features l)
          (fun a b o =>
             (sumR (in_features l) (fun i => at3 x a b i * weight l o i)
              + bias l o)%R))
  else Raise RuntimeError.

(** [nn.Conv2d(cin, cout, kernel_size=1, stride=1, bias=False)] on a
    [B x C x Tt x Ts] tensor. The channel count has to match, and an input
    with an empty target or source axis is an error (the kernel does not fit
    in it). *)
Record Conv1x1 : Type := MkConv1x1 {
  c_in : nat;
  c_out : nat;
  c_weight : nat -> nat -> R    (* out x in *)
}.

Definition conv1x1 (cv : Conv1x1) (x : tensor4) : result tensor4 :=
  if (n1 x =? c_in cv) && negb (n2 x =? 0) && negb (n3 x =? 0) then
    Ok (T4 (n0 x) (c_out cv) (n2 x) (n3 x)
          (fun b o i j =>
             sumR (c_in cv) (fun c => c_weight cv o c * at4 x b c i j)%R))
  else Raise RuntimeError.

(** [x.masked_fill(encoder_mask.unsqueeze(1).unsqueeze(1), 0)] on a
    [B x C x Tt x Ts] tensor: the mask is [B x 1 x 1 x Ts]. [masked_fill] is
    taken as the out-of-place form of [masked_fill_]: the result has the
    sizes of [x] and the mask has to expand to them. A torch that also
    expands [x] to the sizes of a larger mask returns where this raises; the
    masks of the results below have the sizes of the tensor they fill. *)
Definition masked_fill_encoder (x : tensor4) (encoder_mask : mask2)
  : result tensor4 :=
  if ((k0 encoder_mask =? n0 x) || (k0 encoder_mask =? 1)) &&
     ((k1 encoder_mask =? n3 x) || (k1 encoder_mask =? 1))
  then
    Ok (T4 (n0 x) (n1 x) (n2 x) (n3 x)
          (fun b c i j =>
             if mat encoder_mask (bidx (k0 encoder_mask) b)
                                 (bidx (k1 encoder_mask) j)
             then 0%R else at4 x b c i j))
  else Raise RuntimeError.

(** [x.masked_fill(decoder_mask.unsqueeze(1).unsqueeze(-1), 0)]: the mask is
    [B x 1 x Tt x 1], with the same rule. *)
Definition masked_fill_decoder (x : tensor4) (decoder_mask : mask2)
  : result tensor4 :=
  if ((k0 decoder_mask =? n0 x) || (k0 decoder_mask =? 1)) &&
     ((k1 decoder_mask =? n2 x) || (k1 decoder_mask =? 1))
  then
    Ok (T4 (n0 x) (n1 x) (n2 x) (n3 x)
          (fun b c i j =>
             if mat decoder_mask (bidx (k0 decoder_mask) b)
                                 (bidx (k1 decoder_mask) i)
             then 0%R else at4 x b c i j))
  else Raise RuntimeError.

(* ================================================================== *)
(** * Configuration *)

Record Args : Type := MkArgs {
  num_layers : nat;
  kernel_size : Z;
  divide_channels : Z;
  reduce_dim : nat;
  ffn_dim : nat;
  conv_stride : Z;
  source_dilation : Z;
  target_dilation : Z;
  maintain_resolution : Z;
  convolution_dropout : Q;
  double_masked : bool;
  conv_bias : bool
}.

(* ================================================================== *)
(** * The causal masked convolution *)

(** Modelled from the spec: what an instance of [MaskedConvolution] holds.
    The class is in [fairseq.modules], not in the two source files; the
    source passes it the channel counts, the kernel size, [args] and the
    padding. *)
Record MaskedConvolution : Type := MkMaskedConvolution {
  mc_in : nat;
  mc_out : nat;
  mc_kernel : Z;
  mc_padding : Z * Z;          (* target axis, source axis *)
  mc_dilation : Z * Z;         (* target axis, source axis *)
  mc_stride : Z;               (* source axis; the target axis has stride 1 *)
  mc_double_masked : bool;
  mc_history : nat;            (* rows kept in the incremental cache *)
  mc_weight : nat -> nat -> nat -> nat -> R;   (* out x in x k x k *)
  mc_bias : option (nat -> R)
}.

(** Modelled from the spec: the constructor of [MaskedConvolution]
    ([fairseq.modules], not part of the two source files). It takes the
    channel counts, the kernel size and the padding from [_ResLayer], and the
    dilations, the source stride, the double-masking flag and the bias flag
    from [args]; the cache holds "the last kernel_size - 1 rows". *)
Definition MaskedConvolution_init (cin cout : nat) (kernel : Z) (args : Args)
  (padding : Z * Z) (w : nat -> nat -> nat -> nat -> R) (b : nat -> R)
  : MaskedConvolution :=
  MkMaskedConvolution cin cout kernel padding
    (target_dilation args, source_dilation args)
    (conv_stride args)
    (double_masked args)
    (Z.to_nat (kernel - 1))
    w
    (if conv_bias args then Some b else None).

(** Output length of a torch convolution along one axis, for an input of
    length [n] ([nn.Conv2d]'s documented formula). *)
Definition conv_out_len (n pad dil k stride : Z) : Z :=
  ((n + 2 * pad - dil * (k - 1) - 1) / stride + 1)%Z.

(** Modelled from the spec: the input of the convolution with its zero
    padding; indices outside the tensor read 0. *)
Definition padded (x : tensor4) (b c : nat) (i j : Z) : R :=
  if ((0 <=? i) && (i <? Z.of_nat (n2 x)) &&
      (0 <=? j) && (j <? Z.of_nat (n3 x)))%Z
  then at4 x b c (Z.to_nat i) (Z.to_nat j)
  else 0%R.

(** Modelled from the spec: the kernel taps left by the causal mask. A tap is
    kept when it reads a target position that is not in the future and, with
    double masking, a source position that is not in the future. *)
Definition tap_allowed (mc : MaskedConvolution) (a b : nat) : bool :=
  (Z.of_nat a * fst (mc_dilation mc) - fst (mc_padding mc) <=? 0)%Z &&
  (negb (mc_double_masked mc) ||
   (Z.of_nat b * snd (mc_dilation mc) - snd (mc_padding mc) <=? 0)%Z).

(** Modelled from the spec: one output element of the masked convolution of
    a [B x C x Tt x Ts] input. *)
Definition mconv_at (mc : MaskedConvolution) (x : tensor4)
  (b o i j : nat) : R :=
  let k := Z.to_nat (mc_kernel mc) in
  ((match mc_bias mc with Some bs => bs o | None => 0 end) +
   sumR (mc_in mc) (fun c =>
     sumR k (fun ka =>
       sumR k (fun kb =>
         if tap_allowed mc ka kb then
           mc_weight mc o c ka kb *
           padded x b c
             (Z.of_nat i + Z.of_nat ka * fst (mc_dilation mc)
              - fst (mc_padding mc))
             (Z.of_nat j * mc_stride mc + Z.of_nat kb * snd (mc_dilation mc)
              - snd (mc_padding mc))
         else 0))))%R.

(** Modelled from the spec: the convolution of a whole input, non-cached.
    The channel count has to match, and the padded input has to be at least
    as large as the dilated kernel. *)
Definition mconv_full (mc : MaskedConvolution) (x : tensor4)
  : result tensor4 :=
  let '(pt, ps) := mc_padding mc in
  let '(dt, ds) := mc_dilation mc in
  let k := mc_kernel mc in
  if (n1 x =? mc_in mc) &&
     ((1 <=? k) && (1 <=? dt) && (1 <=? ds) && (1 <=? mc_stride mc) &&
      (0 <=? pt) && (0 <=? ps) &&
      (0 <=? Z.of_nat (n2 x) + 2 * pt - dt * (k - 1) - 1) &&
      (0 <=? Z.of_nat (n3 x) + 2 * ps - ds * (k - 1) - 1))%Z
  then
    Ok (T4 (n0 x) (mc_out mc)
          (Z.to_nat (conv_out_len (Z.of_nat (n2 x)) pt dt k 1))
          (Z.to_nat (conv_out_len (Z.of_nat (n3 x)) ps ds k (mc_stride mc)))
          (mconv_at mc x))
  else Raise RuntimeError.

(** [torch.cat((cache, x), dim=2)] *)
Definition cat_rows (cache x : tensor4) : result tensor4 :=
  if (n0 cache =? n0 x) && (n1 cache =? n1 x) && (n3 cache =? n3 x) then
    Ok (T4 (n0 x) (n1 x) (n2 cache + n2 x) (n3 x)
          (fun b c i j => if i <? n2 cache then at4 cache b c i j
                          else at4 x b c (i - n2 cache) j))
  else Raise RuntimeError.

(** The last [n] rows (target axis, dim 2) of a tensor, all of them when it
    has fewer. *)
Definition last_rows (n : nat) (x : tensor4) : tensor4 :=
  let keep := Nat.min n (n2 x) in
  T4 (n0 x) (n1 x) keep (n3 x)
     (fun b c i j => at4 x b c (i + (n2 x - keep)) j).

(** Modelled from the spec: the cache of one convolution, empty at the start
    of a session, then the trailing rows of its input. *)
Definition cache := option tensor4.

(** Modelled from the spec: the forward call of [MaskedConvolution]. Without
    a cache slot the whole input is convolved and nothing is cached. With a
    slot, the new rows are appended to the cached rows, the result is
    convolved, the tail of the input is written back and only the new output
    rows are returned. *)
Definition MaskedConvolution_forward (mc : MaskedConvolution) (x : tensor4)
  (slot : option cache) : result (tensor4 * option cache) :=
  match slot with
  | None =>
      y <- mconv_full mc x ;; Ok (y, None)
  | Some held =>
      xs <- match held with
            | None => Ok x
            | Some rows => cat_rows rows x
            end ;;
      y <- mconv_full mc xs ;;
      Ok (last_rows (n2 x) y, Some (Some (last_rows (mc_history mc) xs)))
  end.

(** The incremental state of a decoding session: one cache slot per
    convolution, found by the position of its layer in the stack. *)
Definition inc_state := nat -> cache.

Definition empty_state : inc_state := fun _ => None.

Definition set_slot (st : inc_state) (l : nat) (c : cache) : inc_state :=
  fun l' => if l' =? l then c else st l'.

(* ================================================================== *)
(** * [_ResLayer] *)

Record _ResLayer : Type := Mk_ResLayer {
  training : bool;                  (* [self.training] *)
  drop_rate : Q;
  conv1 : Conv1x1;
  mconv2 : MaskedConvolution;
  fc1 : Linear;
  fc2 : Linear;
  scale : R;
  noise1 : tensor4 -> tensor4;      (* the draws of the two dropout calls *)
  noise2 : tensor4 -> tensor4
}.

(** What the random initialisation and the random generator provide. *)
Record LayerParams : Type := MkLayerParams {
  p_conv1 : nat -> nat -> R;
  p_mconv_w : nat -> nat -> nat -> nat -> R;
  p_mconv_b : nat -> R;
  p_fc1 : nat -> nat -> R;
  p_fc2 : nat -> nat -> R;
  p_noise1 : tensor4 -> tensor4;
  p_noise2 : tensor4 -> tensor4
}.

(** The padding chosen by [_ResLayer.__init__], or its [ValueError]. *)
Definition _ResLayer_padding (kernel_size : Z) (args : Args)
  : result (Z * Z) :=
  let stride := conv_stride args in
  let dilsrc := source_dilation args in
  let diltrg := target_dilation args in
  let resolution := maintain_resolution args in
  if negb (resolution =? 0)%Z then
    if negb (stride =? 1)%Z then Raise ValueError
    else
      let padding_trg := (diltrg * (kernel_size - 1) / 2)%Z in
      let padding_src := (dilsrc * (kernel_size - 1) / 2)%Z in
      Ok (padding_trg, padding_src)
  else
    Ok ((diltrg * (kernel_size - 1) / 2)%Z, 0%Z).

(** [module-level Linear] of resnet6.py: the bias starts at 0. *)
Definition Linear_init (fin fout : nat) (w : nat -> nat -> R) : Linear :=
  MkLinear fin fout w (fun _ => 0%R).

(** [_ResLayer.__init__(num_features, kernel_size, args)] *)
Definition _ResLayer_init (num_features : nat) (kernel_size : Z)
  (args : Args) (p : LayerParams) : result _ResLayer :=
  let ffn := ffn_dim args in
  let mid_features := reduce_dim args in
  padding <- _ResLayer_padding kernel_size args ;;
  Ok (Mk_ResLayer true (convolution_dropout args)
        (MkConv1x1 num_features mid_features (p_conv1 p))
        (MaskedConvolution_init mid_features num_features kernel_size args
           padding (p_mconv_w p) (p_mconv_b p))
        (Linear_init num_features ffn (p_fc1 p))
        (Linear_init ffn num_features (p_fc2 p))
        1%R
        (p_noise1 p) (p_noise2 p)).

Definition relu4 (x : tensor4) : tensor4 :=
  T4 (n0 x) (n1 x) (n2 x) (n3 x) (fun a b c d => relu (at4 x a b c d)).

(** The activations of the masked convolution after the two [masked_fill]
    calls guarded by [self.training]. *)
Definition zero_padding_positions (training : bool) (x : tensor4)
  (encoder_mask decoder_mask : option mask2) : result tensor4 :=
  if training then
    x <- match encoder_mask with
         | Some m => masked_fill_encoder x m
         | None => Ok x
         end ;;
    match decoder_mask with
    | Some m => masked_fill_decoder x m
    | None => Ok x
    end
  else Ok x.

(** The first lines of [_ResLayer.forward], up to the two [masked_fill]
    calls: the activations of the masked convolution, [B x C x Tt x Ts].
    [key] is the slot of this layer's convolution in the incremental
    state. *)
Definition conv_activations (self : _ResLayer) (key : nat) (x : tensor4)
  (encoder_mask decoder_mask : option mask2)
  (incremental_state : option inc_state)
  : result (tensor4 * option inc_state) :=
  let x := permute_0312 x in
  x <- conv1x1 (conv1 self) x ;;
  ' (x, slot) <- MaskedConvolution_forward (mconv2 self) x
                   (option_map (fun st => st key) incremental_state) ;;
  let incremental_state :=
    match incremental_state, slot with
    | Some st, Some c => Some (set_slot st key c)
    | _, _ => incremental_state
    end in
  x <- zero_padding_positions (training self) x encoder_mask decoder_mask ;;
  Ok (x, incremental_state).

(** The rest of [_ResLayer.forward]: dropout, the residual connection and
    the feed-forward sublayer with its own residual connection. *)
Definition residual_ffn (self : _ResLayer) (x residual : tensor4)
  : result tensor4 :=
  let x := if truthy (drop_rate self)
           then F_dropout (training self) (noise1 self) x else x in
  let x := permute_0231 x in
  x <- scaled_add (scale self) x residual ;;
  let residual := x in
  x <- linear (fc1 self) x ;;
  let x := relu4 x in
  x <- linear (fc2 self) x ;;
  let x := if truthy (drop_rate self)
           then F_dropout (training self) (noise2 self) x else x in
  scaled_add (scale self) x residual.

(** [_ResLayer.forward] *)
Definition _ResLayer_forward (self : _ResLayer) (key : nat) (x : tensor4)
  (encoder_mask decoder_mask : option mask2)
  (incremental_state : option inc_state)
  : result (tensor4 * option inc_state) :=
  let residual := x in
  ' (x, incremental_state) <-
      conv_activations self key x encoder_mask decoder_mask
        incremental_state ;;
  x <- residual_ffn self x residual ;;
  Ok (x, incremental_state).

(* ================================================================== *)
(** * [ResNet6] *)

Record ResNet6 : Type := MkResNet6 {
  reduce_channels : option Linear;
  output_channels : Z;      (* [num_init_features // divide_channels] *)
  residual_blocks : list _ResLayer
}.

(** The loop [for layer in self.residual_blocks] from position [key]. *)
Fixpoint run_blocks (blocks : list _ResLayer) (key : nat) (x : tensor4)
  (encoder_mask decoder_mask : option mask2)
  (incremental_state : option inc_state)
  : result (tensor4 * option inc_state) :=
  match blocks with
  | [] => Ok (x, incremental_state)
  | layer :: rest =>
      ' (x, incremental_state) <-
          _ResLayer_forward layer key x encoder_mask decoder_mask
            incremental_state ;;
      run_blocks rest (S key) x encoder_mask decoder_mask incremental_state
  end.

(** [ResNet6.forward] *)
Definition ResNet6_forward (self : ResNet6) (x : tensor4)
  (encoder_mask decoder_mask : option mask2)
  (incremental_state : option inc_state)
  : result (tensor4 * option inc_state) :=
  x <- match reduce_channels self with
       | Some l => linear l x
       | None => Ok x
       end ;;
  run_blocks (residual_blocks self) 0 x encoder_mask decoder_mask
    incremental_state.

(** The loop of [ResNet6.__init__] that builds the layers; [params l] is
    what the random initialisation gives to layer [l]. *)
Fixpoint build_blocks (n : nat) (num_features : nat) (kernel_size : Z)
  (args : Args) (params : nat -> LayerParams) (l : nat)
  : result (list _ResLayer) :=
  match n with
  | 0 => Ok []
  | S n' =>
      layer <- _ResLayer_init num_features kernel_size args (params l) ;;
      rest <- build_blocks n' num_features kernel_size args params (S l) ;;
      Ok (layer :: rest)
  end.

(** [ResNet6.__init__(num_init_features, args)]. The floor division by a
    negative [divide_channels] gives a negative number of features: no
    reduction layer is built then, and the first [_ResLayer] raises after it
    has chosen its padding, when [nn.Conv2d] is given the negative channel
    count; with no layer to build the call returns. *)
Definition ResNet6_init (num_init_features : nat) (args : Args)
  (reduce_w : nat -> nat -> R) (params : nat -> LayerParams)
  : result ResNet6 :=
  let d := divide_channels args in
  if (d =? 0)%Z then Raise ZeroDivisionError
  else
    let num_features := (Z.of_nat num_init_features / d)%Z in
    let reduce :=
      if (1 <? d)%Z
      then Some (Linear_init num_init_features (Z.to_nat num_features)
                   reduce_w)
      else None in
    blocks <- (if (num_features <? 0)%Z then
                 match num_layers args with
                 | 0 => Ok []
                 | S _ =>
                     _ <- _ResLayer_padding (kernel_size args) args ;;
                     Raise RuntimeError
                 end
               else
                 build_blocks (num_layers args) (Z.to_nat num_features)
                   (kernel_size args) args params 0) ;;
    Ok (MkResNet6 reduce num_features blocks).

(* ================================================================== *)
(** * [Attn2dDecoder] *)

Record Embedding : Type := MkEmbedding {
  num_embeddings : nat;
  embedding_dim : nat;
  emb_weight : nat -> nat -> R
}.

(** What [Attn2dDecoder.forward_train] gets back from the controller:
    [controls, gamma, read_labels, write_labels]. *)
Record ControlOut : Type := MkControlOut {
  controls : tensor4;
  gamma : tensor3;
  read_labels : tensor3;
  write_labels : tensor3
}.

(** Modelled from the spec: the field [net]. [Attn2dDecoder.__init__] builds
    a [ResNetAddUpNoNorm2] or a [ResNetAddUpNoNorm] ([fairseq.modules], not
    part of the two source files); the stack of causal convolutional
    residual blocks of the spec (4.3) is taken to be the [ResNet6] of
    resnet6.py, which is called the way [forward] calls [self.net]. The
    other fields are the attributes that [__init__] sets. *)
Record Attn2dDecoder : Type := MkAttn2dDecoder {
  dec_training : bool;
  padding_idx : nat;
  embed_tokens : Embedding;
  embed_scale : R;
  (* [SinusoidalPositionalEmbedding] or [LearnedPositionalEmbedding]
     (fairseq.modules): called with the tokens and with whether an
     incremental state is passed *)
  embed_positions : option (tokens2 -> bool -> result tensor3);
  embedding_dropout : tensor3 -> tensor3;
  input_dropout : tensor4 -> tensor4;
  prediction_dropout3 : tensor3 -> tensor3;
  prediction_dropout4 : tensor4 -> tensor4;
  net : ResNet6;
  (* [GridMAX], [ConvNetActions] and [LLControls]/[FBControls]
     (fairseq.modules) *)
  aggregator : tensor4 -> result tensor4;
  controller_feat : tensor4 -> result tensor4;
  controller : tensor4 -> tensor3 -> result ControlOut;
  projection : option Linear;
  prediction : Linear;
  detach_controls : bool
}.

Record EncoderOut : Type := MkEncoderOut {
  encoder_out : view;                       (* B x Ts x C *)
  encoder_padding_mask : option mask2       (* B x Ts *)
}.

(** [nn.Dropout] modules: the identity outside training. *)
Definition nn_dropout {A : Type} (training : bool) (noise : A -> A) (x : A)
  : A :=
  if training then noise x else x.

(** [nn.Embedding]: an index outside the table is an error. *)
Definition embedding (e : Embedding) (t : tokens2) : result tensor3 :=
  if forallb (fun b =>
       forallb (fun i => tok t b i <? num_embeddings e) (seq 0 (t1 t)))
       (seq 0 (t0 t))
  then Ok (T3 (t0 t) (t1 t) (embedding_dim e)
              (fun b i c => emb_weight e (tok t b i) c))
  else Raise IndexError.

(** [tokens[:, -1:]] *)
Definition last_token (t : tokens2) : tokens2 :=
  let keep := Nat.min 1 (t1 t) in
  Tok (t0 t) keep (fun b i => tok t b (i + (t1 t - keep))).

(** [x[:, -1:]] on a rank-3 and on a rank-4 tensor. *)
Definition last_step3 (x : tensor3) : tensor3 :=
  let keep := Nat.min 1 (m1 x) in
  T3 (m0 x) keep (m2 x) (fun b i c => at3 x b (i + (m1 x - keep)) c).

Definition last_step4 (x : tensor4) : tensor4 :=
  let keep := Nat.min 1 (n1 x) in
  T4 (n0 x) keep (n2 x) (n3 x)
     (fun b i j c => at4 x b (i + (n1 x - keep)) j c).

(** [tokens.eq(padding_idx)], and [None] in its place when it holds no
    [True]. *)
Definition eq_padding (t : tokens2) (pad : nat) : mask2 :=
  M2 (t0 t) (t1 t) (fun b i => tok t b i =? pad).

Definition mask_any (m : mask2) : bool :=
  existsb (fun b => existsb (fun i => mat m b i) (seq 0 (k1 m)))
          (seq 0 (k0 m)).

Definition padding_mask (t : tokens2) (pad : nat) : option mask2 :=
  let decoder_mask := eq_padding t pad in
  if negb (mask_any decoder_mask) then None else Some decoder_mask.

Definition scale3 (s : R) (x : tensor3) : tensor3 :=
  T3 (m0 x) (m1 x) (m2 x) (fun a b c => (s * at3 x a b c)%R).

(** [x += y]: [y] has to broadcast to the sizes of [x]. *)
Definition iadd3 (x y : tensor3) : result tensor3 :=
  if ((m0 y =? m0 x) || (m0 y =? 1)) && ((m1 y =? m1 x) || (m1 y =? 1)) &&
     ((m2 y =? m2 x) || (m2 y =? 1))
  then Ok (T3 (m0 x) (m1 x) (m2 x)
              (fun a b c => (at3 x a b c
                             + at3 y (bidx (m0 y) a) (bidx (m1 y) b)
                                     (bidx (m2 y) c))%R))
  else Raise RuntimeError.

(** The stop of the Python slice [[:c]] on an axis of length [n]. *)
Definition slice_stop (n : nat) (c : Z) : nat :=
  if (c <? 0)%Z then Z.to_nat (Z.of_nat n + c)
  else Nat.min (Z.to_nat c) n.

(** [encoder_states[:, :context_size]]: a view of the same storage. *)
Definition slice_context (v : view) (context_size : Z) : result view :=
  match v_sizes v with
  | b :: n :: rest =>
      Ok (View (v_store v) (b :: slice_stop n context_size :: rest)
               (v_strides v))
  | _ => Raise IndexError
  end.

(** A rank-3 value written to the store as a new contiguous tensor. *)
Definition store3 (h : heap) (x : tensor3) : view * heap :=
  alloc h [m0 x; m1 x; m2 x]
        (fun idx => at3 x (nth 0 idx 0) (nth 1 idx 0) (nth 2 idx 0)).

(** [x.max(dim=2)] of a [B x Tt x Ts x C] tensor, values only: an error on
    an empty source axis. *)
Definition max_dim2 (x : tensor4) : result tensor3 :=
  match n2 x with
  | 0 => Raise IndexError
  | S s => Ok (T3 (n0 x) (n1 x) (n3 x)
                  (fun b i c => maxR s (fun j => at4 x b i j c)))
  end.

(** The target embeddings: [embed_scale * embed_tokens(tokens)], the
    positions added in place, then the embedding dropout. *)
Definition embed_target (self : Attn2dDecoder) (tokens : tokens2)
  (positions : option tensor3) : result tensor3 :=
  e <- embedding (embed_tokens self) tokens ;;
  let tgt_emb := scale3 (embed_scale self) e in
  tgt_emb <- match positions with
             | Some p => iadd3 tgt_emb p
             | None => Ok tgt_emb
             end ;;
  Ok (nn_dropout (dec_training self) (embedding_dropout self) tgt_emb).

(** The grid of a call: the target embeddings are a new tensor of the
    store, the grid is built from the two sequences, read as a value and
    passed through the input dropout. *)
Definition input_grid (self : Attn2dDecoder) (h : heap) (src_emb : view)
  (tgt_emb : tensor3) : result tensor4 :=
  let '(tgt_emb, h) := store3 h tgt_emb in
  ' (x, h) <- build_grid h src_emb tgt_emb ;;
  x <- tensor4_of h x ;;
  Ok (nn_dropout (dec_training self) (input_dropout self) x).

(** The last lines of [Attn2dDecoder.forward]: the max over the source
    axis, the projection, the prediction dropout and the prediction
    layer. *)
Definition predict (self : Attn2dDecoder) (x : tensor4) : result tensor3 :=
  x <- max_dim2 x ;;
  x <- match projection self with
       | Some l => linear3 l x
       | None => Ok x
       end ;;
  let x := nn_dropout (dec_training self) (prediction_dropout3 self) x in
  linear3 (prediction self) x.

(** [Attn2dDecoder.forward]. The result is the tensor [x] of the returned
    pair [(x, None)], with the incremental state as the call leaves it. *)
Definition forward (self : Attn2dDecoder) (h : heap)
  (prev_output_tokens : tokens2) (encoder_out_ : EncoderOut)
  (incremental_state : option inc_state) (context_size : option Z)
  (cache_decoder : bool) : result (tensor3 * option inc_state) :=
  let encoder_states := encoder_out encoder_out_ in
  _Ts <- size encoder_states 1 ;;
  src_emb <- match context_size with
             | Some c => s <- slice_context encoder_states c ;; Ok (Some s)
             | None => Ok None          (* [src_emb] stays unbound *)
             end ;;
  let cached := match incremental_state with
                | Some _ => cache_decoder
                | None => false
                end in
  positions <- match embed_positions self with
               | Some pos => p <- pos prev_output_tokens cached ;; Ok (Some p)
               | None => Ok None
               end ;;
  let prev_output_tokens :=
    if cached then last_token prev_output_tokens else prev_output_tokens in
  let positions := if cached then option_map last_step3 positions
                   else positions in
  let decoder_mask := padding_mask prev_output_tokens (padding_idx self) in
  tgt_emb <- embed_target self prev_output_tokens positions ;;
  src_emb <- match src_emb with
             | Some s => Ok s
             | None => Raise UnboundLocalError
             end ;;
  x <- input_grid self h src_emb tgt_emb ;;
  let encoder_mask := encoder_padding_mask encoder_out_ in
  ' (x, state) <- ResNet6_forward (net self) x encoder_mask decoder_mask
                    (if cache_decoder then incremental_state else None) ;;
  let x := match incremental_state with
           | Some _ => last_step4 x
           | None => x
           end in
  x <- predict self x ;;
  Ok (x, if cache_decoder then state else incremental_state).

(** Modelled from the spec: [utils.log_softmax(x, dim=-1)] (fairseq.utils,
    not part of the two source files), the log-normalisation over the last
    axis. *)
Definition log_softmax (x : tensor4) : tensor4 :=
  T4 (n0 x) (n1 x) (n2 x) (n3 x)
     (fun a b c v =>
        (at4 x a b c v - ln (sumR (n3 x) (fun u => exp (at4 x a b c u))))%R).

(** The gather of the log-probabilities of the reference tokens:
<<
    x.view(-1, V).gather(dim=-1, index=target.unsqueeze(-1)
        .expand(-1, -1, src_length).contiguous().view(-1, 1))
     .view(batch_size, tgt_length, src_length)
>>
    Row [r] of the flattened [x] is read at the token of row [r] of the
    flattened index. *)
Definition gather_scores (x : tensor4) (target : tokens2)
  (batch_size tgt_length src_length : nat) : result tensor3 :=
  let rows := t0 target * t1 target * src_length in
  let token r := tok target (r / src_length / t1 target)
                            ((r / src_length) mod t1 target) in
  if (1 <=? n3 x) && (rows <=? n0 x * n1 x * n2 x) &&
     (rows =? batch_size * tgt_length * src_length) &&
     forallb (fun r => token r <? n3 x) (seq 0 rows)
  then
    Ok (T3 batch_size tgt_length src_length
          (fun b i j =>
             let r := (b * tgt_length + i) * src_length + j in
             at4 x (r / (n1 x * n2 x)) ((r / n2 x) mod n1 x) (r mod n2 x)
                   (token r)))
  else Raise RuntimeError.

(** [scores.masked_fill(encoder_mask.unsqueeze(1), -1000)] and
    [scores.masked_fill(decoder_mask.unsqueeze(-1), -1000)], with the rule
    of [masked_fill_encoder]: the mask has to expand to the sizes of the
    scores. *)
Definition forbid_source (scores : tensor3) (encoder_mask : mask2)
  : result tensor3 :=
  if ((k0 encoder_mask =? m0 scores) || (k0 encoder_mask =? 1)) &&
     ((k1 encoder_mask =? m2 scores) || (k1 encoder_mask =? 1))
  then Ok (T3 (m0 scores) (m1 scores) (m2 scores)
              (fun b i j =>
                 if mat encoder_mask (bidx (k0 encoder_mask) b)
                                     (bidx (k1 encoder_mask) j)
                 then (-1000)%R else at3 scores b i j))
  else Raise RuntimeError.

Definition forbid_target (scores : tensor3) (decoder_mask : mask2)
  : result tensor3 :=
  if ((k0 decoder_mask =? m0 scores) || (k0 decoder_mask =? 1)) &&
     ((k1 decoder_mask =? m1 scores) || (k1 decoder_mask =? 1))
  then Ok (T3 (m0 scores) (m1 scores) (m2 scores)
              (fun b i j =>
                 if mat decoder_mask (bidx (k0 decoder_mask) b)
                                     (bidx (k1 decoder_mask) i)
                 then (-1000)%R else at3 scores b i j))
  else Raise RuntimeError.

(** What [Attn2dDecoder.forward_train] returns. *)
Record TrainOut : Type := MkTrainOut {
  out_x : tensor4;              (* B x Tt x Ts x V log-probabilities *)
  out_observations : tensor4;
  out_controls : ControlOut
}.

(** [Attn2dDecoder.forward_train] *)
Definition forward_train (self : Attn2dDecoder) (h : heap)
  (prev_output_tokens : tokens2) (encoder_out_ : EncoderOut)
  (target : tokens2) : result TrainOut :=
  let src_emb := encoder_out encoder_out_ in
  positions <- match embed_positions self with
               | Some pos => p <- pos prev_output_tokens false ;; Ok (Some p)
               | None => Ok None
               end ;;
  let decoder_mask := padding_mask prev_output_tokens (padding_idx self) in
  tgt_emb <- embed_target self prev_output_tokens positions ;;
  batch_size <- size src_emb 0 ;;
  src_length <- size src_emb 1 ;;
  let tgt_length := m1 tgt_emb in
  x <- input_grid self h src_emb tgt_emb ;;
  observations <- controller_feat self x ;;
  let encoder_mask := encoder_padding_mask encoder_out_ in
  ' (x, _) <- ResNet6_forward (net self) x encoder_mask decoder_mask None ;;
  x <- aggregator self x ;;
  x <- match projection self with
       | Some l => linear l x
       | None => Ok x
       end ;;
  let x := nn_dropout (dec_training self) (prediction_dropout4 self) x in
  x <- linear (prediction self) x ;;
  let x := log_softmax x in
  scores <- gather_scores x target batch_size tgt_length src_length ;;
  scores <- match encoder_mask with
            | Some m => forbid_source scores m
            | None => Ok scores
            end ;;
  scores <- match decoder_mask with
            | Some m => forbid_target scores m
            | None => Ok scores
            end ;;
  c <- controller self observations scores ;;
  Ok (MkTrainOut x observations c).

(** [module.eval()]: the training flag is cleared in every submodule. *)
Definition eval_layer (l : _ResLayer) : _ResLayer :=
  Mk_ResLayer false (drop_rate l) (conv1 l) (mconv2 l) (fc1 l) (fc2 l)
              (scale l) (noise1 l) (noise2 l).

Definition eval_net (n : ResNet6) : ResNet6 :=
  MkResNet6 (reduce_channels n) (output_channels n)
            (map eval_layer (residual_blocks n)).

Definition eval_decoder (d : Attn2dDecoder) : Attn2dDecoder :=
  MkAttn2dDecoder false (padding_idx d) (embed_tokens d) (embed_scale d)
    (embed_positions d) (embedding_dropout d) (input_dropout d)
    (prediction_dropout3 d) (prediction_dropout4 d) (eval_net (net d))
    (aggregator d) (controller_feat d) (controller d) (projection d)
    (prediction d) (detach_controls d).

(* ================================================================== *)
(** * Reference values and invariants of incremental decoding *)

(** A convolution that keeps the sizes of a grid whose source axis has
    length [Ls]: kernel size, dilations and stride are positive and the
    paddings are not negative; twice the target padding is the extent
    [dilation * (kernel - 1)] of the dilated kernel; the source axis keeps
    its length; the cache holds at least as many rows as the target
    padding. *)
Definition wf_conv (mc : MaskedConvolution) (Ls : nat) : Prop :=
  (1 <= mc_kernel mc)%Z /\
  (1 <= fst (mc_dilation mc))%Z /\ (1 <= snd (mc_dilation mc))%Z /\
  (1 <= mc_stride mc)%Z /\
  (0 <= fst (mc_padding mc))%Z /\ (0 <= snd (mc_padding mc))%Z /\
  (2 * fst (mc_padding mc) = fst (mc_dilation mc) * (mc_kernel mc - 1))%Z /\
  (0 <= Z.of_nat Ls + 2 * snd (mc_padding mc)
        - snd (mc_dilation mc) * (mc_kernel mc - 1) - 1)%Z /\
  conv_out_len (Z.of_nat Ls) (snd (mc_padding mc)) (snd (mc_dilation mc))
               (mc_kernel mc) (mc_stride mc) = Z.of_nat Ls /\
  (fst (mc_padding mc) <= Z.of_nat (mc_history mc))%Z.

(** A layer in evaluation mode whose channel counts fit a grid of [C]
    channels and whose convolution keeps the sizes of the grid. *)
Definition wf_layer (C Ls : nat) (l : _ResLayer) : Prop :=
  training l = false /\
  c_in (conv1 l) = C /\ c_out (conv1 l) = mc_in (mconv2 l) /\
  mc_out (mconv2 l) = C /\
  in_features (fc1 l) = C /\ out_features (fc1 l) = in_features (fc2 l) /\
  out_features (fc2 l) = C /\
  wf_conv (mconv2 l) Ls.

(** The input of the masked convolution of a layer: the 1x1 convolution of
    the permuted layer input. *)
Definition conv1_val (l : _ResLayer) (x : tensor4) : tensor4 :=
  T4 (n0 x) (c_out (conv1 l)) (n1 x) (n2 x)
     (fun b o i j =>
        sumR (c_in (conv1 l))
             (fun c => c_weight (conv1 l) o c * at4 x b i j c)%R).

(** One output element of the feed-forward sublayer with its residual
    connection, from the vector [u] it is applied to. *)
Definition ffn_point (l : _ResLayer) (u : nat -> R) (c : nat) : R :=
  (scale l *
   ((sumR (in_features (fc2 l))
       (fun m => relu (sumR (in_features (fc1 l))
                         (fun c' => u c' * weight (fc1 l) m c')
                       + bias (fc1 l) m)
                 * weight (fc2 l) c m)
     + bias (fc2 l) c)
    + u c))%R.

(** One output element of a layer outside training, from its input grid. *)
Definition layer_point (l : _ResLayer) (X : tensor4) (b i j c : nat) : R :=
  ffn_point l
    (fun c' => (scale l * (mconv_at (mconv2 l) (conv1_val l X) b c' i j
                           + at4 X b i j c'))%R) c.

(** [r] is row [k] (target position [k]) of the grid [X]. *)
Definition row_of (r X : tensor4) (k : nat) : Prop :=
  n0 r = n0 X /\ n1 r = 1 /\ n2 r = n2 X /\ n3 r = n3 X /\
  forall b j c, b < n0 X -> j < n2 X -> c < n3 X ->
                at4 r b 0 j c = at4 X b k j c.

(** After [k] steps the cache of a convolution with input [Y] holds the
    last [min hist k] rows of [Y] before row [k]; it is empty before the
    first step. *)
Definition cache_inv (hist : nat) (Y : tensor4) (k : nat) (slot : cache)
  : Prop :=
  match slot with
  | None => k = 0
  | Some c =>
      1 <= k /\ n0 c = n0 Y /\ n1 c = n1 Y /\ n2 c = Nat.min hist k /\
      n3 c = n3 Y /\
      forall b m i j, b < n0 Y -> m < n1 Y -> i < Nat.min hist k -> j < n3 Y ->
        at4 c b m i j = at4 Y b m (k - Nat.min hist k + i) j
  end.

(** Two grids that agree on their first [n] rows. *)
Definition agree_rows (n : nat) (X X' : tensor4) : Prop :=
  n0 X = n0 X' /\ n2 X = n2 X' /\ n3 X = n3 X' /\
  n <= n1 X /\ n <= n1 X' /\
  forall b i j c, b < n0 X -> i < n -> j < n2 X -> c < n3 X ->
                  at4 X b i j c = at4 X' b i j c.

(** The value of a layer outside training, as a tensor. *)
Definition layer_val (l : _ResLayer) (X : tensor4) : tensor4 :=
  T4 (n0 X) (n1 X) (n2 X) (n3 X) (layer_point l X).

(** The value of a stack of layers outside training. *)
Fixpoint blocks_val (blocks : list _ResLayer) (X : tensor4) : tensor4 :=
  match blocks with
  | [] => X
  | l :: rest => blocks_val rest (layer_val l X)
  end.

(** The caches of the layers from position [key] on hold the rows before
    [k] of the inputs of their convolutions. *)
Fixpoint stack_inv (blocks : list _ResLayer) (key : nat) (X : tensor4)
  (st : inc_state) (k : nat) : Prop :=
  match blocks with
  | [] => True
  | l :: rest =>
      cache_inv (mc_history (mconv2 l)) (conv1_val l X) k (st key) /\
      stack_inv rest (S key) (layer_val l X) st k
  end.

(** [tokens[:, :n]] *)
Definition prefix_tokens (n : nat) (t : tokens2) : tokens2 :=
  Tok (t0 t) (Nat.min n (t1 t)) (tok t).

(** The incremental state after [k] decoding steps of a session that
    started with an empty state: step [j] calls [forward] with the first
    [j + 1] target tokens and the state left by step [j - 1]. *)
Fixpoint decode_state (self : Attn2dDecoder) (h : heap) (tokens : tokens2)
  (enc : EncoderOut) (context_size : option Z) (k : nat)
  : result inc_state :=
  match k with
  | 0 => Ok empty_state
  | S k' =>
      st <- decode_state self h tokens enc context_size k' ;;
      ' (_, st') <- forward self h (prefix_tokens (S k') tokens) enc
                      (Some st) context_size true ;;
      match st' with
      | Some s => Ok s
      | None => Ok st
      end
  end.

(** The grid of a token sequence, element by element. *)
Definition grid_val (self : Attn2dDecoder) (h : heap) (src : view)
  (B Ts ds : nat) (t : tokens2) : tensor4 :=
  T4 B (t1 t) Ts (ds + embedding_dim (embed_tokens self))
     (fun b i j c =>
        if c <? ds then read h src [b; j; c]
        else (embed_scale self
              * emb_weight (embed_tokens self) (tok t b i) (c - ds))%R).

(** The grid after the channel reduction of [ResNet6.forward]. *)
Definition reduce_val (n : ResNet6) (x : tensor4) : tensor4 :=
  match reduce_channels n with
  | Some l =>
      T4 (n0 x) (n1 x) (n2 x) (out_features l)
         (fun a b c o =>
            (sumR (in_features l) (fun i => at4 x a b c i * weight l o i)
             + bias l o)%R)
  | None => x
  end.

(** One element of the prediction from the max-pooled features [f]. *)
Definition predict_point (self : Attn2dDecoder) (f : nat -> R) (v : nat)
  : R :=
  let p := match projection self with
           | Some l => fun c =>
               (sumR (in_features l) (fun i => f i * weight l c i)
                + bias l c)%R
           | None => f
           end in
  (sumR (in_features (prediction self))
        (fun i => p i * weight (prediction self) v i)
   + bias (prediction self) v)%R.

(** A decoder in evaluation mode, without positional embedding, whose sizes
    fit: [C0] grid channels, [C] channels in the stack, a source axis of
    length [Ls]. *)
Definition wf_decoder (self : Attn2dDecoder) (C0 C Ls : nat) : Prop :=
  dec_training self = false /\
  embed_positions self = None /\
  match reduce_channels (net self) with
  | Some l => in_features l = C0 /\ out_features l = C
  | None => C0 = C
  end /\
  Forall (wf_layer C Ls) (residual_blocks (net self)) /\
  match projection self with
  | Some l => in_features l = C /\
              in_features (prediction self) = out_features l
  | None => in_features (prediction self) = C
  end.

(** Every token of the sequence is an index of the embedding table. *)
Definition in_vocabulary (self : Attn2dDecoder) (t : tokens2) : Prop :=
  forall b i, b < t0 t -> i < t1 t ->
              tok t b i < num_embeddings (embed_tokens self).

(** The encoder states are a [B x Ts x ds] tensor of the store and the
    context [encoder_states[:, :cs]] has [Ls >= 1] source positions. *)
Definition wf_call (h : heap) (enc : EncoderOut) (cs : Z)
  (B Ts ds Ls : nat) : Prop :=
  v_sizes (encoder_out enc) = [B; Ts; ds] /\
  length (v_strides (encoder_out enc)) = 3 /\
  v_store (encoder_out enc) < length h /\
  Ls = slice_stop Ts cs /\ 1 <= Ls.

(** The output of the stack on the grid of a token sequence, element by
    element. *)
Definition reference_val (self : Attn2dDecoder) (h : heap) (enc : EncoderOut)
  (B Ls ds : nat) (t : tokens2) : tensor4 :=
  blocks_val (residual_blocks (net self))
    (reduce_val (net self) (grid_val self h (encoder_out enc) B Ls ds t)).

(* ================================================================== *)
(** * A small configuration

    One residual block with kernel size 3, dilations 1, stride 1 and
    [maintain_resolution] set; one source and one target channel; a
    vocabulary of two tokens besides the padding symbol. *)

Definition ex_args : Args :=
  MkArgs 1 3 1 2 2 1 1 1 1 (1 # 5)%Q true false.

(** The same with [maintain_resolution] cleared. *)
Definition ex_args_noresolution : Args :=
  MkArgs 1 3 1 2 2 1 1 1 0 (1 # 5)%Q true false.

(** The same with a source stride of 2. *)
Definition ex_args_stride2 : Args :=
  MkArgs 1 3 1 2 2 2 1 1 1 (1 # 5)%Q true false.

Definition ex_params : LayerParams :=
  MkLayerParams (fun _ _ => 1%R) (fun _ _ _ _ => 1%R) (fun _ => 0%R)
                (fun _ _ => 1%R) (fun _ _ => 1%R) (fun x => x) (fun x => x).

Definition ex_layer : _ResLayer :=
  Mk_ResLayer true (1 # 5)%Q
    (MkConv1x1 2 2 (fun _ _ => 1%R))
    (MaskedConvolution_init 2 2 3 ex_args (1, 1)%Z
       (fun _ _ _ _ => 1%R) (fun _ => 0%R))
    (Linear_init 2 2 (fun _ _ => 1%R))
    (Linear_init 2 2 (fun _ _ => 1%R))
    1%R (fun x => x) (fun x => x).

Definition ex_net : ResNet6 := MkResNet6 None 2%Z [ex_layer].

Definition ex_decoder : Attn2dDecoder :=
  MkAttn2dDecoder true 1
    (MkEmbedding 4 1 (fun t _ => INR t)) 1%R None
    (fun x => x) (fun x => x) (fun x => x) (fun x => x)
    ex_net
    (fun x => Ok x) (fun x => Ok x)
    (fun obs scores => Ok (MkControlOut obs scores scores scores))
    None
    (MkLinear 2 2 (fun _ _ => 0%R) (fun _ => 0%R))
    false.

(** A store holding one [1 x 3 x 1] tensor of encoder states. *)
Definition ex_heap : heap := [[1%R; 2%R; 3%R]].
Definition ex_encoder_states : view := View 0 [1; 3; 1] [3; 1; 1].
Definition ex_encoder_out : EncoderOut := MkEncoderOut ex_encoder_states None.

(** Two target tokens, none of them the padding symbol. *)
Definition ex_tokens : tokens2 := Tok 1 2 (fun _ i => 2 + i).

(** Whether a mask, when one is supplied, marks position [t] of batch
    element [b] as padding. *)
Definition is_padding (mask : option mask2) (b t : nat) : bool :=
  match mask with
  | Some m => mat m b t
  | None => false
  end.

(** The convolution of [_ResLayer.forward] before the two [masked_fill]
    calls. *)
Definition raw_conv (self : _ResLayer) (key : nat) (x : tensor4)
  (incremental_state : option inc_state) : result (tensor4 * option cache) :=
  x <- conv1x1 (conv1 self) (permute_0312 x) ;;
  MaskedConvolution_forward (mconv2 self) x
    (option_map (fun st => st key) incremental_state).

(** A [1 x 2 x 3 x 2] grid, and a source mask whose last position is
    padding. *)
Definition ex_grid : tensor4 :=
  T4 1 2 3 2 (fun _ i j c => INR (i + j + c)).

Definition ex_source_mask : mask2 := M2 1 3 (fun _ j => j =? 2).

(** Two [1 x 1 x 2 x 1] grids that differ only at source position 1. *)
Definition ex_features : tensor4 :=
  T4 1 1 2 1 (fun _ _ j _ => if j =? 0 then 1%R else 0%R).

Definition ex_features_perturbed : tensor4 :=
  T4 1 1 2 1 (fun _ _ j _ => if j =? 0 then 1%R else 5%R).

Definition ex_features_lowered : tensor4 :=
  T4 1 1 2 1 (fun _ _ j _ => if j =? 0 then 1%R else (-3)%R).

(** Reference tokens for the two target positions. *)
Definition ex_target : tokens2 := Tok 1 2 (fun _ i => i).

(** A store with the encoder states and a [1 x 2 x 1] tensor of target
    embeddings; the same target storage seen as a batch of two; an empty
    source sequence. *)
Definition ex_heap2 : heap := [[1%R; 2%R; 3%R]; [4%R; 5%R]].
Definition ex_target_emb : view := View 1 [1; 2; 1] [2; 1; 1].
Definition ex_target_emb_batch2 : view := View 1 [2; 1; 1] [1; 1; 1].
Definition ex_empty_source : view := View 0 [1; 0; 1] [0; 1; 1].

(** A longer target sequence with the same first token as [ex_tokens]. *)
Definition ex_tokens_longer : tokens2 :=
  Tok 1 3 (fun _ i => if i =? 0 then 2 else 0).

(** The configuration above with a target dilation of 3, and parameters
    with all convolution weights 1 and a feed-forward sublayer that
    returns 0. *)
Definition ex_args_dilation3 : Args :=
  MkArgs 1 3 1 1 1 1 1 3 1 (1 # 5)%Q true false.

Definition ex_params_no_ffn : LayerParams :=
  MkLayerParams (fun _ _ => 1%R) (fun _ _ _ _ => 1%R) (fun _ => 0%R)
                (fun _ _ => 0%R) (fun _ _ => 0%R) (fun x => x) (fun x => x).

(** The layer and the network that the constructors build from them: the
    target axis is padded by 3 rows, the cache of the convolution holds 2. *)
Definition ex_layer_dilation3 : _ResLayer :=
  Mk_ResLayer true (1 # 5)%Q
    (MkConv1x1 2 1 (fun _ _ => 1%R))
    (MaskedConvolution_init 1 2 3 ex_args_dilation3 (3, 1)%Z
       (fun _ _ _ _ => 1%R) (fun _ => 0%R))
    (Linear_init 2 1 (fun _ _ => 0%R))
    (Linear_init 1 2 (fun _ _ => 0%R))
    1%R (fun x => x) (fun x => x).

Definition ex_net_dilation3 : ResNet6 :=
  MkResNet6 None 2%Z [ex_layer_dilation3].

(** The same layer with a cache of 3 rows. *)
Definition ex_layer_dilation3_cache3 : _ResLayer :=
  let mc := mconv2 ex_layer_dilation3 in
  Mk_ResLayer true (1 # 5)%Q (conv1 ex_layer_dilation3)
    (MkMaskedConvolution (mc_in mc) (mc_out mc) (mc_kernel mc)
       (mc_padding mc) (mc_dilation mc) (mc_stride mc) (mc_double_masked mc)
       3 (mc_weight mc) (mc_bias mc))
    (fc1 ex_layer_dilation3) (fc2 ex_layer_dilation3)
    1%R (fun x => x) (fun x => x).

(** A decoder in evaluation mode over this network: token 2 is embedded as
    1 and every other token as 0; the prediction adds the two channels. *)
Definition ex_decoder_dilation3 : Attn2dDecoder :=
  MkAttn2dDecoder false 1
    (MkEmbedding 4 1 (fun t _ => if t =? 2 then 1%R else 0%R)) 1%R None
    (fun x => x) (fun x => x) (fun x => x) (fun x => x)
    (eval_net ex_net_dilation3)
    (fun x => Ok x) (fun x => Ok x)
    (fun obs scores => Ok (MkControlOut obs scores scores scores))
    None
    (MkLinear 2 1 (fun _ _ => 1%R) (fun _ => 0%R))
    false.

(** One source position whose state is 0, and four target tokens of which
    the first is token 2. *)
Definition ex_heap_zero : heap := [[0%R]].
Definition ex_encoder_out_zero : EncoderOut :=
  MkEncoderOut (View 0 [1; 1; 1] [1; 1; 1]) None.
Definition ex_tokens_impulse : tokens2 :=
  Tok 1 4 (fun _ i => if i =? 0 then 2 else 0).

(* ================================================================== *)
(** * [_ResLayer.forward_split], [get_stats] and [ResNet6.forward_stats] *)

(** The rest of [_ResLayer.forward_split]: as in [forward], but the
    activations before the feed-forward sublayer are returned as well. *)
Definition residual_ffn_split (self : _ResLayer) (x residual : tensor4)
  : result (tensor4 * tensor4) :=
  let x := if truthy (drop_rate self)
           then F_dropout (training self) (noise1 self) x else x in
  let x := permute_0231 x in
  x <- scaled_add (scale self) x residual ;;
  let residual := x in
  x <- linear (fc1 self) x ;;
  let x := relu4 x in
  x <- linear (fc2 self) x ;;
  let x := if truthy (drop_rate self)
           then F_dropout (training self) (noise2 self) x else x in
  x <- scaled_add (scale self) x residual ;;
  Ok (x, residual).

(** [_ResLayer.forward_split]: returns [(x, residual)]. *)
Definition _ResLayer_forward_split (self : _ResLayer) (key : nat)
  (x : tensor4) (encoder_mask decoder_mask : option mask2)
  (incremental_state : option inc_state)
  : result (tensor4 * tensor4 * option inc_state) :=
  let residual := x in
  ' (x, incremental_state) <-
      conv_activations self key x encoder_mask decoder_mask
        incremental_state ;;
  ' (x, residual) <- residual_ffn_split self x residual ;;
  Ok (x, residual, incremental_state).

(** Per-channel statistics; [None] stands for the [nan] that torch returns
    for the mean of no row and for the unbiased deviation of fewer than two
    rows. *)
Record stats : Type := MkStats {
  s_channels : nat;
  s_mean : nat -> option R;
  s_std : nat -> option R
}.

(** The number of rows of [x.contiguous().view(-1, x.size(-1))] and the sum
    of one of its columns. *)
Definition rows (x : tensor4) : nat := n0 x * n1 x * n2 x.

Definition column_sum (x : tensor4) (f : R -> R) (c : nat) : R :=
  sumR (n0 x) (fun b =>
    sumR (n1 x) (fun i =>
      sumR (n2 x) (fun j => f (at4 x b i j c)))).

Definition column_mean (x : tensor4) (c : nat) : R :=
  (column_sum x (fun v => v) c / INR (rows x))%R.

(** [get_stats(x)]: [x.mean(0), x.std(0)] of the flattened tensor. The view
    [(-1, 0)] of a tensor without channels is an error. *)
Definition get_stats (x : tensor4) : result stats :=
  if n3 x =? 0 then Raise RuntimeError
  else
    Ok (MkStats (n3 x)
          (fun c => if rows x =? 0 then None
                    else Some (column_mean x c))
          (fun c => if rows x <=? 1 then None
                    else Some (sqrt (column_sum x
                                       (fun v => Rsqr (v - column_mean x c)) c
                                     / INR (rows x - 1))))).

(** The loop of [ResNet6.forward_stats]. *)
Fixpoint stats_blocks (blocks : list _ResLayer) (key : nat) (x : tensor4)
  (encoder_mask decoder_mask : option mask2)
  (incremental_state : option inc_state) : result (list stats) :=
  match blocks with
  | [] => Ok []
  | layer :: rest =>
      ' (x, xattn, incremental_state) <-
          _ResLayer_forward_split layer key x encoder_mask decoder_mask
            incremental_state ;;
      s1 <- get_stats xattn ;;
      s2 <- get_stats x ;;
      more <- stats_blocks rest (S key) x encoder_mask decoder_mask
                incremental_state ;;
      Ok (s1 :: s2 :: more)
  end.

(** [ResNet6.forward_stats] *)
Definition ResNet6_forward_stats (self : ResNet6) (x : tensor4)
  (encoder_mask decoder_mask : option mask2)
  (incremental_state : option inc_state) : result (list stats) :=
  x <- match reduce_channels self with
       | Some l => linear l x
       | None => Ok x
       end ;;
  s0 <- get_stats x ;;
  more <- stats_blocks (residual_blocks self) 0 x encoder_mask decoder_mask
            incremental_state ;;
  Ok (s0 :: more).

(* ================================================================== *)
(** * [_expand] at any rank *)

(** The shape that [_expand] passes to [expand], from position [start]. *)
Definition expand_shape (dim reps start len : nat) : list Z :=
  map (fun i => if i =? dim then Z.of_nat reps else (-1)%Z) (seq start len).

(* ================================================================== *)

(** * [Attn2dEncoder] *)

Record Attn2dEncoder : Type := MkAttn2dEncoder {
  enc_training : bool;
  enc_padding_idx : nat;
  enc_embed_tokens : Embedding;
  enc_embed_scale : R;
  (* [PositionalEmbedding] (fairseq.modules), called with the tokens *)
  enc_embed_positions : option (tokens2 -> result tensor3);
  enc_embedding_dropout : tensor3 -> tensor3
}.

(** [Attn2dEncoder.forward]: the returned dictionary is the record
    [EncoderOut]; its tensor of states is a new tensor of the store. *)
Definition Attn2dEncoder_forward (self : Attn2dEncoder) (h : heap)
  (src_tokens : tokens2) : result (EncoderOut * heap) :=
  e <- embedding (enc_embed_tokens self) src_tokens ;;
  let x := scale3 (enc_embed_scale self) e in
  x <- match enc_embed_positions self with
       | Some pos => p <- pos src_tokens ;; iadd3 x p
       | None => Ok x
       end ;;
  let x := nn_dropout (enc_training self) (enc_embedding_dropout self) x in
  let encoder_padding_mask := padding_mask src_tokens (enc_padding_idx self) in
  let '(x, h) := store3 h x in
  Ok (MkEncoderOut x encoder_padding_mask, h).

(** [tensor.index_select(0, new_order)]: a new tensor whose row [k] is the
    row [new_order[k]] of [tensor]; an index outside the first dimension is
    an error. *)
Definition index_select0 (h : heap) (v : view) (new_order : list nat)
  : result (view * heap) :=
  match v_sizes v with
  | n :: rest =>
      if forallb (fun k => k <? n) new_order then
        Ok (alloc h (length new_order :: rest)
              (fun idx => read h v (nth (hd 0 idx) new_order 0 :: tl idx)))
      else Raise IndexError
  | [] => Raise IndexError
  end.

Definition index_select0_mask (m : mask2) (new_order : list nat)
  : result mask2 :=
  if forallb (fun k => k <? k0 m) new_order then
    Ok (M2 (length new_order) (k1 m) (fun b i => mat m (nth b new_order 0) i))
  else Raise IndexError.

(** [Attn2dEncoder.reorder_encoder_out]; the states of an encoder output
    are never [None]. *)
Definition reorder_encoder_out (h : heap) (encoder_out_ : EncoderOut)
  (new_order : list nat) : result (EncoderOut * heap) :=
  ' (states, h) <- index_select0 h (encoder_out encoder_out_) new_order ;;
  mask <- match encoder_padding_mask encoder_out_ with
          | Some m => m <- index_select0_mask m new_order ;; Ok (Some m)
          | None => Ok None
          end ;;
  Ok (MkEncoderOut states mask, h).

(* ================================================================== *)
(** * [Attn2dWaitkModel.forward] *)

(** Whether a mask, broadcast as [masked_fill] broadcasts it, marks
    position [t] of batch element [b]. *)
Definition marks (mask : option mask2) (b t : nat) : bool :=
  match mask with
  | Some m => mat m (bidx (k0 m) b) (bidx (k1 m) t)
  | None => false
  end.

(** [Attn2dWaitkModel.forward]: the encoder, then the decoder's
    [forward_train]. [src_lengths] is not read. *)
Definition Attn2dWaitkModel_forward (encoder : Attn2dEncoder)
  (decoder : Attn2dDecoder) (h : heap)
  (target src_tokens prev_output_tokens : tokens2) : result TrainOut :=
  ' (encoder_out_, h) <- Attn2dEncoder_forward encoder h src_tokens ;;
  forward_train decoder h prev_output_tokens encoder_out_ target.

(* ================================================================== *)

(** * [base_architecture] *)

(** The namespace of command-line arguments. The six integer attributes
    that the function computes with are typed fields ([None]: the attribute
    is not set); every other attribute is looked up by its name. *)
Inductive pyval : Type :=
| PBool (b : bool)
| PInt (z : Z)
| PFloat (q : Q)
| PStr (s : String.string)
| PNone.

Record Namespace : Type := MkNamespace {
  ns_encoder_embed_dim : option Z;
  ns_decoder_embed_dim : option Z;
  ns_output_dim : option Z;
  ns_divide_channels : option Z;
  ns_reduce_dim : option Z;
  ns_conv_groups : option Z;
  ns_attrs : String.string -> option pyval
}.

(** [getattr(args, name, default)] on the value found for [name]. *)
Definition getattr {A : Type} (found : option A) (default : A) : A :=
  match found with
  | Some v => v
  | None => default
  end.

Definition setattr (attrs : String.string -> option pyval)
  (name : String.string) (v : pyval) : String.string -> option pyval :=
  fun k => if String.eqb k name then Some v else attrs k.

(** [args.name = getattr(args, 'name', default)], and a run of such lines
    with constant defaults. *)
Definition set_default (attrs : String.string -> option pyval)
  (name : String.string) (default : pyval) : String.string -> option pyval :=
  setattr attrs name (getattr (attrs name) default).

Definition set_defaults (attrs : String.string -> option pyval)
  (l : list (String.string * pyval)) : String.string -> option pyval :=
  fold_left (fun a kv => set_default a (fst kv) (snd kv)) l attrs.

Definition defaults_head : list (String.string * pyval) :=
  [ ("memory_efficient"%string, PBool false);
    ("nonzero_padding"%string, PBool false);
    ("conv_bias"%string, PBool false);
    ("aggregation"%string, PStr "max"%string);
    ("skip_output_mapping"%string, PBool false);
    ("encoder_embed_path"%string, PNone);
    ("decoder_embed_path"%string, PNone);
    ("share_decoder_input_output_embed"%string, PBool false);
    ("share_all_embeddings"%string, PBool false);
    ("embeddings_dropout"%string, PFloat (0 # 1)%Q) ].

Definition defaults_conv : list (String.string * pyval) :=
  [ ("conv_stride"%string, PInt 1);
    ("source_dilation"%string, PInt 1);
    ("target_dilation"%string, PInt 1);
    ("maintain_resolution"%string, PInt 1) ].

Definition defaults_tail : list (String.string * pyval) :=
  [ ("learned_pos"%string, PBool false);
    ("input_dropout"%string, PFloat (1 # 5)%Q);
    ("convolution_dropout"%string, PFloat (1 # 5)%Q);
    ("network"%string, PStr "resnet_addup_nonorm2"%string);
    ("kernel_size"%string, PInt 3);
    ("num_layers"%string, PInt 24);
    ("prediction_dropout"%string, PFloat (1 # 5)%Q);
    ("double_masked"%string, PBool true);
    ("detach_controls"%string, PBool false);
    ("write_right"%string, PBool false);
    ("oracle_penalty"%string, PInt 0);
    ("control_oracle"%string, PStr "likelihood"%string);
    ("num_control_layers"%string, PInt 8);
    ("control_kernel_size"%string, PInt 3) ].

(** [base_architecture(args)]: the namespace as the call leaves it. The
    default of [reduce_dim] is computed before [getattr] is called. *)
Definition base_architecture (args : Namespace) : result Namespace :=
  let attrs := set_defaults (ns_attrs args) defaults_head in
  let encoder_embed_dim := getattr (ns_encoder_embed_dim args) 256%Z in
  let decoder_embed_dim := getattr (ns_decoder_embed_dim args) 256%Z in
  let attrs := set_default attrs "ffn_dim"%string (PInt 512) in
  let output_dim := getattr (ns_output_dim args) decoder_embed_dim in
  let divide_channels := getattr (ns_divide_channels args) 2%Z in
  if (divide_channels =? 0)%Z then Raise ZeroDivisionError
  else
    let reduce_dim :=
      getattr (ns_reduce_dim args)
              ((encoder_embed_dim + decoder_embed_dim) / divide_channels)%Z in
    let conv_groups := getattr (ns_conv_groups args) reduce_dim in
    let attrs := set_default attrs "num_heads"%string (PInt 1) in
    let conv_groups := getattr (Some conv_groups) 1%Z in
    let attrs := set_defaults attrs defaults_conv in
    let attrs :=
      setattr attrs "add_positional_emnbeddings"%string
        (getattr (attrs "add_positional_embeddings"%string) (PBool false)) in
    let attrs := set_defaults attrs defaults_tail in
    Ok (MkNamespace (Some encoder_embed_dim) (Some decoder_embed_dim)
          (Some output_dim) (Some divide_channels) (Some reduce_dim)
          (Some conv_groups) attrs).

(** The constant defaults, in the order of the source. *)
Definition constant_defaults : list (String.string * pyval) :=
  defaults_head ++ [("ffn_dim"%string, PInt 512)]
  ++ [("num_heads"%string, PInt 1)] ++ defaults_conv ++ defaults_tail.

Definition default_of (name : String.string) : option pyval :=
  option_map snd
    (find (fun kv => String.eqb name (fst kv)) constant_defaults).

Definition defaults_early : list (String.string * pyval) :=
  defaults_head ++ [("ffn_dim"%string, PInt 512)]
  ++ [("num_heads"%string, PInt 1)] ++ defaults_conv.

(* ================================================================== *)
(** * Further small configurations *)

(** [ex_layer] without dropout, and a network of this one block. *)
Definition ex_layer_no_dropout : _ResLayer :=
  Mk_ResLayer true (0 # 1)%Q (conv1 ex_layer) (mconv2 ex_layer)
    (fc1 ex_layer) (fc2 ex_layer) 1%R (fun x => x) (fun x => x).

Definition ex_net_no_dropout : ResNet6 :=
  MkResNet6 None 2%Z [ex_layer_no_dropout].

(** An encoder in evaluation mode over the vocabulary of [ex_decoder], and
    three source tokens, the last of them the padding symbol. *)
Definition ex_encoder : Attn2dEncoder :=
  MkAttn2dEncoder false 1 (MkEmbedding 4 1 (fun t _ => INR t)) 1%R None
    (fun x => x).

Definition ex_source_tokens : tokens2 :=
  Tok 1 3 (fun _ j => if j =? 2 then 1 else 2).

(** A namespace in which no attribute is set. *)
Definition ex_namespace : Namespace :=
  MkNamespace None None None None None None (fun _ => None).

(* ================================================================== *)
(** * Properties *)

(** ** Construction of a residual layer *)

Lemma ex_net_built :
  ResNet6_init 2 ex_args (fun _ _ => 1%R) (fun _ => ex_params) = Ok ex_net.
Proof. reflexivity. Qed.

Lemma ResLayer_padding_stride (kernel : Z) (args : Args) :
  maintain_resolution args <> 0%Z -> conv_stride args <> 1%Z ->
  _ResLayer_padding kernel args = Raise ValueError.
Proof.
  intros Hres Hstride. unfold _ResLayer_padding.
  destruct (Z.eqb_spec (maintain_resolution args) 0); [contradiction|].
  destruct (Z.eqb_spec (conv_stride args) 1); [contradiction|].
  reflexivity.
Qed.

Lemma ResLayer_padding_ok (kernel : Z) (args : Args) :
  maintain_resolution args = 0%Z \/ conv_stride args = 1%Z ->
  _ResLayer_padding kernel args =
  Ok ((target_dilation args * (kernel - 1) / 2)%Z,
      if (maintain_resolution args =? 0)%Z then 0%Z
      else (source_dilation args * (kernel - 1) / 2)%Z).
Proof.
  intros H. unfold _ResLayer_padding.
  destruct (Z.eqb_spec (maintain_resolution args) 0); simpl; [reflexivity|].
  destruct H as [H|H]; [contradiction|].
  rewrite H. reflexivity.
Qed.

(** With a padding of [dil * (k - 1) / 2] a stride-1 convolution keeps the
    length exactly when [dil * (k - 1)] is even. *)
Lemma conv_out_len_same (n dil k : Z) :
  conv_out_len n (dil * (k - 1) / 2) dil k 1 = n <->
  Z.even (dil * (k - 1)) = true.
Proof.
  unfold conv_out_len. rewrite Z.div_1_r.
  rewrite Z.even_spec.
  split.
  - intros H. exists (dil * (k - 1) / 2)%Z. lia.
  - intros [m Hm]. rewrite Hm.
    replace (2 * m)%Z with (m * 2)%Z by lia.
    rewrite Z.div_mul by lia. lia.
Qed.

(** C9, as amended. When [maintain_resolution] is set and the stride is not
    1, [_ResLayer.__init__] raises [ValueError]. In every other configuration
    it returns a layer whose convolution is padded by
    [target_dilation * (kernel_size - 1) / 2] (floor division) on the target
    axis, and on the source axis by [source_dilation * (kernel_size - 1) / 2]
    when [maintain_resolution] is set and by 0 when it is not. With that
    padding the output target length of the stride-1 convolution equals the
    input target length exactly when [target_dilation * (kernel_size - 1)]
    is even. *)
Theorem ResLayer_init_padding (num_features : nat) (kernel : Z)
  (args : Args) (p : LayerParams) :
  (maintain_resolution args <> 0%Z -> conv_stride args <> 1%Z ->
   _ResLayer_init num_features kernel args p = Raise ValueError) /\
  (maintain_resolution args = 0%Z \/ conv_stride args = 1%Z ->
   exists layer,
     _ResLayer_init num_features kernel args p = Ok layer /\
     mc_padding (mconv2 layer) =
       ((target_dilation args * (kernel - 1) / 2)%Z,
        if (maintain_resolution args =? 0)%Z then 0%Z
        else (source_dilation args * (kernel - 1) / 2)%Z) /\
     mc_dilation (mconv2 layer) =
       (target_dilation args, source_dilation args) /\
     forall n : Z,
       conv_out_len n (fst (mc_padding (mconv2 layer)))
                    (fst (mc_dilation (mconv2 layer))) kernel 1 = n <->
       Z.even (target_dilation args * (kernel - 1)) = true).
Proof.
  split.
  - intros Hres Hstride. unfold _ResLayer_init.
    rewrite ResLayer_padding_stride by assumption. reflexivity.
  - intros H. unfold _ResLayer_init.
    rewrite ResLayer_padding_ok by assumption. simpl.
    eexists. split; [reflexivity|]. simpl.
    split; [reflexivity|]. split; [reflexivity|].
    intros n. apply conv_out_len_same.
Qed.

Lemma ResLayer_init_padding_witness :
  _ResLayer_init 2 3 ex_args_stride2 ex_params = Raise ValueError /\
  exists layer,
    _ResLayer_init 2 3 ex_args ex_params = Ok layer /\
    mc_padding (mconv2 layer) = (1, 1)%Z /\
    conv_out_len 5 (fst (mc_padding (mconv2 layer)))
                 (fst (mc_dilation (mconv2 layer))) 3 1 = 5%Z.
Proof.
  split.
  - apply (proj1 (ResLayer_init_padding 2 3 ex_args_stride2 ex_params));
      simpl; lia.
  - destruct (proj2 (ResLayer_init_padding 2 3 ex_args ex_params))
      as [layer [Hinit [Hpad [Hdil Hlen]]]].
    + right. reflexivity.
    + exists layer. split; [exact Hinit|]. split; [exact Hpad|].
      apply Hlen. reflexivity.
Defined.

(** C9 as stated fails: with stride 1 and [maintain_resolution] cleared the
    layer is built with a source padding of 0, not
    [source_dilation * (kernel_size - 1) / 2 = 1]. *)
Lemma ResLayer_init_padding_counterexample :
  conv_stride ex_args_noresolution = 1%Z /\
  (source_dilation ex_args_noresolution * (3 - 1) / 2 = 1)%Z /\
  exists layer,
    _ResLayer_init 2 3 ex_args_noresolution ex_params = Ok layer /\
    snd (mc_padding (mconv2 layer)) = 0%Z.
Proof.
  split; [reflexivity|]. split; [reflexivity|].
  eexists. split; reflexivity.
Qed.

(** ** A call of [forward] without [context_size] *)

Lemma embedding_in_vocabulary (e : Embedding) (t : tokens2) :
  (forall b i, b < t0 t -> i < t1 t -> tok t b i < num_embeddings e) ->
  embedding e t =
  Ok (T3 (t0 t) (t1 t) (embedding_dim e)
         (fun b i c => emb_weight e (tok t b i) c)).
Proof.
  intros H. unfold embedding.
  replace (forallb _ _) with true; [reflexivity|].
  symmetry. apply forallb_forall. intros b Hb.
  apply forallb_forall. intros i Hi. apply Nat.ltb_lt.
  apply in_seq in Hb. apply in_seq in Hi. apply H; lia.
Qed.

(** C10. A call of [Attn2dDecoder.forward] that leaves [context_size] at
    [None] never returns: whatever the other arguments are, it raises. When
    the lines before the first read of [src_emb] succeed (the encoder states
    have a second axis, there is no positional embedding to fail, the tokens
    are in the embedding table), the exception is the [UnboundLocalError]
    of that read. *)
Theorem forward_requires_context_size (self : Attn2dDecoder) (h : heap)
  (tokens : tokens2) (enc : EncoderOut) (st : option inc_state)
  (cache_decoder : bool) :
  is_ok (forward self h tokens enc st None cache_decoder) = false /\
  (is_ok (size (encoder_out enc) 1) = true ->
   embed_positions self = None ->
   (forall b i, b < t0 tokens -> i < t1 tokens ->
                tok tokens b i < num_embeddings (embed_tokens self)) ->
   forward self h tokens enc st None cache_decoder = Raise UnboundLocalError).
Proof.
  unfold forward. split.
  - destruct (size (encoder_out enc) 1); [|reflexivity]. simpl.
    destruct (embed_positions self) as [pos|]; simpl.
    + destruct (pos tokens _); [|reflexivity]. simpl.
      destruct (embed_target self _ _); reflexivity.
    + destruct (embed_target self _ _); reflexivity.
  - intros Hsize Hpos Htok.
    destruct (size (encoder_out enc) 1); [|discriminate]. simpl.
    rewrite Hpos. simpl.
    unfold embed_target.
    rewrite embedding_in_vocabulary.
    + destruct st as [s|]; [destruct cache_decoder|]; reflexivity.
    + destruct st as [s|]; [destruct cache_decoder|];
        unfold last_token; cbn [t0 t1 tok];
        intros b i Hb Hi; apply Htok; lia.
Qed.

Lemma forward_requires_context_size_witness :
  forward ex_decoder ex_heap ex_tokens ex_encoder_out None None true
  = Raise UnboundLocalError.
Proof.
  apply (proj2 (forward_requires_context_size ex_decoder ex_heap ex_tokens
                  ex_encoder_out None true)).
  - reflexivity.
  - reflexivity.
  - simpl. intros b i Hb Hi. lia.
Defined.

(** ** Zeroing of the padding positions after the convolution *)

Lemma masked_fill_encoder_fits (x : tensor4) (m : mask2) :
  k0 m = n0 x -> k1 m = n3 x ->
  exists y, masked_fill_encoder x m = Ok y /\
    n0 y = n0 x /\ n1 y = n1 x /\ n2 y = n2 x /\ n3 y = n3 x /\
    forall b c i j, b < n0 x -> j < n3 x ->
      at4 y b c i j = if mat m b j then 0%R else at4 x b c i j.
Proof.
  intros H0 H1. unfold masked_fill_encoder.
  rewrite H0, H1, !Nat.eqb_refl. simpl.
  eexists. split; [reflexivity|]. simpl. repeat split.
  intros b c i j Hb Hj. unfold bidx.
  destruct (Nat.eqb_spec (n0 x) 1) as [E0|E0];
    destruct (Nat.eqb_spec (n3 x) 1) as [E3|E3];
    try (replace b with 0 by lia); try (replace j with 0 by lia);
    reflexivity.
Qed.

Lemma masked_fill_decoder_fits (x : tensor4) (m : mask2) :
  k0 m = n0 x -> k1 m = n2 x ->
  exists y, masked_fill_decoder x m = Ok y /\
    n0 y = n0 x /\ n1 y = n1 x /\ n2 y = n2 x /\ n3 y = n3 x /\
    forall b c i j, b < n0 x -> i < n2 x ->
      at4 y b c i j = if mat m b i then 0%R else at4 x b c i j.
Proof.
  intros H0 H1. unfold masked_fill_decoder.
  rewrite H0, H1, !Nat.eqb_refl. simpl.
  eexists. split; [reflexivity|]. simpl. repeat split.
  intros b c i j Hb Hi. unfold bidx.
  destruct (Nat.eqb_spec (n0 x) 1) as [E0|E0];
    destruct (Nat.eqb_spec (n2 x) 1) as [E2|E2];
    try (replace b with 0 by lia); try (replace i with 0 by lia);
    reflexivity.
Qed.

Lemma zero_padding_positions_training (x : tensor4)
  (enc dec : option mask2) :
  (forall m, enc = Some m -> k0 m = n0 x /\ k1 m = n3 x) ->
  (forall m, dec = Some m -> k0 m = n0 x /\ k1 m = n2 x) ->
  exists y, zero_padding_positions true x enc dec = Ok y /\
    n0 y = n0 x /\ n1 y = n1 x /\ n2 y = n2 x /\ n3 y = n3 x /\
    forall b c i j, b < n0 x -> c < n1 x -> i < n2 x -> j < n3 x ->
      at4 y b c i j =
      if is_padding enc b j || is_padding dec b i then 0%R
      else at4 x b c i j.
Proof.
  intros Henc Hdec. unfold zero_padding_positions.
  destruct enc as [me|].
  - destruct (Henc me eq_refl) as [He0 He1].
    destruct (masked_fill_encoder_fits x me He0 He1)
      as [y [Hy [D0 [D1 [D2 [D3 Hat]]]]]].
    rewrite Hy. simpl.
    destruct dec as [md|].
    + destruct (Hdec md eq_refl) as [Hd0 Hd1].
      assert (Hy0 : k0 md = n0 y) by congruence.
      assert (Hy1 : k1 md = n2 y) by congruence.
      destruct (masked_fill_decoder_fits y md Hy0 Hy1)
        as [w [Hw [E0 [E1 [E2 [E3 Hat']]]]]].
      exists w. split; [exact Hw|].
      repeat split; try congruence.
      intros b c i j Hb Hc Hi Hj.
      rewrite Hat' by lia. rewrite Hat by lia. cbn [is_padding].
      destruct (mat me b j), (mat md b i); reflexivity.
    + exists y. split; [reflexivity|]. repeat split; try assumption.
      intros b c i j Hb Hc Hi Hj. rewrite Hat by lia. cbn [is_padding].
      destruct (mat me b j); reflexivity.
  - simpl. destruct dec as [md|].
    + destruct (Hdec md eq_refl) as [Hd0 Hd1].
      destruct (masked_fill_decoder_fits x md Hd0 Hd1)
        as [w [Hw [E0 [E1 [E2 [E3 Hat']]]]]].
      exists w. split; [exact Hw|]. repeat split; try assumption.
      intros b c i j Hb Hc Hi Hj. rewrite Hat' by lia. reflexivity.
    + exists x. repeat split.
Qed.

(** C6. Let [z] be what the masked convolution of a residual block returns
    for an input. In training mode, when the supplied masks have the sizes of
    [z], the activations the block goes on with are [z] with 0 at every
    position that the source mask or the target mask marks as padding (all
    channels), and [z] elsewhere; a mask that is not supplied zeroes
    nothing. Outside training mode, which is how incremental inference runs,
    the block goes on with [z] itself. *)
Theorem padding_positions_zeroed (self : _ResLayer) (key : nat)
  (x : tensor4) (enc dec : option mask2) (st : option inc_state)
  (z : tensor4) (slot : option cache) :
  raw_conv self key x st = Ok (z, slot) ->
  (training self = true ->
   (forall m, enc = Some m -> k0 m = n0 z /\ k1 m = n3 z) ->
   (forall m, dec = Some m -> k0 m = n0 z /\ k1 m = n2 z) ->
   exists y st',
     conv_activations self key x enc dec st = Ok (y, st') /\
     n0 y = n0 z /\ n1 y = n1 z /\ n2 y = n2 z /\ n3 y = n3 z /\
     forall b c i j, b < n0 z -> c < n1 z -> i < n2 z -> j < n3 z ->
       at4 y b c i j =
       if is_padding enc b j || is_padding dec b i then 0%R
       else at4 z b c i j) /\
  (training self = false ->
   exists st', conv_activations self key x enc dec st = Ok (z, st')).
Proof.
  intros Hraw. unfold raw_conv in Hraw. unfold conv_activations.
  destruct (conv1x1 (conv1 self) (permute_0312 x)) as [x1|e];
    [|discriminate].
  simpl in Hraw |- *. rewrite Hraw. simpl. split.
  - intros Htr Henc Hdec. rewrite Htr.
    destruct (zero_padding_positions_training z enc dec Henc Hdec)
      as [y [Hy Hrest]].
    rewrite Hy. simpl. eexists. eexists. split; [reflexivity|exact Hrest].
  - intros Htr. rewrite Htr. simpl. eexists. reflexivity.
Qed.

Lemma padding_positions_zeroed_witness :
  (exists y st',
     conv_activations ex_layer 0 ex_grid (Some ex_source_mask) None None
     = Ok (y, st') /\
     forall c i, c < 2 -> i < 2 -> at4 y 0 c i 2 = 0%R) /\
  (exists z st',
     conv_activations (eval_layer ex_layer) 0 ex_grid
       (Some ex_source_mask) None None = Ok (z, st') /\
     raw_conv ex_layer 0 ex_grid None = Ok (z, None)).
Proof.
  assert (Hraw : exists z, raw_conv ex_layer 0 ex_grid None = Ok (z, None)
                           /\ n0 z = 1 /\ n1 z = 2 /\ n2 z = 2 /\ n3 z = 3).
  { eexists. split; [reflexivity|]. simpl. repeat split. }
  destruct Hraw as [z [Hraw [D0 [D1 [D2 D3]]]]].
  split.
  - destruct (proj1 (padding_positions_zeroed ex_layer 0 ex_grid
                       (Some ex_source_mask) None None z None Hraw))
      as [y [st' [Hy [_ [_ [_ [_ Hat]]]]]]].
    + reflexivity.
    + intros m Hm. injection Hm as <-. simpl. split; congruence.
    + intros m Hm. discriminate.
    + exists y, st'. split; [exact Hy|].
      intros c i Hc Hi. rewrite Hat by lia. reflexivity.
  - destruct (proj2 (padding_positions_zeroed (eval_layer ex_layer) 0 ex_grid
                       (Some ex_source_mask) None None z None Hraw))
      as [st' Hz].
    + reflexivity.
    + exists z, st'. split; [exact Hz | exact Hraw].
Defined.

(** ** The max reduction over the source axis *)

Lemma maxR_upper (n : nat) (f : nat -> R) (j : nat) :
  j <= n -> (f j <= maxR n f)%R.
Proof.
  induction n as [|n IH]; intros Hj; simpl.
  - replace j with 0 by lia. apply Rle_refl.
  - destruct (Nat.eq_dec j (S n)) as [->|Hne].
    + apply Rmax_r.
    + eapply Rle_trans; [apply IH; lia | apply Rmax_l].
Qed.

Lemma maxR_ext (n : nat) (f g : nat -> R) :
  (forall j, j <= n -> f j = g j) -> maxR n f = maxR n g.
Proof.
  induction n as [|n IH]; intros H; simpl.
  - apply H. lia.
  - rewrite IH by (intros; apply H; lia). rewrite (H (S n)) by lia.
    reflexivity.
Qed.

(** Values past a prefix that do not exceed the maximum of the prefix do
    not change the maximum. *)
Lemma maxR_dominated (k d : nat) (f : nat -> R) :
  (forall j, k < j <= k + d -> (f j <= maxR k f)%R) ->
  maxR (k + d) f = maxR k f.
Proof.
  induction d as [|d IH]; intros H.
  - rewrite Nat.add_0_r. reflexivity.
  - replace (k + S d) with (S (k + d)) by lia. simpl.
    rewrite IH by (intros; apply H; lia).
    apply Rmax_left. apply H. lia.
Qed.

(** C3, as amended. [x.max(dim=2)] is the maximum over all the source
    positions, padding included: no mask enters the reduction. For two grids
    of the same sizes that agree at the source positions before [k >= 1],
    the reductions agree at a batch element, target position and channel
    whenever the values of both grids at the positions [k, S) do not exceed
    the maximum over the positions before [k]; the result is then that
    maximum. *)
Theorem max_over_source_dominated (x x' : tensor4) (k : nat) :
  n0 x = n0 x' -> n1 x = n1 x' -> n2 x = n2 x' -> n3 x = n3 x' ->
  1 <= k <= n2 x ->
  (forall b i j c, b < n0 x -> i < n1 x -> j < k -> c < n3 x ->
                   at4 x b i j c = at4 x' b i j c) ->
  (forall b i j c, b < n0 x -> i < n1 x -> k <= j < n2 x -> c < n3 x ->
     (at4 x b i j c <= maxR (k - 1) (fun j => at4 x b i j c))%R /\
     (at4 x' b i j c <= maxR (k - 1) (fun j => at4 x b i j c))%R) ->
  exists y y',
    max_dim2 x = Ok y /\ max_dim2 x' = Ok y' /\ teq3 y y' /\
    m0 y = n0 x /\ m1 y = n1 x /\ m2 y = n3 x /\
    forall b i c, b < n0 x -> i < n1 x -> c < n3 x ->
      at3 y b i c = maxR (k - 1) (fun j => at4 x b i j c).
Proof.
  intros D0 D1 D2 D3 Hk Hagree Hdom.
  unfold max_dim2. rewrite <- D2.
  destruct (n2 x) as [|s] eqn:Es; [lia|].
  eexists. eexists. split; [reflexivity|]. split; [reflexivity|].
  assert (Hx : forall b i c, b < n0 x -> i < n1 x -> c < n3 x ->
            maxR s (fun j => at4 x b i j c)
            = maxR (k - 1) (fun j => at4 x b i j c)).
  { intros b i c Hb Hi Hc.
    replace s with ((k - 1) + (s - (k - 1))) at 1 by lia.
    apply maxR_dominated. intros j Hj.
    apply (Hdom b i j c); lia. }
  assert (Hx' : forall b i c, b < n0 x -> i < n1 x -> c < n3 x ->
            maxR s (fun j => at4 x' b i j c)
            = maxR (k - 1) (fun j => at4 x b i j c)).
  { intros b i c Hb Hi Hc.
    replace s with ((k - 1) + (s - (k - 1))) at 1 by lia.
    rewrite maxR_dominated.
    - apply maxR_ext. intros j Hj. symmetry. apply Hagree; lia.
    - intros j Hj.
      rewrite (maxR_ext (k - 1) (fun j => at4 x' b i j c)
                 (fun j => at4 x b i j c))
        by (intros j' Hj'; symmetry; apply Hagree; lia).
      apply (Hdom b i j c); lia. }
  split.
  - unfold teq3. simpl. repeat split; try assumption.
    intros b i c Hb Hi Hc. rewrite Hx, Hx' by lia. reflexivity.
  - simpl. repeat split. intros b i c Hb Hi Hc. apply Hx; assumption.
Qed.

Lemma ex_features_max :
  max_dim2 ex_features
  = Ok (T3 1 1 1 (fun b i c => maxR 1 (fun j => at4 ex_features b i j c))).
Proof. reflexivity. Qed.

Lemma max_over_source_dominated_witness :
  exists y y',
    max_dim2 ex_features = Ok y /\ max_dim2 ex_features_lowered = Ok y' /\
    teq3 y y' /\ at3 y 0 0 0 = 1%R.
Proof.
  destruct (max_over_source_dominated ex_features ex_features_lowered 1)
    as [y [y' [Hy [Hy' [Heq [_ [_ [_ Hat]]]]]]]].
  - reflexivity.
  - reflexivity.
  - reflexivity.
  - reflexivity.
  - simpl. lia.
  - simpl. intros b i j c Hb Hi Hj Hc.
    destruct (Nat.eqb_spec j 0) as [E|E]; [reflexivity|lia].
  - simpl. intros b i j c Hb Hi Hj Hc.
    destruct (Nat.eqb_spec j 0) as [E|E]; [lia|]. lra.
  - exists y, y'. split; [exact Hy|]. split; [exact Hy'|].
    split; [exact Heq|].
    rewrite Hat by (simpl; lia). reflexivity.
Defined.

(** C3 as stated fails: source position 1 is padding and position 0 is not;
    raising the feature at the padding position from 0 to 5 changes the
    maximum over the source axis from 1 to 5. *)
Lemma max_over_source_counterexample :
  (forall b i c, at4 ex_features b i 0 c = at4 ex_features_perturbed b i 0 c)
  /\ exists y y',
       max_dim2 ex_features = Ok y /\
       max_dim2 ex_features_perturbed = Ok y' /\
       at3 y 0 0 0 = 1%R /\ at3 y' 0 0 0 = 5%R /\
       at3 y 0 0 0 <> at3 y' 0 0 0.
Proof.
  split; [reflexivity|].
  eexists. eexists. split; [reflexivity|]. split; [reflexivity|].
  simpl.
  assert (H1 : Rmax 1 0 = 1%R) by (apply Rmax_left; lra).
  assert (H5 : Rmax 1 5 = 5%R) by (apply Rmax_right; lra).
  rewrite H1, H5. repeat split; lra.
Qed.

(** ** Normalisation of the predictor's output *)

Lemma sumR_scal (n : nat) (f : nat -> R) (c : R) :
  sumR n (fun i => f i * c)%R = (sumR n f * c)%R.
Proof.
  induction n as [|n IH]; simpl.
  - ring.
  - rewrite IH. ring.
Qed.

Lemma sumR_exp_pos (n : nat) (f : nat -> R) :
  1 <= n -> (0 < sumR n (fun u => exp (f u)))%R.
Proof.
  induction n as [|n IH]; intros Hn; [lia|]. simpl.
  destruct n as [|n].
  - simpl. pose proof (exp_pos (f 0)). lra.
  - pose proof (exp_pos (f (S n))). assert (1 <= S n) by lia.
    specialize (IH H0). lra.
Qed.

Lemma sumR_ext (n : nat) (f g : nat -> R) :
  (forall i, i < n -> f i = g i) -> sumR n f = sumR n g.
Proof.
  induction n as [|n IH]; intros H; simpl.
  - reflexivity.
  - rewrite IH by (intros; apply H; lia). rewrite (H n) by lia.
    reflexivity.
Qed.

Lemma log_softmax_normalized (x : tensor4) (a b c : nat) :
  1 <= n3 x ->
  sumR (n3 (log_softmax x)) (fun v => exp (at4 (log_softmax x) a b c v))
  = 1%R.
Proof.
  intros Hn. simpl.
  set (s := sumR (n3 x) (fun u => exp (at4 x a b c u))).
  assert (Hs : (0 < s)%R) by (apply sumR_exp_pos; exact Hn).
  rewrite (sumR_ext (n3 x) _ (fun v => exp (at4 x a b c v) * / s)%R).
  - rewrite sumR_scal. fold s. field. lra.
  - intros v _. unfold Rminus. rewrite exp_plus, exp_Ropp, exp_ln by exact Hs.
    reflexivity.
Qed.

(** Reading back the steps of a successful computation. *)
Ltac bind_ok H x E :=
  match type of H with
  | bind ?m _ = Ok _ =>
      destruct m as [x|] eqn:E; [cbn [bind] in H | discriminate H]
  end.

Lemma forward_train_log_softmax (self : Attn2dDecoder) (h : heap)
  (tokens : tokens2) (enc : EncoderOut) (target : tokens2) (out : TrainOut) :
  forward_train self h tokens enc target = Ok out ->
  exists x, out_x out = log_softmax x /\ 1 <= n3 x.
Proof.
  unfold forward_train. intros H.
  bind_ok H positions Epos.
  bind_ok H tgt_emb Etgt.
  bind_ok H batch_size Eb.
  bind_ok H src_length Es.
  bind_ok H x0 Ex0.
  bind_ok H obs Eobs.
  bind_ok H xs Enet. destruct xs as [x1 st1].
  bind_ok H x2 Eagg.
  bind_ok H x3 Eproj.
  bind_ok H x4 Epred.
  bind_ok H scores Escores.
  exists x4.
  assert (Hv : 1 <= n3 x4).
  { unfold gather_scores in Escores. cbn [n3 log_softmax] in Escores.
    destruct (Nat.leb_spec 1 (n3 x4)) as [Hle|Hgt]; [exact Hle|].
    simpl in Escores. discriminate Escores. }
  bind_ok H scores1 Es1.
  bind_ok H scores2 Es2.
  bind_ok H c Ec.
  injection H as <-. split; [reflexivity | exact Hv].
Qed.

Lemma forward_returns_prediction (self : Attn2dDecoder) (h : heap)
  (tokens : tokens2) (enc : EncoderOut) (st : option inc_state)
  (context_size : option Z) (cache_decoder : bool)
  (y : tensor3) (st' : option inc_state) :
  forward self h tokens enc st context_size cache_decoder = Ok (y, st') ->
  exists features, linear3 (prediction self) features = Ok y.
Proof.
  unfold forward. intros H.
  bind_ok H ts Ets.
  bind_ok H src Esrc.
  bind_ok H positions Epos.
  bind_ok H tgt_emb Etgt.
  bind_ok H src_emb Esrc'.
  bind_ok H x0 Ex0.
  bind_ok H xs Enet. destruct xs as [x1 st1].
  bind_ok H x2 Epred.
  injection H as <- _.
  unfold predict in Epred.
  bind_ok Epred x3 Emax.
  bind_ok Epred x4 Eproj.
  eexists. exact Epred.
Qed.

(** C4, as amended. In training-scoring mode the tensor of log-probabilities
    that [forward_train] returns is log-normalised over the vocabulary axis:
    at every (batch, target, source) cell the exponentials sum to 1. In
    incremental inference [forward] returns the output of the prediction
    layer as it is, the logits: no normalisation is applied to it. *)
Theorem predictor_output_normalisation (self : Attn2dDecoder) (h : heap)
  (tokens : tokens2) (enc : EncoderOut) :
  (forall target out,
     forward_train self h tokens enc target = Ok out ->
     1 <= n3 (out_x out) /\
     forall b i j,
       sumR (n3 (out_x out)) (fun v => exp (at4 (out_x out) b i j v))
       = 1%R) /\
  (forall st context_size cache_decoder y st',
     forward self h tokens enc st context_size cache_decoder = Ok (y, st') ->
     exists features, linear3 (prediction self) features = Ok y).
Proof.
  split.
  - intros target out H.
    destruct (forward_train_log_softmax _ _ _ _ _ _ H) as [x [Hx Hv]].
    rewrite Hx. split; [exact Hv|].
    intros b i j. apply log_softmax_normalized. exact Hv.
  - intros st cs cd y st' H.
    exact (forward_returns_prediction _ _ _ _ _ _ _ _ _ H).
Qed.

Lemma ex_forward_train_returns :
  is_ok (forward_train ex_decoder ex_heap ex_tokens ex_encoder_out ex_target)
  = true.
Proof. reflexivity. Qed.

Lemma ex_forward_returns :
  is_ok (forward (eval_decoder ex_decoder) ex_heap ex_tokens ex_encoder_out
                 (Some empty_state) (Some 3%Z) true) = true.
Proof. reflexivity. Qed.

Lemma predictor_output_normalisation_witness :
  (exists out,
     forward_train ex_decoder ex_heap ex_tokens ex_encoder_out ex_target
     = Ok out /\
     sumR (n3 (out_x out)) (fun v => exp (at4 (out_x out) 0 1 2 v)) = 1%R) /\
  (exists y st' features,
     forward (eval_decoder ex_decoder) ex_heap ex_tokens ex_encoder_out
             (Some empty_state) (Some 3%Z) true = Ok (y, st') /\
     linear3 (prediction (eval_decoder ex_decoder)) features = Ok y).
Proof.
  split.
  - pose proof ex_forward_train_returns as Hok.
    destruct (forward_train ex_decoder ex_heap ex_tokens ex_encoder_out
                ex_target) as [out|e] eqn:E; [|discriminate Hok].
    exists out. split; [reflexivity|].
    apply (proj1 (predictor_output_normalisation ex_decoder ex_heap
                    ex_tokens ex_encoder_out) ex_target out E).
  - pose proof ex_forward_returns as Hok.
    destruct (forward (eval_decoder ex_decoder) ex_heap ex_tokens
                ex_encoder_out (Some empty_state) (Some 3%Z) true)
      as [[y st']|e] eqn:E; [|discriminate Hok].
    destruct (proj2 (predictor_output_normalisation (eval_decoder ex_decoder)
                       ex_heap ex_tokens ex_encoder_out)
                    _ _ _ _ _ E) as [features Hf].
    exists y, st', features. split; [reflexivity | exact Hf].
Defined.

(** C4 as stated fails for [forward]: with a prediction layer whose weights
    and bias are 0 and a vocabulary of two entries, the vector returned for
    the decoding step is (0, 0); its exponentials sum to 2. *)
Lemma predictor_output_counterexample :
  exists y st',
    forward (eval_decoder ex_decoder) ex_heap ex_tokens ex_encoder_out
            (Some empty_state) (Some 3%Z) true = Ok (y, st') /\
    sumR (m2 y) (fun v => exp (at3 y 0 0 v)) = 2%R /\
    sumR (m2 y) (fun v => exp (at3 y 0 0 v)) <> 1%R.
Proof.
  pose proof ex_forward_returns as Hok.
  destruct (forward (eval_decoder ex_decoder) ex_heap ex_tokens
              ex_encoder_out (Some empty_state) (Some 3%Z) true)
    as [[y st']|e] eqn:E; [|discriminate Hok].
  exists y, st'. split; [reflexivity|].
  destruct (forward_returns_prediction _ _ _ _ _ _ _ _ _ E) as [f Hf].
  unfold linear3 in Hf. cbn [prediction eval_decoder ex_decoder in_features
                             out_features weight bias] in Hf.
  destruct (m2 f =? 2); [|discriminate Hf].
  injection Hf as <-. cbn [m2 at3].
  rewrite (sumR_ext 2 _ (fun _ => 1%R)).
  - simpl. split; lra.
  - intros v _. rewrite <- exp_0. f_equal. simpl. ring.
Qed.

(** ** The grid builder *)

Lemma nth_flat_map_uniform {A} (f : nat -> list A) (m : nat) (d : A) :
  (forall x, length (f x) = m) ->
  forall n s i r, i < n -> r < m ->
  nth (i * m + r) (flat_map f (seq s n)) d = nth r (f (s + i)) d.
Proof.
  intros Hlen. induction n as [|n IH]; intros s i r Hi Hr; [lia|].
  simpl. destruct i as [|i].
  - simpl. rewrite app_nth1 by (rewrite Hlen; lia).
    rewrite Nat.add_0_r. reflexivity.
  - rewrite app_nth2 by (rewrite Hlen; simpl; lia).
    rewrite Hlen. replace (S i * m + r - m) with (i * m + r) by (simpl; lia).
    rewrite IH by lia. f_equal. f_equal. lia.
Qed.

Lemma length_flat_map_uniform {A} (f : nat -> list A) (m : nat) :
  (forall x, length (f x) = m) ->
  forall n s, length (flat_map f (seq s n)) = n * m.
Proof.
  intros Hlen. induction n as [|n IH]; intros s; simpl; [reflexivity|].
  rewrite length_app, Hlen, IH. reflexivity.
Qed.

Lemma length_indices (sizes : list nat) :
  length (indices sizes) = prod sizes.
Proof.
  induction sizes as [|n rest IH]; simpl; [reflexivity|].
  rewrite (length_flat_map_uniform _ (prod rest)).
  - reflexivity.
  - intros x. rewrite length_map. exact IH.
Qed.

Lemma dot_contiguous_lt (sizes idx : list nat) :
  Forall2 lt idx sizes -> dot idx (contiguous sizes) < prod sizes.
Proof.
  intros H. induction H as [|i n idx sizes Hi H IH]; simpl; [lia|].
  nia.
Qed.

Lemma nth_indices (sizes idx : list nat) :
  Forall2 lt idx sizes ->
  nth (dot idx (contiguous sizes)) (indices sizes) [] = idx.
Proof.
  intros H. induction H as [|i n idx sizes Hi H IH]; simpl; [reflexivity|].
  rewrite (nth_flat_map_uniform _ (prod sizes)).
  - simpl.
    rewrite (nth_indep _ [] (i :: [])) by
      (rewrite length_map, length_indices; apply dot_contiguous_lt; exact H).
    rewrite (map_nth (cons i)). rewrite IH. reflexivity.
  - intros x. rewrite length_map. apply length_indices.
  - exact Hi.
  - apply dot_contiguous_lt. exact H.
Qed.

Lemma read_alloc (h : heap) (sizes : list nat) (f : list nat -> R)
  (idx : list nat) :
  Forall2 lt idx sizes ->
  read (snd (alloc h sizes f)) (fst (alloc h sizes f)) idx = f idx.
Proof.
  intros H. unfold read, alloc. simpl.
  rewrite app_nth2 by lia. rewrite Nat.sub_diag. simpl.
  rewrite (nth_indep _ 0%R (f [])) by
    (rewrite length_map, length_indices; apply dot_contiguous_lt; exact H).
  rewrite map_nth. rewrite nth_indices by exact H. reflexivity.
Qed.

Lemma read_after_alloc (h : heap) (sizes : list nat) (f : list nat -> R)
  (v : view) (idx : list nat) :
  v_store v < length h ->
  read (snd (alloc h sizes f)) v idx = read h v idx.
Proof.
  intros H. unfold read, alloc. simpl. rewrite app_nth1 by exact H.
  reflexivity.
Qed.

Lemma strides3 (l : list nat) :
  length l = 3 -> exists s0 s1 s2, l = [s0; s1; s2].
Proof.
  destruct l as [|s0 [|s1 [|s2 [|]]]]; simpl; intros H; try discriminate.
  eauto.
Qed.

Lemma expand_dims_keep (n s : nat) (sizes strides : list nat)
  (shape : list Z) (ns ss : list nat) :
  expand_dims sizes strides shape = Ok (ns, ss) ->
  expand_dims (n :: sizes) (s :: strides) ((-1)%Z :: shape)
  = Ok (n :: ns, s :: ss).
Proof. intros H. cbn [expand_dims]. rewrite H. reflexivity. Qed.

Lemma expand_dims_repeat (reps s : nat) (sizes strides : list nat)
  (shape : list Z) (ns ss : list nat) :
  expand_dims sizes strides shape = Ok (ns, ss) ->
  exists st,
    expand_dims (1 :: sizes) (s :: strides) (Z.of_nat reps :: shape)
    = Ok (reps :: ns, st :: ss) /\
    forall i, i < reps -> i * st = 0.
Proof.
  intros H. cbn [expand_dims]. rewrite H. cbn [bind].
  assert (Hneg : (Z.of_nat reps =? -1)%Z = false) by (apply Z.eqb_neq; lia).
  assert (Hlt : (Z.of_nat reps <? 0)%Z = false) by (apply Z.ltb_ge; lia).
  rewrite Hneg, Hlt.
  destruct (Z.eqb_spec (Z.of_nat 1) (Z.of_nat reps)) as [E|E].
  - exists s. replace reps with 1 by lia. split; [reflexivity|].
    intros i Hi. replace i with 0 by lia. reflexivity.
  - exists 0. rewrite Nat.eqb_refl, Nat2Z.id. split; [reflexivity|].
    intros i _. lia.
Qed.

(** [_expand(tensor, 1, reps)] of a rank-3 tensor repeats it along a new
    second axis. *)
Lemma _expand_1 (h : heap) (v : view) (B T C reps : nat) :
  v_sizes v = [B; T; C] -> length (v_strides v) = 3 ->
  exists e, _expand v 1 reps = Ok e /\
    v_sizes e = [B; reps; T; C] /\ v_store e = v_store v /\
    forall b i j c, i < reps -> read h e [b; i; j; c] = read h v [b; j; c].
Proof.
  intros Hs Hl. destruct (strides3 _ Hl) as [s0 [s1 [s2 Hst]]].
  unfold _expand, unsqueeze, ndim, expand. rewrite Hs, Hst.
  cbn [length Nat.leb bind v_sizes v_strides v_store firstn skipn app
       nth_error seq map Nat.eqb].
  destruct (expand_dims_repeat reps (T * s1) [T; C] [s1; s2]
              [(-1)%Z; (-1)%Z] [T; C] [s1; s2] eq_refl) as [st [He Hz]].
  rewrite (expand_dims_keep B s0 _ _ _ _ _ He). cbn [bind].
  eexists. split; [reflexivity|]. cbn [v_sizes v_store].
  repeat split.
  intros b i j c Hi. unfold read. cbn [v_strides v_store dot].
  rewrite Hst. cbn [dot]. rewrite (Hz i Hi). reflexivity.
Qed.

(** [_expand(tensor, 2, reps)] of a rank-3 tensor repeats it along a new
    third axis. *)
Lemma _expand_2 (h : heap) (v : view) (B T C reps : nat) :
  v_sizes v = [B; T; C] -> length (v_strides v) = 3 ->
  exists e, _expand v 2 reps = Ok e /\
    v_sizes e = [B; T; reps; C] /\ v_store e = v_store v /\
    forall b i j c, j < reps -> read h e [b; i; j; c] = read h v [b; i; c].
Proof.
  intros Hs Hl. destruct (strides3 _ Hl) as [s0 [s1 [s2 Hst]]].
  unfold _expand, unsqueeze, ndim, expand. rewrite Hs, Hst.
  cbn [length Nat.leb bind v_sizes v_strides v_store firstn skipn app
       nth_error seq map Nat.eqb].
  destruct (expand_dims_repeat reps (C * s2) [C] [s2]
              [(-1)%Z] [C] [s2] eq_refl) as [st [He Hz]].
  rewrite (expand_dims_keep B s0 _ _ _ _ _
             (expand_dims_keep T s1 _ _ _ _ _ He)). cbn [bind].
  eexists. split; [reflexivity|]. cbn [v_sizes v_store].
  repeat split.
  intros b i j c Hj. unfold read. cbn [v_strides v_store dot].
  rewrite Hst. cbn [dot]. rewrite (Hz j Hj). reflexivity.
Qed.

(** The grid builder on two rank-3 tensors: the concatenation of the two
    expanded views when the batch sizes agree, a shape error of [torch.cat]
    when they differ. *)
Lemma build_grid_rank3 (h : heap) (src tgt : view)
  (Bs Ts Cs Bt Tt Ct : nat) :
  v_sizes src = [Bs; Ts; Cs] -> length (v_strides src) = 3 ->
  v_sizes tgt = [Bt; Tt; Ct] -> length (v_strides tgt) = 3 ->
  exists es et,
    (forall b i j c, i < Tt -> read h es [b; i; j; c] = read h src [b; j; c])
    /\
    (forall b i j c, j < Ts -> read h et [b; i; j; c] = read h tgt [b; i; c])
    /\
    build_grid h src tgt =
    if Bs =? Bt then
      Ok (alloc h [Bs; Tt; Ts; Cs + Ct]
            (fun idx => if nth 3 idx 0 <? Cs then read h es idx
                        else read h et (shift_at 3 Cs idx)))
    else Raise RuntimeError.
Proof.
  intros Hs Hsl Ht Htl.
  destruct (_expand_1 h src Bs Ts Cs Tt Hs Hsl) as [es [Hes [Zes [_ Res]]]].
  destruct (_expand_2 h tgt Bt Tt Ct Ts Ht Htl) as [et [Het [Zet [_ Ret]]]].
  exists es, et. split; [exact Res|]. split; [exact Ret|].
  unfold build_grid, size. rewrite Hs, Ht. simpl.
  rewrite Hes. simpl. rewrite Het. simpl.
  unfold cat, ndim. rewrite Zes, Zet. simpl.
  destruct (Nat.eqb_spec Bs Bt) as [E|E]; [|reflexivity].
  rewrite !Nat.eqb_refl. simpl.
  destruct (list_eq_dec Nat.eq_dec [] []) as [_|N]; [|contradiction].
  reflexivity.
Qed.

(** What the grid builder returns and what it leaves in the store. *)
Lemma build_grid_reads (h : heap) (src tgt : view)
  (B Ts Tt Csrc Ctgt : nat) :
  v_sizes src = [B; Ts; Csrc] -> length (v_strides src) = 3 ->
  v_sizes tgt = [B; Tt; Ctgt] -> length (v_strides tgt) = 3 ->
  exists g h',
    build_grid h src tgt = Ok (g, h') /\
    v_sizes g = [B; Tt; Ts; Csrc + Ctgt] /\
    (forall b i j c, b < B -> i < Tt -> j < Ts -> c < Csrc + Ctgt ->
       read h' g [b; i; j; c] =
       if c <? Csrc then read h src [b; j; c]
       else read h tgt [b; i; c - Csrc]) /\
    (exists d, h' = h ++ [d]) /\
    (forall v idx, v_store v < length h -> read h' v idx = read h v idx).
Proof.
  intros Hs Hsl Ht Htl.
  destruct (build_grid_rank3 h src tgt B Ts Csrc B Tt Ctgt Hs Hsl Ht Htl)
    as [es [et [Res [Ret Hg]]]].
  rewrite Nat.eqb_refl in Hg.
  set (f := fun idx => if nth 3 idx 0 <? Csrc then read h es idx
                       else read h et (shift_at 3 Csrc idx)) in Hg.
  exists (fst (alloc h [B; Tt; Ts; Csrc + Ctgt] f)),
         (snd (alloc h [B; Tt; Ts; Csrc + Ctgt] f)).
  split; [rewrite Hg; reflexivity|].
  split; [reflexivity|]. split; [|split].
  - intros b i j c Hb Hi Hj Hc.
    rewrite read_alloc by (repeat constructor; assumption).
    unfold f. cbn [nth shift_at].
    destruct (c <? Csrc); [apply Res | apply Ret]; assumption.
  - eexists. reflexivity.
  - intros v idx Hv. apply read_after_alloc. exact Hv.
Qed.

(** C7. For a source sequence [B x Ts x Csrc] and a target sequence
    [B x Tt x Ctgt] the grid builder returns a new tensor of sizes
    [B x Tt x Ts x (Csrc + Ctgt)] whose vector at [(b, i, j)] is the source
    embedding at [(b, j)] followed by the target embedding at [(b, i)]. The
    store is only extended by the storage of the grid: every tensor that was
    in the store, the two inputs among them, reads as before. *)
Theorem build_grid_concatenates (h : heap) (src tgt : view)
  (B Ts Tt Csrc Ctgt : nat) :
  v_sizes src = [B; Ts; Csrc] -> length (v_strides src) = 3 ->
  v_sizes tgt = [B; Tt; Ctgt] -> length (v_strides tgt) = 3 ->
  exists g h',
    build_grid h src tgt = Ok (g, h') /\
    v_sizes g = [B; Tt; Ts; Csrc + Ctgt] /\
    (forall b i j c, b < B -> i < Tt -> j < Ts -> c < Csrc + Ctgt ->
       read h' g [b; i; j; c] =
       if c <? Csrc then read h src [b; j; c]
       else read h tgt [b; i; c - Csrc]) /\
    (exists d, h' = h ++ [d]) /\
    (forall v idx, v_store v < length h -> read h' v idx = read h v idx).
Proof. exact (build_grid_reads h src tgt B Ts Tt Csrc Ctgt). Qed.

Lemma build_grid_concatenates_witness :
  exists g h',
    build_grid ex_heap2 ex_encoder_states ex_target_emb = Ok (g, h') /\
    v_sizes g = [1; 2; 3; 2] /\
    read h' g [0; 1; 2; 0] = 3%R /\ read h' g [0; 1; 2; 1] = 5%R /\
    read h' ex_encoder_states [0; 2; 0] = 3%R /\
    read h' ex_target_emb [0; 1; 0] = 5%R.
Proof.
  destruct (build_grid_concatenates ex_heap2 ex_encoder_states ex_target_emb
              1 3 2 1 1 eq_refl eq_refl eq_refl eq_refl)
    as [g [h' [Hg [Hsz [Hread [_ Hold]]]]]].
  exists g, h'. split; [exact Hg|]. split; [exact Hsz|].
  rewrite (Hread 0 1 2 0) by lia. rewrite (Hread 0 1 2 1) by lia.
  rewrite !Hold by (simpl; lia).
  repeat split.
Defined.

(** C8, as amended. On a source sequence [Bs x Ts x Csrc] and a target
    sequence [Bt x Tt x Ctgt] the grid builder fails with the shape error of
    its [torch.cat] whenever the batch sizes differ (a batch of size 1 is not
    broadcast). When they agree it returns a grid of sizes
    [B x Tt x Ts x (Csrc + Ctgt)] for every [Ts] and [Tt]: for a sequence of
    length zero that grid has no element. *)
Theorem build_grid_batch_sizes (h : heap) (src tgt : view)
  (Bs Ts Csrc Bt Tt Ctgt : nat) :
  v_sizes src = [Bs; Ts; Csrc] -> length (v_strides src) = 3 ->
  v_sizes tgt = [Bt; Tt; Ctgt] -> length (v_strides tgt) = 3 ->
  (Bs <> Bt -> build_grid h src tgt = Raise RuntimeError) /\
  (Bs = Bt ->
   exists g h',
     build_grid h src tgt = Ok (g, h') /\
     v_sizes g = [Bs; Tt; Ts; Csrc + Ctgt] /\
     (Ts = 0 \/ Tt = 0 -> prod (v_sizes g) = 0)).
Proof.
  intros Hs Hsl Ht Htl.
  destruct (build_grid_rank3 h src tgt Bs Ts Csrc Bt Tt Ctgt Hs Hsl Ht Htl)
    as [es [et [_ [_ Hg]]]].
  split.
  - intros Hne. rewrite Hg.
    destruct (Nat.eqb_spec Bs Bt); [contradiction | reflexivity].
  - intros <-. rewrite Nat.eqb_refl in Hg. rewrite Hg.
    eexists. eexists. split; [reflexivity|]. split; [reflexivity|].
    cbn [v_sizes prod fold_right]. intros [-> | ->]; lia.
Qed.

Lemma build_grid_batch_sizes_witness :
  build_grid ex_heap2 ex_encoder_states ex_target_emb_batch2
  = Raise RuntimeError /\
  exists g h',
    build_grid ex_heap2 ex_empty_source ex_target_emb = Ok (g, h') /\
    v_sizes g = [1; 2; 0; 2] /\ prod (v_sizes g) = 0.
Proof.
  split.
  - apply (proj1 (build_grid_batch_sizes ex_heap2 ex_encoder_states
                    ex_target_emb_batch2 1 3 1 2 1 1
                    eq_refl eq_refl eq_refl eq_refl)).
    lia.
  - destruct (proj2 (build_grid_batch_sizes ex_heap2 ex_empty_source
                       ex_target_emb 1 0 1 1 2 1
                       eq_refl eq_refl eq_refl eq_refl) eq_refl)
      as [g [h' [Hg [Hsz Hempty]]]].
    exists g, h'. split; [exact Hg|]. split; [exact Hsz|].
    apply Hempty. left. reflexivity.
Defined.

(** C8 as stated fails: for a source sequence of length zero the grid
    builder raises nothing and returns a [1 x 2 x 0 x 2] grid. *)
Lemma build_grid_zero_length_counterexample :
  size ex_empty_source 1 = Ok 0 /\
  exists g h',
    build_grid ex_heap2 ex_empty_source ex_target_emb = Ok (g, h') /\
    v_sizes g = [1; 2; 0; 2].
Proof.
  split; [reflexivity|].
  eexists. eexists. split; reflexivity.
Qed.

(** ** Incremental decoding and causality *)

Lemma mconv_full_ok (mc : MaskedConvolution) (x : tensor4) :
  wf_conv mc (n3 x) -> n1 x = mc_in mc -> 1 <= n2 x ->
  mconv_full mc x = Ok (T4 (n0 x) (mc_out mc) (n2 x) (n3 x) (mconv_at mc x)).
Proof.
  intros (Hk & Hdt & Hds & Hs & Hpt & Hps & Hres & Hsrc & Hlen & _) Hc HT.
  unfold mconv_full.
  destruct (mc_padding mc) as [pt ps]. destruct (mc_dilation mc) as [dt ds].
  cbn [fst snd] in *.
  rewrite Hc, Nat.eqb_refl. cbn [andb].
  replace ((1 <=? mc_kernel mc)%Z) with true by (symmetry; apply Z.leb_le; lia).
  replace ((1 <=? dt)%Z) with true by (symmetry; apply Z.leb_le; lia).
  replace ((1 <=? ds)%Z) with true by (symmetry; apply Z.leb_le; lia).
  replace ((1 <=? mc_stride mc)%Z) with true by (symmetry; apply Z.leb_le; lia).
  replace ((0 <=? pt)%Z) with true by (symmetry; apply Z.leb_le; lia).
  replace ((0 <=? ps)%Z) with true by (symmetry; apply Z.leb_le; lia).
  replace ((0 <=? Z.of_nat (n2 x) + 2 * pt - dt * (mc_kernel mc - 1) - 1)%Z)
    with true by (symmetry; apply Z.leb_le; lia).
  replace ((0 <=? Z.of_nat (n3 x) + 2 * ps - ds * (mc_kernel mc - 1) - 1)%Z)
    with true by (symmetry; apply Z.leb_le; lia).
  cbn [andb]. rewrite Hlen.
  replace (conv_out_len (Z.of_nat (n2 x)) pt dt (mc_kernel mc) 1)
    with (Z.of_nat (n2 x)).
  - rewrite !Nat2Z.id. reflexivity.
  - unfold conv_out_len. rewrite Z.div_1_r. lia.
Qed.

(** An output element of the masked convolution reads the input rows from
    [i - padding] to [i] only. *)
Lemma mconv_at_window (mc : MaskedConvolution) (x x' : tensor4)
  (b o i i' j : nat) :
  (0 <= fst (mc_dilation mc))%Z ->
  (forall c d jz, c < mc_in mc -> (0 <= d <= fst (mc_padding mc))%Z ->
     padded x b c (Z.of_nat i - d) jz = padded x' b c (Z.of_nat i' - d) jz) ->
  mconv_at mc x b o i j = mconv_at mc x' b o i' j.
Proof.
  intros Hdt H. unfold mconv_at. f_equal.
  apply sumR_ext. intros c Hc.
  apply sumR_ext. intros ka _.
  apply sumR_ext. intros kb _.
  destruct (tap_allowed mc ka kb) eqn:Htap; [|reflexivity].
  f_equal.
  unfold tap_allowed in Htap. apply andb_prop in Htap. destruct Htap as [Ht _].
  apply Z.leb_le in Ht.
  set (d := (fst (mc_padding mc) - Z.of_nat ka * fst (mc_dilation mc))%Z).
  replace (Z.of_nat i + Z.of_nat ka * fst (mc_dilation mc)
           - fst (mc_padding mc))%Z with (Z.of_nat i - d)%Z by (unfold d; lia).
  replace (Z.of_nat i' + Z.of_nat ka * fst (mc_dilation mc)
           - fst (mc_padding mc))%Z with (Z.of_nat i' - d)%Z by (unfold d; lia).
  apply H; [exact Hc|]. unfold d. nia.
Qed.

Lemma bidx_id (n i : nat) : i < n -> bidx n i = i.
Proof.
  intros H. unfold bidx. destruct (Nat.eqb_spec n 1); [lia | reflexivity].
Qed.

Lemma bdim_same (n : nat) : bdim n n = Ok n.
Proof. unfold bdim. rewrite Nat.eqb_refl. reflexivity. Qed.

Lemma scaled_add_same (s : R) (x y : tensor4) :
  n0 x = n0 y -> n1 x = n1 y -> n2 x = n2 y -> n3 x = n3 y ->
  exists z, scaled_add s x y = Ok z /\
    n0 z = n0 x /\ n1 z = n1 x /\ n2 z = n2 x /\ n3 z = n3 x /\
    forall a b c d, a < n0 x -> b < n1 x -> c < n2 x -> d < n3 x ->
      at4 z a b c d = (s * (at4 x a b c d + at4 y a b c d))%R.
Proof.
  intros H0 H1 H2 H3. unfold scaled_add.
  rewrite <- H0, <- H1, <- H2, <- H3, !bdim_same. cbn [bind].
  eexists. split; [reflexivity|]. cbn [n0 n1 n2 n3 at4]. repeat split.
  intros a b c d Ha Hb Hc Hd. rewrite !bidx_id by assumption. reflexivity.
Qed.

Lemma truthy_dropout_eval (l : _ResLayer) (noise : tensor4 -> tensor4)
  (x : tensor4) :
  training l = false ->
  (if truthy (drop_rate l) then F_dropout (training l) noise x else x) = x.
Proof.
  intros H. rewrite H. destruct (truthy (drop_rate l)); reflexivity.
Qed.

Lemma ffn_point_ext (l : _ResLayer) (u u' : nat -> R) (c : nat) :
  (forall c', c' < in_features (fc1 l) -> u c' = u' c') ->
  c < in_features (fc1 l) ->
  ffn_point l u c = ffn_point l u' c.
Proof.
  intros H Hc. unfold ffn_point. rewrite (H c Hc). f_equal. f_equal. f_equal.
  apply sumR_ext. intros m _. f_equal. f_equal. f_equal.
  apply sumR_ext. intros c' Hc'. rewrite (H c' Hc'). reflexivity.
Qed.

(** The second half of a layer outside training: sizes and elements. *)
Lemma residual_ffn_eval (l : _ResLayer) (z x : tensor4) (C S : nat) :
  wf_layer C S l ->
  n0 z = n0 x -> n1 z = C -> n2 z = n1 x -> n3 z = n2 x -> n3 x = C ->
  exists y, residual_ffn l z x = Ok y /\
    n0 y = n0 x /\ n1 y = n1 x /\ n2 y = n2 x /\ n3 y = n3 x /\
    forall b i j c, b < n0 x -> i < n1 x -> j < n2 x -> c < n3 x ->
      at4 y b i j c =
      ffn_point l (fun c' => (scale l * (at4 z b c' i j + at4 x b i j c'))%R) c.
Proof.
  intros (Htr & _ & _ & _ & Hf1 & Hf12 & Hf2 & _) Z0 Z1 Z2 Z3 X3.
  unfold residual_ffn. rewrite !truthy_dropout_eval by exact Htr.
  destruct (scaled_add_same (scale l) (permute_0231 z) x)
    as [u [Hu [U0 [U1 [U2 [U3 Uat]]]]]]; cbn [permute_0231 n0 n1 n2 n3];
    try congruence.
  rewrite Hu. cbn [bind].
  cbn [permute_0231 n0 n1 n2 n3 at4] in *.
  unfold linear at 1. replace (n3 u =? in_features (fc1 l)) with true
    by (symmetry; apply Nat.eqb_eq; congruence).
  cbn [bind]. unfold linear at 1. cbn [relu4 n3].
  replace (out_features (fc1 l) =? in_features (fc2 l)) with true
    by (symmetry; apply Nat.eqb_eq; congruence).
  cbn [bind]. rewrite truthy_dropout_eval by exact Htr.
  match goal with
  | |- exists y, scaled_add ?s ?a ?b = Ok y /\ _ =>
      destruct (scaled_add_same s a b) as [y [Hy [Y0 [Y1 [Y2 [Y3 Yat]]]]]]
  end; cbn [n0 n1 n2 n3 relu4]; try congruence.
  cbn [n0 n1 n2 n3 at4 relu4] in *.
  exists y. split; [exact Hy|].
  repeat split; try congruence.
  intros b i j c Hb Hi Hj Hc.
  rewrite Yat by lia. rewrite Uat by lia.
  unfold ffn_point. f_equal. f_equal. f_equal.
  apply sumR_ext. intros m _. f_equal. f_equal. f_equal.
  apply sumR_ext. intros c' Hc'. rewrite Uat by lia. reflexivity.
Qed.

Lemma padded_eq (x x' : tensor4) (b c : nat) (iz iz' jz : Z) :
  n3 x = n3 x' ->
  ((iz < 0)%Z /\ (iz' < 0)%Z) \/
  ((0 <= iz < Z.of_nat (n2 x))%Z /\ (0 <= iz' < Z.of_nat (n2 x'))%Z /\
   forall j, j < n3 x ->
     at4 x b c (Z.to_nat iz) j = at4 x' b c (Z.to_nat iz') j) ->
  padded x b c iz jz = padded x' b c iz' jz.
Proof.
  intros H3 H. unfold padded. rewrite <- H3.
  destruct H as [[Hi Hi'] | [Hi [Hi' Hat]]].
  - replace (0 <=? iz)%Z with false by (symmetry; apply Z.leb_gt; lia).
    replace (0 <=? iz')%Z with false by (symmetry; apply Z.leb_gt; lia).
    reflexivity.
  - replace (0 <=? iz)%Z with true by (symmetry; apply Z.leb_le; lia).
    replace (0 <=? iz')%Z with true by (symmetry; apply Z.leb_le; lia).
    replace (iz <? Z.of_nat (n2 x))%Z with true
      by (symmetry; apply Z.ltb_lt; lia).
    replace (iz' <? Z.of_nat (n2 x'))%Z with true
      by (symmetry; apply Z.ltb_lt; lia).
    cbn [andb].
    destruct (Z.leb_spec 0 jz) as [Hj|Hj]; [|reflexivity].
    destruct (Z.ltb_spec jz (Z.of_nat (n3 x))) as [Hj'|Hj']; [|reflexivity].
    cbn [andb]. apply Hat. lia.
Qed.

(** A step of the cached convolution on row [k] of [Y], with the cache
    holding the rows of [Y] before [k], returns row [k] of the convolution of
    [Y] and leaves the cache ready for row [k + 1]. *)
Lemma mconv_step (mc : MaskedConvolution) (Y y1 : tensor4) (k : nat)
  (slot : cache) :
  wf_conv mc (n3 Y) -> n1 Y = mc_in mc -> k < n2 Y ->
  n0 y1 = n0 Y -> n1 y1 = n1 Y -> n2 y1 = 1 -> n3 y1 = n3 Y ->
  (forall b m j, b < n0 Y -> m < n1 Y -> j < n3 Y ->
                 at4 y1 b m 0 j = at4 Y b m k j) ->
  cache_inv (mc_history mc) Y k slot ->
  exists z slot',
    MaskedConvolution_forward mc y1 (Some slot) = Ok (z, Some slot') /\
    n0 z = n0 Y /\ n1 z = mc_out mc /\ n2 z = 1 /\ n3 z = n3 Y /\
    (forall b o j, b < n0 Y -> j < n3 Y ->
                   at4 z b o 0 j = mconv_at mc Y b o k j) /\
    cache_inv (mc_history mc) Y (S k) slot'.
Proof.
  intros Hwf Hin Hk D0 D1 D2 D3 Hrow Hinv.
  set (hist := mc_history mc) in *.
  set (m := Nat.min hist k).
  (* the rows that are convolved *)
  assert (Hxs : exists xs,
    match slot with None => Ok y1 | Some rows => cat_rows rows y1 end = Ok xs
    /\ n0 xs = n0 Y /\ n1 xs = n1 Y /\ n2 xs = m + 1 /\ n3 xs = n3 Y /\
    forall b c i j, b < n0 Y -> c < n1 Y -> i < m + 1 -> j < n3 Y ->
      at4 xs b c i j = at4 Y b c (k - m + i) j).
  { destruct slot as [rows|]; cbn [cache_inv] in Hinv.
    - destruct Hinv as (Hk1 & R0 & R1 & R2 & R3 & Rat).
      unfold cat_rows.
      replace (n0 rows =? n0 y1) with true by (symmetry; apply Nat.eqb_eq; lia).
      replace (n1 rows =? n1 y1) with true by (symmetry; apply Nat.eqb_eq; lia).
      replace (n3 rows =? n3 y1) with true by (symmetry; apply Nat.eqb_eq; lia).
      cbn [andb]. eexists. split; [reflexivity|].
      cbn [n0 n1 n2 n3 at4]. fold m in R2, Rat.
      split; [lia|]. split; [lia|]. split; [lia|]. split; [lia|].
      intros b c i j Hb Hc Hi Hj. rewrite R2.
      destruct (Nat.ltb_spec i m) as [Him|Him].
      + apply Rat; assumption.
      + replace (i - m) with 0 by lia. rewrite Hrow by assumption.
        f_equal. lia.
    - subst k. exists y1. split; [reflexivity|].
      unfold m. rewrite Nat.min_0_r.
      split; [lia|]. split; [lia|]. split; [lia|]. split; [lia|].
      intros b c i j Hb Hc Hi Hj. replace i with 0 by lia.
      apply Hrow; assumption. }
  destruct Hxs as (xs & Hcat & X0 & X1 & X2 & X3 & Xat).
  unfold MaskedConvolution_forward. rewrite Hcat. cbn [bind].
  rewrite mconv_full_ok; [| rewrite X3; exact Hwf | congruence | lia].
  cbn [bind]. eexists. eexists. split; [reflexivity|].
  unfold last_rows. cbn [n0 n1 n2 n3 at4]. rewrite D2, X2.
  destruct Hwf
    as (Hker & Hdt & Hds & Hst & Hpt & Hps & Hres & Hsrc & Hlen & Hh).
  fold hist in Hh.
  split; [exact X0|]. split; [reflexivity|].
  split; [lia|]. split; [exact X3|]. split.
  - intros b o j Hb Hj.
    replace (0 + (m + 1 - Nat.min 1 (m + 1))) with m by lia.
    apply mconv_at_window; [lia|].
    intros c d jz Hc Hd. apply padded_eq; [congruence|].
    destruct (Z_lt_le_dec (Z.of_nat m) d) as [Hbig|Hsmall].
    + left. split; [lia|]. unfold m in *. lia.
    + right. rewrite X2. split; [lia|]. split; [unfold m in *; lia|].
      intros j' Hj'. rewrite Xat; try lia.
      f_equal. unfold m in *. lia.
  - cbn [cache_inv n0 n1 n2 n3 at4].
    split; [lia|]. split; [exact X0|]. split; [exact X1|].
    split; [unfold m; lia|]. split; [exact X3|].
    intros b c i j Hb Hc Hi Hj.
    rewrite Xat; try assumption; [| unfold m in *; lia].
    f_equal. unfold m in *. lia.
Qed.

Lemma conv1_permuted (l : _ResLayer) (x : tensor4) :
  n3 x = c_in (conv1 l) -> 1 <= n1 x -> 1 <= n2 x ->
  conv1x1 (conv1 l) (permute_0312 x) = Ok (conv1_val l x).
Proof.
  intros H H1 H2. unfold conv1x1, permute_0312, conv1_val.
  cbn [n0 n1 n2 n3 at4]. rewrite H, Nat.eqb_refl.
  destruct (Nat.eqb_spec (n1 x) 0) as [E|_]; [lia|].
  destruct (Nat.eqb_spec (n2 x) 0) as [E|_]; [lia|].
  reflexivity.
Qed.

(** A layer outside training, on a whole grid. *)
Lemma layer_full_eval (l : _ResLayer) (key : nat) (X : tensor4)
  (em dm : option mask2) (C S : nat) :
  wf_layer C S l -> n2 X = S -> n3 X = C -> 1 <= n1 X -> 1 <= S ->
  exists Y,
    _ResLayer_forward l key X em dm None = Ok (Y, None) /\
    n0 Y = n0 X /\ n1 Y = n1 X /\ n2 Y = n2 X /\ n3 Y = n3 X /\
    forall b i j c, b < n0 X -> i < n1 X -> j < n2 X -> c < n3 X ->
      at4 Y b i j c = layer_point l X b i j c.
Proof.
  intros Hwf HS HC HT HS1.
  pose proof Hwf as (Htr & Hc1 & Hc12 & Hout & _ & _ & _ & Hconv).
  unfold _ResLayer_forward, conv_activations.
  rewrite conv1_permuted by (try congruence; lia). cbn [bind option_map].
  unfold MaskedConvolution_forward.
  rewrite mconv_full_ok;
    [| cbn [conv1_val n3]; rewrite HS; exact Hconv
     | cbn [conv1_val n1]; congruence
     | cbn [conv1_val n2]; exact HT].
  cbn [bind]. rewrite Htr. cbn [zero_padding_positions bind].
  cbn [conv1_val n0 n1 n2 n3].
  match goal with
  | |- context [residual_ffn l ?z X] =>
      destruct (residual_ffn_eval l z X C S Hwf)
        as [Y [HY [Y0 [Y1 [Y2 [Y3 Yat]]]]]]
  end; cbn [n0 n1 n2 n3]; try congruence.
  rewrite HY. cbn [bind]. exists Y. split; [reflexivity|].
  repeat split; try assumption.
Qed.

(** A layer outside training, on row [k] of a grid, with the cache holding
    the rows before [k]. *)
Lemma layer_step_eval (l : _ResLayer) (key : nat) (X r : tensor4) (k : nat)
  (em dm : option mask2) (st : inc_state) (C Ts : nat) :
  wf_layer C Ts l -> n2 X = Ts -> n3 X = C -> k < n1 X -> 1 <= Ts ->
  row_of r X k ->
  cache_inv (mc_history (mconv2 l)) (conv1_val l X) k (st key) ->
  exists y slot',
    _ResLayer_forward l key r em dm (Some st)
    = Ok (y, Some (set_slot st key slot')) /\
    n0 y = n0 X /\ n1 y = 1 /\ n2 y = n2 X /\ n3 y = n3 X /\
    (forall b j c, b < n0 X -> j < n2 X -> c < n3 X ->
       at4 y b 0 j c = layer_point l X b k j c) /\
    cache_inv (mc_history (mconv2 l)) (conv1_val l X) (S k) slot'.
Proof.
  intros Hwf HS HC Hk HS1 (R0 & R1 & R2 & R3 & Rat) Hinv.
  pose proof Hwf as (Htr & Hc1 & Hc12 & Hout & Hf1 & _ & _ & Hconv).
  unfold _ResLayer_forward, conv_activations.
  rewrite conv1_permuted by (try congruence; lia). cbn [bind option_map].
  destruct (mconv_step (mconv2 l) (conv1_val l X) (conv1_val l r) k (st key))
    as (z & slot' & Hz & Z0 & Z1 & Z2 & Z3 & Zat & Hinv');
    cbn [conv1_val n0 n1 n2 n3 at4]; try congruence; try assumption.
  - intros b m j Hb Hm Hj. apply sumR_ext. intros c Hc.
    rewrite Rat by lia. reflexivity.
  - rewrite Hz. cbn [bind]. rewrite Htr. cbn [zero_padding_positions bind].
    cbn [conv1_val n0 n1 n2 n3] in Z0, Z1, Z2, Z3, Zat.
    destruct (residual_ffn_eval l z r C Ts Hwf)
      as [y [Hy [Y0 [Y1 [Y2 [Y3 Yat]]]]]]; try congruence.
    rewrite Hy. cbn [bind]. exists y, slot'. split; [reflexivity|].
    split; [congruence|]. split; [congruence|]. split; [congruence|].
    split; [congruence|]. split; [|exact Hinv'].
    intros b j c Hb Hj Hc. rewrite Yat by lia.
    unfold layer_point. apply ffn_point_ext; [|lia].
    intros c' Hc'. rewrite Zat by lia. rewrite Rat by lia. reflexivity.
Qed.

Lemma agree_rows_refl (X : tensor4) : agree_rows (n1 X) X X.
Proof. unfold agree_rows. repeat split; lia. Qed.

Lemma agree_rows_sym (n : nat) (X X' : tensor4) :
  agree_rows n X X' -> agree_rows n X' X.
Proof.
  intros (H0 & H2 & H3 & Hn & Hn' & Hat). unfold agree_rows.
  repeat split; try congruence; try lia.
  intros b i j c Hb Hi Hj Hc. symmetry. apply Hat; congruence.
Qed.

Lemma agree_rows_trans (n : nat) (X X' X'' : tensor4) :
  agree_rows n X X' -> agree_rows n X' X'' -> agree_rows n X X''.
Proof.
  intros (H0 & H2 & H3 & Hn & Hn' & Hat) (G0 & G2 & G3 & Gn & Gn' & Gat).
  unfold agree_rows. repeat split; try congruence; try lia.
  intros b i j c Hb Hi Hj Hc. rewrite Hat by assumption.
  apply Gat; congruence.
Qed.

Lemma agree_rows_le (n n' : nat) (X X' : tensor4) :
  n' <= n -> agree_rows n X X' -> agree_rows n' X X'.
Proof.
  intros Hle (H0 & H2 & H3 & Hn & Hn' & Hat). unfold agree_rows.
  repeat split; try congruence; try lia.
  intros b i j c Hb Hi Hj Hc. apply Hat; try assumption. lia.
Qed.

(** Causality of one layer: an output row depends on the input rows up to
    it only. *)
Lemma layer_point_causal (l : _ResLayer) (X X' : tensor4) (C Ts n : nat)
  (b i j c : nat) :
  wf_layer C Ts l -> n3 X = C -> agree_rows n X X' ->
  b < n0 X -> i < n -> j < n2 X -> c < C ->
  layer_point l X b i j c = layer_point l X' b i j c.
Proof.
  intros (Htr & Hc1 & Hc12 & Hout & Hf1 & _ & _ & Hconv) HC
         (H0 & H2 & H3 & Hn & Hn' & Hat) Hb Hi Hj Hc.
  destruct Hconv as (Hker & Hdt & _).
  unfold layer_point. apply ffn_point_ext; [|lia].
  intros c' Hc'. f_equal. f_equal.
  - apply mconv_at_window; [lia|].
    intros m d jz Hm Hd. apply padded_eq; [cbn [conv1_val n3]; exact H2|].
    destruct (Z_lt_le_dec (Z.of_nat i) d) as [Hbig|Hsmall].
    + left. lia.
    + right. cbn [conv1_val n2 n3 at4].
      split; [lia|]. split; [lia|].
      intros j' Hj'. apply sumR_ext. intros c0 Hc0.
      rewrite Hat; try assumption; try lia. reflexivity.
  - apply Hat; try assumption. lia.
Qed.

Lemma layer_val_causal (l : _ResLayer) (X X' : tensor4) (C Ts n : nat) :
  wf_layer C Ts l -> n3 X = C -> agree_rows n X X' ->
  agree_rows n (layer_val l X) (layer_val l X').
Proof.
  intros Hwf HC Hag. pose proof Hag as (H0 & H2 & H3 & Hn & Hn' & Hat).
  unfold agree_rows, layer_val. cbn [n0 n1 n2 n3 at4].
  repeat split; try assumption.
  intros b i j c Hb Hi Hj Hc.
  apply (layer_point_causal l X X' C Ts n); try assumption. lia.
Qed.

Lemma blocks_val_dims (blocks : list _ResLayer) (X : tensor4) :
  n0 (blocks_val blocks X) = n0 X /\ n1 (blocks_val blocks X) = n1 X /\
  n2 (blocks_val blocks X) = n2 X /\ n3 (blocks_val blocks X) = n3 X.
Proof.
  revert X. induction blocks as [|l rest IH]; intros X; cbn [blocks_val].
  - repeat split.
  - destruct (IH (layer_val l X)) as (A0 & A1 & A2 & A3).
    cbn [layer_val n0 n1 n2 n3] in *. repeat split; assumption.
Qed.

(** Causality of the stack. *)
Lemma blocks_val_causal (blocks : list _ResLayer) (X X' : tensor4)
  (C Ts n : nat) :
  Forall (wf_layer C Ts) blocks -> n3 X = C -> agree_rows n X X' ->
  agree_rows n (blocks_val blocks X) (blocks_val blocks X').
Proof.
  intros Hwf. revert X X'.
  induction Hwf as [|l rest Hl Hrest IH]; intros X X' HC Hag;
    cbn [blocks_val].
  - exact Hag.
  - apply IH; [exact HC|].
    apply (layer_val_causal l X X' C Ts n); assumption.
Qed.

(** The non-cached pass over a whole grid computes [blocks_val]. *)
Lemma blocks_full_eval (blocks : list _ResLayer) (key : nat) (X : tensor4)
  (em dm : option mask2) (C Ts : nat) :
  1 <= Ts ->
  Forall (wf_layer C Ts) blocks -> n2 X = Ts -> n3 X = C -> 1 <= n1 X ->
  exists Y,
    run_blocks blocks key X em dm None = Ok (Y, None) /\
    n1 Y = n1 X /\ agree_rows (n1 X) Y (blocks_val blocks X).
Proof.
  intros HS1 Hwf. revert key X.
  induction Hwf as [|l rest Hl Hrest IH]; intros key X HS HC HT;
    cbn [run_blocks blocks_val].
  - exists X. split; [reflexivity|]. split; [reflexivity|].
    apply agree_rows_refl.
  - destruct (layer_full_eval l key X em dm C Ts Hl HS HC HT HS1)
      as (Y1 & HY1 & A0 & A1 & A2 & A3 & Aat).
    rewrite HY1. cbn [bind].
    destruct (IH (S key) Y1) as (Y & HY & B1 & Bag); try congruence; try lia.
    exists Y. split; [exact HY|]. split; [congruence|].
    rewrite A1 in Bag.
    apply (agree_rows_trans _ _ _ _ Bag).
    apply (blocks_val_causal rest Y1 (layer_val l X) C Ts (n1 X) Hrest);
      [congruence|].
    unfold agree_rows, layer_val. cbn [n0 n1 n2 n3 at4].
    repeat split; try congruence; try lia.
    intros b i j c Hb Hi Hj Hc. apply Aat; congruence.
Qed.

Lemma stack_inv_ext (blocks : list _ResLayer) (key : nat) (X : tensor4)
  (st st' : inc_state) (k : nat) :
  (forall key', key <= key' -> st' key' = st key') ->
  stack_inv blocks key X st k -> stack_inv blocks key X st' k.
Proof.
  revert key X. induction blocks as [|l rest IH]; intros key X Hst Hinv;
    cbn [stack_inv] in *; [exact I|].
  destruct Hinv as [Hc Hrest]. split.
  - rewrite Hst by lia. exact Hc.
  - apply IH; [|exact Hrest]. intros key' Hk. apply Hst. lia.
Qed.

Lemma stack_inv_empty (blocks : list _ResLayer) (key : nat) (X : tensor4) :
  stack_inv blocks key X empty_state 0.
Proof.
  revert key X. induction blocks as [|l rest IH]; intros key X;
    cbn [stack_inv]; [exact I|].
  split; [reflexivity | apply IH].
Qed.

(** One cached step of the stack on row [k] of a grid. *)
Lemma blocks_step (blocks : list _ResLayer) (key : nat) (X r : tensor4)
  (k : nat) (em dm : option mask2) (st : inc_state) (C Ts : nat) :
  1 <= Ts ->
  Forall (wf_layer C Ts) blocks -> n2 X = Ts -> n3 X = C -> k < n1 X ->
  row_of r X k -> stack_inv blocks key X st k ->
  exists y st',
    run_blocks blocks key r em dm (Some st) = Ok (y, Some st') /\
    row_of y (blocks_val blocks X) k /\
    stack_inv blocks key X st' (S k) /\
    forall key', key' < key -> st' key' = st key'.
Proof.
  intros HS1 Hwf. revert key X r st.
  induction Hwf as [|l rest Hl Hrest IH]; intros key X r st HS HC Hk Hrow Hinv;
    cbn [run_blocks blocks_val stack_inv] in *.
  - exists r, st. split; [reflexivity|]. split; [exact Hrow|].
    split; [exact I|]. reflexivity.
  - destruct Hinv as [Hc Hinv].
    destruct (layer_step_eval l key X r k em dm st C Ts Hl HS HC Hk HS1 Hrow
                Hc)
      as (y1 & slot' & Hy1 & A0 & A1 & A2 & A3 & Aat & Hc').
    rewrite Hy1. cbn [bind].
    destruct (IH (S key) (layer_val l X) y1 (set_slot st key slot'))
      as (y & st' & Hy & Hrow' & Hinv' & Hold);
      cbn [layer_val n0 n1 n2 n3 at4]; try assumption.
    + unfold row_of, layer_val. cbn [n0 n1 n2 n3 at4].
      repeat split; try assumption.
    + apply (stack_inv_ext rest (S key) _ st); [|exact Hinv].
      intros key' Hk'. unfold set_slot.
      destruct (Nat.eqb_spec key' key); [lia | reflexivity].
    + exists y, st'. split; [exact Hy|]. split; [exact Hrow'|]. split.
      * split; [|exact Hinv'].
        rewrite Hold by lia. unfold set_slot. rewrite Nat.eqb_refl.
        exact Hc'.
      * intros key' Hk'. rewrite Hold by lia. unfold set_slot.
        destruct (Nat.eqb_spec key' key); [lia | reflexivity].
Qed.

Lemma slice_context_eval (v : view) (B Ts ds : nat) (c : Z) :
  v_sizes v = [B; Ts; ds] ->
  slice_context v c
  = Ok (View (v_store v) [B; slice_stop Ts c; ds] (v_strides v)).
Proof. intros H. unfold slice_context. rewrite H. reflexivity. Qed.

Lemma input_grid_eval (self : Attn2dDecoder) (h : heap) (src : view)
  (E : tensor3) (B Ts ds : nat) :
  dec_training self = false ->
  v_sizes src = [B; Ts; ds] -> length (v_strides src) = 3 ->
  v_store src < length h -> m0 E = B ->
  exists G,
    input_grid self h src E = Ok G /\
    n0 G = B /\ n1 G = m1 E /\ n2 G = Ts /\ n3 G = ds + m2 E /\
    forall b i j c, b < B -> i < m1 E -> j < Ts -> c < ds + m2 E ->
      at4 G b i j c =
      if c <? ds then read h src [b; j; c] else at3 E b i (c - ds).
Proof.
  intros Htr Hs Hsl Hst HB. unfold input_grid, store3.
  set (f := fun idx => at3 E (nth 0 idx 0) (nth 1 idx 0) (nth 2 idx 0)).
  destruct (alloc h [m0 E; m1 E; m2 E] f) as [tgt h1] eqn:Ealloc.
  assert (Htgt : tgt = fst (alloc h [m0 E; m1 E; m2 E] f))
    by (rewrite Ealloc; reflexivity).
  assert (Hh1 : h1 = snd (alloc h [m0 E; m1 E; m2 E] f))
    by (rewrite Ealloc; reflexivity).
  destruct (build_grid_reads h1 src tgt B Ts (m1 E) ds (m2 E))
    as (g & h2 & Hg & Hsz & Hread & _ & _).
  - exact Hs.
  - exact Hsl.
  - rewrite Htgt. cbn [alloc fst v_sizes]. rewrite HB. reflexivity.
  - rewrite Htgt. reflexivity.
  - rewrite Hg. cbn [bind]. unfold tensor4_of. rewrite Hsz. cbn [bind].
    rewrite Htr. cbn [nn_dropout].
    eexists. split; [reflexivity|]. cbn [n0 n1 n2 n3 at4].
    repeat split.
    intros b i j c Hb Hi Hj Hc. rewrite Hread by assumption.
    destruct (Nat.ltb_spec c ds) as [Hlt|Hge].
    + rewrite Hh1. apply read_after_alloc. exact Hst.
    + rewrite Htgt, Hh1. rewrite read_alloc.
      * reflexivity.
      * repeat constructor; lia.
Qed.

Lemma embed_target_eval (self : Attn2dDecoder) (t : tokens2) :
  dec_training self = false -> in_vocabulary self t ->
  embed_target self t None
  = Ok (scale3 (embed_scale self)
          (T3 (t0 t) (t1 t) (embedding_dim (embed_tokens self))
              (fun b i c => emb_weight (embed_tokens self) (tok t b i) c))).
Proof.
  intros Htr Hv. unfold embed_target.
  rewrite embedding_in_vocabulary by exact Hv.
  cbn [bind]. rewrite Htr. reflexivity.
Qed.

Lemma ResNet6_forward_reduce (n : ResNet6) (x : tensor4)
  (em dm : option mask2) (st : option inc_state) (C0 C : nat) :
  match reduce_channels n with
  | Some l => in_features l = C0 /\ out_features l = C
  | None => C0 = C
  end ->
  n3 x = C0 ->
  ResNet6_forward n x em dm st
  = run_blocks (residual_blocks n) 0 (reduce_val n x) em dm st /\
  n0 (reduce_val n x) = n0 x /\ n1 (reduce_val n x) = n1 x /\
  n2 (reduce_val n x) = n2 x /\ n3 (reduce_val n x) = C.
Proof.
  intros Hr Hx. unfold ResNet6_forward, reduce_val.
  destruct (reduce_channels n) as [l|].
  - destruct Hr as [Hin Hout]. unfold linear.
    replace (n3 x =? in_features l) with true
      by (symmetry; apply Nat.eqb_eq; congruence).
    cbn [bind n0 n1 n2 n3]. repeat split. exact Hout.
  - cbn [bind]. repeat split. congruence.
Qed.

Lemma reduce_val_agree (n : ResNet6) (x x' : tensor4) (k : nat) :
  agree_rows k x x' ->
  match reduce_channels n with
  | Some l => in_features l = n3 x
  | None => True
  end ->
  agree_rows k (reduce_val n x) (reduce_val n x').
Proof.
  intros (H0 & H2 & H3 & Hk & Hk' & Hat) Hr. unfold reduce_val.
  destruct (reduce_channels n) as [l|].
  - unfold agree_rows. cbn [n0 n1 n2 n3 at4]. repeat split; try assumption.
    intros b i j c Hb Hi Hj Hc. f_equal. apply sumR_ext. intros c' Hc'.
    rewrite Hat by (try assumption; lia). reflexivity.
  - unfold agree_rows. repeat split; assumption.
Qed.

Lemma reduce_val_row (n : ResNet6) (r x : tensor4) (k : nat) :
  row_of r x k ->
  match reduce_channels n with
  | Some l => in_features l = n3 x
  | None => True
  end ->
  row_of (reduce_val n r) (reduce_val n x) k.
Proof.
  intros (H0 & H1 & H2 & H3 & Hat) Hr. unfold reduce_val.
  destruct (reduce_channels n) as [l|].
  - unfold row_of. cbn [n0 n1 n2 n3 at4]. repeat split; try assumption.
    intros b j c Hb Hj Hc. f_equal. apply sumR_ext. intros c' Hc'.
    rewrite Hat by (try assumption; lia). reflexivity.
  - unfold row_of. repeat split; assumption.
Qed.

Lemma predict_point_ext (self : Attn2dDecoder) (f f' : nat -> R) (v C : nat) :
  match projection self with
  | Some l => in_features l = C /\
              in_features (prediction self) = out_features l
  | None => in_features (prediction self) = C
  end ->
  (forall c, c < C -> f c = f' c) ->
  predict_point self f v = predict_point self f' v.
Proof.
  intros Hp H. unfold predict_point. f_equal.
  destruct (projection self) as [l|].
  - destruct Hp as [Hin _]. apply sumR_ext. intros i _. f_equal. f_equal.
    apply sumR_ext. intros c Hc. rewrite H by lia. reflexivity.
  - apply sumR_ext. intros i Hi. rewrite H by lia. reflexivity.
Qed.

(** The last lines of [forward] in evaluation mode. *)
Lemma predict_eval (self : Attn2dDecoder) (x : tensor4) (C Ts : nat) :
  dec_training self = false ->
  match projection self with
  | Some l => in_features l = C /\
              in_features (prediction self) = out_features l
  | None => in_features (prediction self) = C
  end ->
  n2 x = Ts -> 1 <= Ts -> n3 x = C ->
  exists y,
    predict self x = Ok y /\
    m0 y = n0 x /\ m1 y = n1 x /\ m2 y = out_features (prediction self) /\
    forall b i v,
      at3 y b i v =
      predict_point self
        (fun c => maxR (Ts - 1) (fun j => at4 x b i j c)) v.
Proof.
  intros Htr Hp HS HS1 HC. unfold predict, max_dim2.
  destruct (n2 x) as [|s] eqn:Es; [lia|]. cbn [bind].
  replace (Ts - 1) with s by lia.
  unfold predict_point.
  destruct (projection self) as [l|].
  - destruct Hp as [Hin Hpred]. unfold linear3 at 1. cbn [m0 m1 m2].
    replace (n3 x =? in_features l) with true
      by (symmetry; apply Nat.eqb_eq; congruence).
    cbn [bind]. rewrite Htr. cbn [nn_dropout]. unfold linear3. cbn [m0 m1 m2].
    replace (out_features l =? in_features (prediction self)) with true
      by (symmetry; apply Nat.eqb_eq; congruence).
    eexists. split; [reflexivity|]. cbn [m0 m1 m2 at3]. repeat split.
  - cbn [bind]. rewrite Htr. cbn [nn_dropout]. unfold linear3. cbn [m0 m1 m2].
    replace (n3 x =? in_features (prediction self)) with true
      by (symmetry; apply Nat.eqb_eq; congruence).
    eexists. split; [reflexivity|]. cbn [m0 m1 m2 at3]. repeat split.
Qed.

Section Decoding.

Variables (self : Attn2dDecoder) (h : heap) (enc : EncoderOut) (cs : Z).
Variables (B Ts ds Ls C : nat).

Hypothesis Hdec :
  wf_decoder self (ds + embedding_dim (embed_tokens self)) C Ls.
Hypothesis Hcall : wf_call h enc cs B Ts ds Ls.

(** The value of a non-cached call on a token sequence. *)
Lemma forward_full_eval (t : tokens2) (cache_decoder : bool) :
  t0 t = B -> 1 <= t1 t -> in_vocabulary self t ->
  exists Y,
    forward self h t enc None (Some cs) cache_decoder = Ok (Y, None) /\
    m0 Y = B /\ m1 Y = t1 t /\ m2 Y = out_features (prediction self) /\
    forall b i v, b < B -> i < t1 t ->
      at3 Y b i v =
      predict_point self
        (fun c => maxR (Ls - 1)
           (fun j => at4 (reference_val self h enc B Ls ds t) b i j c)) v.
Proof.
  intros HB HT Hvoc.
  destruct Hdec as (Htr & Hpos & Hred & Hblocks & Hproj).
  destruct Hcall as (Hsz & Hsl & Hst & HS & HS1).
  unfold forward. unfold size. rewrite Hsz. cbn [nth_error bind].
  rewrite (slice_context_eval _ B Ts ds cs Hsz). cbn [bind].
  rewrite Hpos. cbn [bind].
  rewrite embed_target_eval by assumption. cbn [bind].
  rewrite <- HS.
  set (src := View (v_store (encoder_out enc)) [B; Ls; ds]
                   (v_strides (encoder_out enc))).
  set (E := scale3 _ _).
  destruct (input_grid_eval self h src E B Ls ds Htr)
    as (G & HG & G0 & G1 & G2 & G3 & Gat); try reflexivity; try assumption.
  rewrite HG. cbn [bind].
  subst E. cbn [scale3 m0 m1 m2 at3] in G1, G3, Gat.
  destruct (ResNet6_forward_reduce (net self) G
              (encoder_padding_mask enc)
              (padding_mask t (padding_idx self)) None _ C Hred)
    as (Hfw & R0 & R1 & R2 & R3); [exact G3|].
  replace (if cache_decoder then @None inc_state else None)
    with (@None inc_state) by (destruct cache_decoder; reflexivity).
  rewrite Hfw.
  assert (Hone : 1 <= Ls)
    by first [lia | exact (proj2 (proj2 (proj2 (proj2 Hcall))))].
  destruct (blocks_full_eval (residual_blocks (net self)) 0
              (reduce_val (net self) G)
              (encoder_padding_mask enc)
              (padding_mask t (padding_idx self)) C Ls Hone Hblocks)
    as (Y1 & HY1 & Y11 & Yag); try congruence; try lia.
  rewrite HY1. cbn [bind].
  pose proof Yag as (A0 & A2 & A3 & _ & _ & Aat).
  destruct (blocks_val_dims (residual_blocks (net self))
              (reduce_val (net self) G))
    as (V0 & V1 & V2 & V3).
  destruct (predict_eval self Y1 C Ls Htr Hproj)
    as (Y & HY & P0 & P1 & P2 & Pat); try congruence; try assumption.
  rewrite HY. cbn [bind].
  exists Y. split; [destruct cache_decoder; reflexivity|].
  split; [congruence|]. split; [congruence|]. split; [exact P2|].
  intros b i v Hb Hi. rewrite Pat.
  apply (predict_point_ext self _ _ v C Hproj). intros c Hc.
  apply maxR_ext. intros j Hj.
  rewrite Aat by (try congruence; try lia).
  (* the stack on the grid of the call and on its element-wise value *)
  assert (Hgrid : agree_rows (t1 t) (reduce_val (net self) G)
            (reduce_val (net self)
               (grid_val self h (encoder_out enc) B Ls ds t))).
  { apply reduce_val_agree.
    - unfold agree_rows, grid_val. cbn [n0 n1 n2 n3 at4].
      repeat split; try congruence; try lia.
      intros b' i' j' c' Hb' Hi' Hj' Hc'.
      rewrite Gat by (try congruence; try lia). reflexivity.
    - destruct (reduce_channels (net self)) as [l|]; [|exact I].
      destruct Hred as [Hin _]. congruence. }
  destruct (blocks_val_causal (residual_blocks (net self)) _ _ C Ls (t1 t)
              Hblocks R3 Hgrid)
    as (_ & _ & _ & _ & _ & Bat).
  unfold reference_val. apply Bat; try congruence; lia.
Qed.

(** The value of one cached call: the step for target position [k] of a
    session whose caches hold the rows before [k]. *)
Lemma forward_step_eval (tokens : tokens2) (k : nat) (st : inc_state) :
  t0 tokens = B -> k < t1 tokens -> in_vocabulary self tokens ->
  stack_inv (residual_blocks (net self)) 0
    (reduce_val (net self)
       (grid_val self h (encoder_out enc) B Ls ds tokens)) st k ->
  exists y st',
    forward self h (prefix_tokens (S k) tokens) enc (Some st) (Some cs) true
    = Ok (y, Some st') /\
    stack_inv (residual_blocks (net self)) 0
      (reduce_val (net self)
         (grid_val self h (encoder_out enc) B Ls ds tokens)) st' (S k) /\
    m0 y = B /\ m1 y = 1 /\ m2 y = out_features (prediction self) /\
    forall b v, b < B ->
      at3 y b 0 v =
      predict_point self
        (fun c => maxR (Ls - 1)
           (fun j => at4 (reference_val self h enc B Ls ds tokens) b k j c))
        v.
Proof.
  intros HB Hk Hvoc Hinv.
  destruct Hdec as (Htr & Hpos & Hred & Hblocks & Hproj).
  destruct Hcall as (Hsz & Hsl & Hst & HS & HS1).
  unfold forward. unfold size. rewrite Hsz. cbn [nth_error bind].
  rewrite (slice_context_eval _ B Ts ds cs Hsz). cbn [bind].
  rewrite Hpos. cbn [bind option_map].
  set (t := last_token (prefix_tokens (S k) tokens)).
  assert (Ht0 : t0 t = B) by exact HB.
  assert (Ht1 : t1 t = 1)
    by (unfold t, last_token, prefix_tokens; cbn [t0 t1]; lia).
  assert (Htok : forall b, tok t b 0 = tok tokens b k).
  { intros b. unfold t, last_token, prefix_tokens. cbn [t0 t1 tok].
    f_equal. lia. }
  assert (Hvoc' : in_vocabulary self t).
  { intros b i Hb Hi. rewrite Ht1 in Hi. replace i with 0 by lia.
    rewrite Htok. apply Hvoc; [exact Hb | exact Hk]. }
  rewrite embed_target_eval by assumption. cbn [bind].
  rewrite <- HS.
  set (src := View (v_store (encoder_out enc)) [B; Ls; ds]
                   (v_strides (encoder_out enc))).
  set (E := scale3 _ _).
  destruct (input_grid_eval self h src E B Ls ds Htr)
    as (G & HG & G0 & G1 & G2 & G3 & Gat); try reflexivity; try assumption.
  rewrite HG. cbn [bind].
  subst E. cbn [scale3 m0 m1 m2 at3] in G1, G3, Gat.
  destruct (ResNet6_forward_reduce (net self) G
              (encoder_padding_mask enc)
              (padding_mask t (padding_idx self)) (Some st) _ C Hred)
    as (Hfw & R0 & R1 & R2 & R3); [exact G3|].
  rewrite Hfw.
  set (X0 := reduce_val (net self)
               (grid_val self h (encoder_out enc) B Ls ds tokens)) in *.
  assert (Hrow : row_of (reduce_val (net self) G) X0 k).
  { apply reduce_val_row.
    - unfold row_of, grid_val. cbn [n0 n1 n2 n3 at4].
      repeat split; try congruence.
      intros b j c Hb Hj Hc.
      rewrite Gat by (try congruence; try lia).
      rewrite Htok. reflexivity.
    - destruct (reduce_channels (net self)) as [l|]; [|exact I].
      destruct Hred as [Hin _]. unfold grid_val. cbn [n3].
      exact Hin. }
  assert (HX0 : n0 X0 = B /\ n1 X0 = t1 tokens /\ n2 X0 = Ls /\ n3 X0 = C).
  { destruct (ResNet6_forward_reduce (net self)
                (grid_val self h (encoder_out enc) B Ls ds tokens)
                None None None _ C Hred) as (_ & Q0 & Q1 & Q2 & Q3);
      [reflexivity|].
    fold X0 in Q0, Q1, Q2, Q3. cbn [grid_val n0 n1 n2] in Q0, Q1, Q2.
    repeat split; assumption. }
  destruct HX0 as (X00 & X01 & X02 & X03).
  assert (Hone : 1 <= Ls)
    by first [lia | exact (proj2 (proj2 (proj2 (proj2 Hcall))))].
  destruct (blocks_step (residual_blocks (net self)) 0 X0
              (reduce_val (net self) G) k
              (encoder_padding_mask enc)
              (padding_mask t (padding_idx self)) st C Ls Hone Hblocks)
    as (x1 & st' & Hx1 & Hrow1 & Hinv' & _);
    try assumption; try lia.
  rewrite Hx1. cbn [bind].
  destruct Hrow1 as (W0 & W1 & W2 & W3 & Wat).
  destruct (blocks_val_dims (residual_blocks (net self)) X0)
    as (V0 & V1 & V2 & V3).
  destruct (predict_eval self (last_step4 x1) C Ls Htr Hproj)
    as (y & Hy & P0 & P1 & P2 & Pat);
    cbn [last_step4 n0 n1 n2 n3]; try congruence; try assumption.
  rewrite Hy. cbn [bind].
  exists y, st'. split; [reflexivity|]. split; [exact Hinv'|].
  cbn [last_step4 n0 n1 n2 n3] in P0, P1.
  split; [congruence|]. split; [rewrite P1, W1; reflexivity|].
  split; [exact P2|].
  intros b v Hb. rewrite Pat.
  apply (predict_point_ext self _ _ v C Hproj). intros c Hc.
  apply maxR_ext. intros j Hj.
  cbn [last_step4 at4]. rewrite W1. cbn [Nat.min Nat.sub Nat.add].
  unfold reference_val. fold X0.
  apply Wat; try congruence; lia.
Qed.

(** The state of a session after [k] steps holds, in every layer, the rows
    before [k]. *)
Lemma decode_state_inv (tokens : tokens2) (k : nat) :
  t0 tokens = B -> k <= t1 tokens -> in_vocabulary self tokens ->
  exists st,
    decode_state self h tokens enc (Some cs) k = Ok st /\
    stack_inv (residual_blocks (net self)) 0
      (reduce_val (net self)
         (grid_val self h (encoder_out enc) B Ls ds tokens)) st k.
Proof.
  intros HB Hk Hvoc. induction k as [|k IH]; cbn [decode_state].
  - exists empty_state. split; [reflexivity | apply stack_inv_empty].
  - destruct IH as (st & Hst & Hinv); [lia|].
    rewrite Hst. cbn [bind].
    destruct (forward_step_eval tokens k st HB) as (y & st' & Hy & Hinv' & _);
      try assumption; try lia.
    rewrite Hy. cbn [bind]. exists st'. split; [reflexivity | exact Hinv'].
Qed.

End Decoding.

(** Two token sequences that agree on their first [n] positions have
    reference values that agree on their first [n] rows. *)
Lemma reference_val_causal (self : Attn2dDecoder) (h : heap)
  (enc : EncoderOut) (B Ls ds C n : nat) (t t' : tokens2) :
  wf_decoder self (ds + embedding_dim (embed_tokens self)) C Ls ->
  n <= t1 t -> n <= t1 t' ->
  (forall b i, b < B -> i < n -> tok t b i = tok t' b i) ->
  agree_rows n (reference_val self h enc B Ls ds t)
               (reference_val self h enc B Ls ds t').
Proof.
  intros (Htr & Hpos & Hred & Hblocks & Hproj) Hn Hn' Htok.
  unfold reference_val.
  apply (blocks_val_causal _ _ _ C Ls n Hblocks).
  - destruct (ResNet6_forward_reduce (net self)
                (grid_val self h (encoder_out enc) B Ls ds t)
                None None None _ C Hred) as (_ & _ & _ & _ & Q3);
      [reflexivity | exact Q3].
  - apply reduce_val_agree.
    + unfold agree_rows, grid_val. cbn [n0 n1 n2 n3 at4].
      repeat split; try assumption.
      intros b i j c Hb Hi Hj Hc. rewrite Htok by assumption. reflexivity.
    + destruct (reduce_channels (net self)) as [l|]; [|exact I].
      destruct Hred as [Hin _]. exact Hin.
Qed.



(** A layer built by [_ResLayer.__init__] with [maintain_resolution], stride
    1, an odd kernel size and a target dilation of 1 or 2 is, in evaluation
    mode, a layer the results below apply to, for every source length. *)
Lemma ResLayer_init_wf (C : nat) (kernel : Z) (args : Args)
  (p : LayerParams) (Ls : nat) :
  maintain_resolution args <> 0%Z -> conv_stride args = 1%Z ->
  (1 <= kernel)%Z -> Z.odd kernel = true ->
  (1 <= target_dilation args <= 2)%Z -> (1 <= source_dilation args)%Z ->
  1 <= Ls ->
  exists l, _ResLayer_init C kernel args p = Ok l /\
            wf_layer C Ls (eval_layer l).
Proof.
  intros Hres Hstride Hk Hodd Hdt Hds HLs.
  unfold _ResLayer_init. rewrite ResLayer_padding_ok by (right; exact Hstride).
  cbn [bind]. eexists. split; [reflexivity|].
  apply Z.odd_spec in Hodd. destruct Hodd as [m Hm].
  destruct (Z.eqb_spec (maintain_resolution args) 0) as [E|_];
    [contradiction|].
  assert (Hpt : (target_dilation args * (kernel - 1) / 2
                 = target_dilation args * m)%Z).
  { replace (target_dilation args * (kernel - 1))%Z
      with (target_dilation args * m * 2)%Z by lia.
    apply Z.div_mul. lia. }
  assert (Hps : (source_dilation args * (kernel - 1) / 2
                 = source_dilation args * m)%Z).
  { replace (source_dilation args * (kernel - 1))%Z
      with (source_dilation args * m * 2)%Z by lia.
    apply Z.div_mul. lia. }
  unfold wf_layer, wf_conv, eval_layer, MaskedConvolution_init, Linear_init.
  cbn [training conv1 mconv2 fc1 fc2 c_in c_out mc_in mc_out in_features
       out_features mc_kernel mc_padding mc_dilation mc_stride mc_history
       fst snd].
  rewrite Hpt, Hps, Hstride.
  repeat split; try reflexivity; try lia; try nia.
  unfold conv_out_len. rewrite Z.div_1_r. nia.
Qed.

Lemma build_blocks_wf (n C : nat) (kernel : Z) (args : Args)
  (params : nat -> LayerParams) (l0 Ls : nat) :
  maintain_resolution args <> 0%Z -> conv_stride args = 1%Z ->
  (1 <= kernel)%Z -> Z.odd kernel = true ->
  (1 <= target_dilation args <= 2)%Z -> (1 <= source_dilation args)%Z ->
  1 <= Ls ->
  exists blocks,
    build_blocks n C kernel args params l0 = Ok blocks /\
    length blocks = n /\
    Forall (wf_layer C Ls) (map eval_layer blocks).
Proof.
  intros Hres Hstride Hk Hodd Hdt Hds HLs. revert l0.
  induction n as [|n IH]; intros l0; cbn [build_blocks].
  - exists []. repeat split. constructor.
  - destruct (ResLayer_init_wf C kernel args (params l0) Ls
                Hres Hstride Hk Hodd Hdt Hds HLs) as (l & Hl & Hwf).
    rewrite Hl. cbn [bind].
    destruct (IH (S l0)) as (rest & Hrest & Hlen & Hall).
    rewrite Hrest. cbn [bind].
    exists (l :: rest). split; [reflexivity|]. split; [cbn; lia|].
    cbn [map]. constructor; assumption.
Qed.

(** A network built by [ResNet6.__init__] without channel reduction, with
    [maintain_resolution], stride 1, an odd kernel size and a target
    dilation of 1 or 2 is, in evaluation mode, a stack of layers the results
    on decoding apply to. *)
Lemma ResNet6_init_wf (C : nat) (args : Args) (reduce_w : nat -> nat -> R)
  (params : nat -> LayerParams) (Ls : nat) :
  divide_channels args = 1%Z ->
  maintain_resolution args <> 0%Z -> conv_stride args = 1%Z ->
  (1 <= kernel_size args)%Z -> Z.odd (kernel_size args) = true ->
  (1 <= target_dilation args <= 2)%Z -> (1 <= source_dilation args)%Z ->
  1 <= Ls ->
  exists n,
    ResNet6_init C args reduce_w params = Ok n /\
    reduce_channels (eval_net n) = None /\
    length (residual_blocks n) = num_layers args /\
    Forall (wf_layer C Ls) (residual_blocks (eval_net n)).
Proof.
  intros Hdiv Hres Hstride Hk Hodd Hdt Hds HLs.
  unfold ResNet6_init. rewrite Hdiv. cbn [Z.eqb Z.ltb Z.compare Pos.compare].
  rewrite Z.div_1_r, Nat2Z.id.
  destruct (Z.ltb_spec (Z.of_nat C) 0) as [Hneg|_]; [lia|].
  destruct (build_blocks_wf (num_layers args) C (kernel_size args) args
              params 0 Ls Hres Hstride Hk Hodd Hdt Hds HLs)
    as (blocks & Hb & Hlen & Hall).
  rewrite Hb. cbn [bind]. eexists. split; [reflexivity|].
  cbn [eval_net reduce_channels residual_blocks]. repeat split; assumption.
Qed.

Lemma ex_layer_wf : wf_layer 2 3 (eval_layer ex_layer).
Proof.
  unfold wf_layer, wf_conv. cbn. repeat split; try reflexivity; try lia.
Qed.

Lemma ex_decoder_wf :
  wf_decoder (eval_decoder ex_decoder)
    (1 + embedding_dim (embed_tokens (eval_decoder ex_decoder))) 2 3.
Proof.
  unfold wf_decoder. cbn. repeat split.
  constructor; [exact ex_layer_wf | constructor].
Qed.

Lemma ex_call_wf : wf_call ex_heap ex_encoder_out 3 1 3 1 3.
Proof. unfold wf_call. cbn. repeat split; lia. Qed.

Lemma ex_tokens_in_vocabulary :
  in_vocabulary (eval_decoder ex_decoder) ex_tokens.
Proof. intros b i Hb Hi. cbn in *. lia. Qed.


(** Evaluation of a call on given tensors, down to the arithmetic of the
    real numbers. *)
Ltac evaluate_call :=
  cbv -[Rplus Rmult Rminus Ropp Rinv Rdiv IZR INR Rmax Rmin].


Lemma ex_tokens_longer_in_vocabulary :
  in_vocabulary (eval_decoder ex_decoder) ex_tokens_longer.
Proof.
  intros b i Hb Hi. cbn in *. destruct (i =? 0); lia.
Qed.


(* ================================================================== *)
(** * Further properties *)

(** ** [forward_split], [get_stats] and [forward_stats] *)

Lemma residual_ffn_split_fst (self : _ResLayer) (x residual : tensor4) :
  residual_ffn self x residual =
  (r <- residual_ffn_split self x residual ;; Ok (fst r)).
Proof.
  unfold residual_ffn, residual_ffn_split.
  destruct (scaled_add (scale self) _ residual) as [u|e]; [|reflexivity].
  cbn [bind].
  destruct (linear (fc1 self) u) as [v|e]; [|reflexivity]. cbn [bind].
  destruct (linear (fc2 self) (relu4 v)) as [w|e]; [|reflexivity].
  cbn [bind].
  destruct (scaled_add (scale self) _ u) as [y|e]; reflexivity.
Qed.

Lemma forward_split_fst (self : _ResLayer) (key : nat)
  (x : tensor4) (em dm : option mask2) (st : option inc_state) :
  _ResLayer_forward self key x em dm st =
  (r <- _ResLayer_forward_split self key x em dm st ;;
   Ok (fst (fst r), snd r)).
Proof.
  unfold _ResLayer_forward, _ResLayer_forward_split.
  destruct (conv_activations self key x em dm st) as [[z st']|e];
    [|reflexivity].
  cbn [bind]. rewrite residual_ffn_split_fst.
  destruct (residual_ffn_split self z x) as [[y r]|e]; reflexivity.
Qed.

(** X1. [forward_split] and [forward] run the same layer: whatever the
    input, the masks, the mode and the incremental state, [forward] returns
    the first tensor of what [forward_split] returns, with the same
    incremental state, and raises the same exception when it raises. *)
Theorem forward_is_first_of_forward_split (self : _ResLayer) (key : nat)
  (x : tensor4) (em dm : option mask2) (st : option inc_state) :
  _ResLayer_forward self key x em dm st =
  (r <- _ResLayer_forward_split self key x em dm st ;;
   Ok (fst (fst r), snd r)).
Proof. exact (forward_split_fst self key x em dm st). Qed.

Lemma last_nonempty_indep {A : Type} (a : A) (l : list A) (d d' : A) :
  last (a :: l) d = last (a :: l) d'.
Proof.
  revert a. induction l as [|b l IH]; intros a; [reflexivity|].
  change (last (a :: b :: l) d) with (last (b :: l) d).
  change (last (a :: b :: l) d') with (last (b :: l) d').
  apply IH.
Qed.

Lemma stats_blocks_forward (blocks : list _ResLayer) (key : nat)
  (x : tensor4) (em dm : option mask2) (st : option inc_state)
  (s0 : stats) (l : list stats) :
  get_stats x = Ok s0 ->
  stats_blocks blocks key x em dm st = Ok l ->
  length l = 2 * length blocks /\
  exists y st',
    run_blocks blocks key x em dm st = Ok (y, st') /\
    get_stats y = Ok (last l s0).
Proof.
  revert key x st s0 l.
  induction blocks as [|layer rest IH]; intros key x st s0 l Hs0 H;
    cbn [stats_blocks run_blocks] in *.
  - injection H as <-. split; [reflexivity|].
    exists x, st. split; [reflexivity | exact Hs0].
  - rewrite forward_split_fst.
    destruct (_ResLayer_forward_split layer key x em dm st)
      as [[[y xattn] st1]|e]; [|discriminate H].
    cbn [bind fst snd] in *.
    destruct (get_stats xattn) as [s1|e]; [|discriminate H]. cbn [bind] in H.
    destruct (get_stats y) as [s2|e] eqn:Hs2; [|discriminate H].
    cbn [bind] in H.
    destruct (stats_blocks rest (S key) y em dm st1) as [more|e] eqn:Hmore;
      [|discriminate H].
    cbn [bind] in H. injection H as <-.
    destruct (IH (S key) y st1 s2 more Hs2 Hmore) as (Hlen & y' & st' & Hy' & Hl).
    split; [cbn [length]; lia|].
    exists y', st'. split; [exact Hy'|].
    rewrite Hl. destruct more as [|m more']; [reflexivity|].
    change (last (s1 :: s2 :: m :: more') s0) with (last (m :: more') s0).
    f_equal. apply last_nonempty_indep.
Qed.

(** X2. When [ResNet6.forward_stats] returns, it returns one statistic for
    the (reduced) input and two for every residual block; [forward] returns
    on the same arguments, and the last statistic is [get_stats] of what
    [forward] returns. *)
Theorem forward_stats_follows_forward (self : ResNet6) (x : tensor4)
  (em dm : option mask2) (st : option inc_state) (l : list stats) :
  ResNet6_forward_stats self x em dm st = Ok l ->
  length l = 1 + 2 * length (residual_blocks self) /\
  exists y st' s,
    ResNet6_forward self x em dm st = Ok (y, st') /\
    get_stats y = Ok s /\ last l s = s.
Proof.
  unfold ResNet6_forward_stats, ResNet6_forward. intros H.
  destruct (match reduce_channels self with
            | Some l0 => linear l0 x
            | None => Ok x
            end) as [x0|e]; [|discriminate H].
  cbn [bind] in *.
  destruct (get_stats x0) as [s0|e] eqn:Hs0; [|discriminate H].
  cbn [bind] in H.
  destruct (stats_blocks (residual_blocks self) 0 x0 em dm st)
    as [more|e] eqn:Hmore; [|discriminate H].
  cbn [bind] in H. injection H as <-.
  destruct (stats_blocks_forward _ _ _ _ _ _ s0 more Hs0 Hmore)
    as (Hlen & y & st' & Hy & Hlast).
  split; [cbn [length]; lia|].
  exists y, st', (last more s0). split; [exact Hy|]. split; [exact Hlast|].
  destruct more as [|m more']; [reflexivity|].
  change (last (s0 :: m :: more') (last (m :: more') s0))
    with (last (m :: more') (last (m :: more') s0)).
  apply last_nonempty_indep.
Qed.

Lemma ex_forward_stats_returns :
  is_ok (ResNet6_forward_stats ex_net ex_grid None None None) = true.
Proof. reflexivity. Qed.

Lemma forward_stats_follows_forward_witness :
  exists l,
    ResNet6_forward_stats ex_net ex_grid None None None = Ok l /\
    length l = 3.
Proof.
  pose proof ex_forward_stats_returns as Hok.
  destruct (ResNet6_forward_stats ex_net ex_grid None None None)
    as [l|e] eqn:E; [|discriminate Hok].
  exists l. split; [reflexivity|].
  exact (proj1 (forward_stats_follows_forward ex_net ex_grid None None None
                  l E)).
Defined.

Lemma sumR_bounds (n : nat) (f : nat -> R) (lo hi : R) :
  (forall i, i < n -> (lo <= f i <= hi)%R) ->
  (INR n * lo <= sumR n f <= INR n * hi)%R.
Proof.
  induction n as [|n IH]; intros H.
  - simpl. lra.
  - rewrite S_INR. cbn [sumR].
    assert (Hn : (lo <= f n <= hi)%R) by (apply H; lia).
    assert (IH' : (INR n * lo <= sumR n f <= INR n * hi)%R)
      by (apply IH; intros; apply H; lia).
    lra.
Qed.

Lemma column_sum_bounds (x : tensor4) (f : R -> R) (c : nat) (lo hi : R) :
  (forall b i j, b < n0 x -> i < n1 x -> j < n2 x ->
                 (lo <= f (at4 x b i j c) <= hi)%R) ->
  (INR (rows x) * lo <= column_sum x f c <= INR (rows x) * hi)%R.
Proof.
  intros H. unfold rows, column_sum. rewrite !mult_INR.
  assert (H2 : forall b i, b < n0 x -> i < n1 x ->
            (INR (n2 x) * lo
             <= sumR (n2 x) (fun j => f (at4 x b i j c))
             <= INR (n2 x) * hi)%R).
  { intros b i Hb Hi. apply sumR_bounds. intros j Hj. apply H; assumption. }
  assert (H1 : forall b, b < n0 x ->
            (INR (n1 x) * (INR (n2 x) * lo)
             <= sumR (n1 x) (fun i => sumR (n2 x) (fun j => f (at4 x b i j c)))
             <= INR (n1 x) * (INR (n2 x) * hi))%R).
  { intros b Hb. apply sumR_bounds. intros i Hi. apply H2; assumption. }
  pose proof (sumR_bounds (n0 x)
                (fun b => sumR (n1 x)
                            (fun i => sumR (n2 x)
                                        (fun j => f (at4 x b i j c))))
                _ _ H1) as H0.
  lra.
Qed.

Lemma column_mean_bounds (x : tensor4) (c : nat) (lo hi : R) :
  1 <= rows x ->
  (forall b i j, b < n0 x -> i < n1 x -> j < n2 x ->
                 (lo <= at4 x b i j c <= hi)%R) ->
  (lo <= column_mean x c <= hi)%R.
Proof.
  intros Hr H. unfold column_mean.
  pose proof (column_sum_bounds x (fun v => v) c lo hi H) as Hs.
  assert (Hpos : (0 < INR (rows x))%R) by (apply lt_0_INR; lia).
  split.
  - apply Rmult_le_reg_r with (r := INR (rows x)); [exact Hpos|].
    unfold Rdiv. rewrite Rmult_assoc, Rinv_l by lra. lra.
  - apply Rmult_le_reg_r with (r := INR (rows x)); [exact Hpos|].
    unfold Rdiv. rewrite Rmult_assoc, Rinv_l by lra. lra.
Qed.

(** X3. [get_stats] on a tensor without channels raises; otherwise it
    returns one mean and one deviation per channel. Both are [nan] for a
    tensor without rows. With at least one row the mean of a channel lies
    between any two bounds of the channel's entries. With at least two rows
    the deviation is a number that is not negative, and 0 for a channel whose
    entries are all equal. *)
Theorem get_stats_ranges (x : tensor4) :
  (n3 x = 0 -> get_stats x = Raise RuntimeError) /\
  (n3 x <> 0 ->
   exists s,
     get_stats x = Ok s /\ s_channels s = n3 x /\
     (rows x = 0 -> forall c, s_mean s c = None /\ s_std s c = None) /\
     (1 <= rows x -> forall c lo hi,
        (forall b i j, b < n0 x -> i < n1 x -> j < n2 x ->
                       (lo <= at4 x b i j c <= hi)%R) ->
        exists m, s_mean s c = Some m /\ (lo <= m <= hi)%R) /\
     (2 <= rows x -> forall c,
        exists d, s_std s c = Some d /\ (0 <= d)%R /\
          forall v, (forall b i j, b < n0 x -> i < n1 x -> j < n2 x ->
                                   at4 x b i j c = v) -> d = 0%R)).
Proof.
  unfold get_stats. split.
  - intros H. rewrite H. reflexivity.
  - intros H. destruct (Nat.eqb_spec (n3 x) 0) as [E|_]; [contradiction|].
    eexists. split; [reflexivity|]. cbn [s_channels s_mean s_std].
    split; [reflexivity|]. split; [|split].
    + intros Hr c. rewrite Hr. split; reflexivity.
    + intros Hr c lo hi Hb.
      destruct (Nat.eqb_spec (rows x) 0) as [E|_]; [lia|].
      eexists. split; [reflexivity|].
      apply column_mean_bounds; assumption.
    + intros Hr c.
      destruct (Nat.leb_spec (rows x) 1) as [E|_]; [lia|].
      eexists. split; [reflexivity|]. split; [apply sqrt_pos|].
      intros v Hv.
      assert (Hm : column_mean x c = v).
      { assert (Hbd : (v <= column_mean x c <= v)%R).
        { apply column_mean_bounds; [lia|].
          intros b i j Hb Hi Hj. rewrite Hv by assumption. lra. }
        lra. }
      rewrite Hm.
      assert (Hs : (INR (rows x) * 0
                    <= column_sum x (fun w => Rsqr (w - v)) c
                    <= INR (rows x) * 0)%R).
      { apply column_sum_bounds. intros b i j Hb Hi Hj.
        rewrite Hv by assumption. unfold Rsqr. lra. }
      replace (column_sum x (fun w => Rsqr (w - v)) c) with 0%R by lra.
      unfold Rdiv. rewrite Rmult_0_l. apply sqrt_0.
Qed.

Lemma get_stats_ranges_witness :
  exists s,
    get_stats ex_features = Ok s /\ s_channels s = 1 /\
    exists m, s_mean s 0 = Some m /\ (0 <= m <= 1)%R.
Proof.
  destruct (proj2 (get_stats_ranges ex_features))
    as (s & Hs & Hc & _ & Hmean & _).
  - cbn. lia.
  - exists s. split; [exact Hs|]. split; [exact Hc|].
    apply (Hmean ltac:(cbn; lia) 0 0%R 1%R).
    intros b i j _ _ _. cbn. destruct (j =? 0); lra.
Defined.

(** ** [ResNet6.__init__] *)

Lemma build_blocks_raises (n C : nat) (kernel : Z) (args : Args)
  (params : nat -> LayerParams) (l0 : nat) :
  maintain_resolution args <> 0%Z -> conv_stride args <> 1%Z -> 1 <= n ->
  build_blocks n C kernel args params l0 = Raise ValueError.
Proof.
  intros Hres Hstride Hn. destruct n as [|n]; [lia|].
  cbn [build_blocks]. unfold _ResLayer_init.
  rewrite ResLayer_padding_stride by assumption. reflexivity.
Qed.

Lemma build_blocks_returns (n C : nat) (kernel : Z) (args : Args)
  (params : nat -> LayerParams) (l0 : nat) :
  maintain_resolution args = 0%Z \/ conv_stride args = 1%Z ->
  exists blocks,
    build_blocks n C kernel args params l0 = Ok blocks /\
    length blocks = n /\
    Forall (fun l =>
              _ResLayer_padding kernel args = Ok (mc_padding (mconv2 l)) /\
              c_in (conv1 l) = C /\ mc_out (mconv2 l) = C /\
              out_features (fc2 l) = C /\ training l = true)
           blocks.
Proof.
  intros H. revert l0. induction n as [|n IH]; intros l0;
    cbn [build_blocks].
  - exists []. repeat split. constructor.
  - destruct (IH (S l0)) as (rest & Hrest & Hlen & Hall).
    pose proof (ResLayer_padding_ok kernel args H) as Hp.
    unfold _ResLayer_init. rewrite Hp in *.
    cbn [bind]. rewrite Hrest. cbn [bind]. eexists. split; [reflexivity|].
    split; [cbn [length]; lia|].
    constructor; [|exact Hall]. cbn. repeat split.
Qed.

(** X4. [ResNet6.__init__]. With [divide_channels = 0] it raises
    [ZeroDivisionError]. For a positive [divide_channels]: when
    [maintain_resolution] is set and the stride is not 1, it raises the
    [ValueError] of the first layer, unless there is no layer to build
    ([num_layers = 0]); in every other case it returns a network with
    [num_layers] blocks on [num_init_features // divide_channels] channels,
    each padded as [_ResLayer] decides and in training mode, and with a
    channel reduction exactly when [divide_channels > 1]. For a negative
    [divide_channels] it returns a network without blocks and without
    reduction when [num_layers = 0], and raises when a layer has to be built
    on a negative number of channels. *)
Theorem ResNet6_init_cases (C0 : nat) (args : Args)
  (reduce_w : nat -> nat -> R) (params : nat -> LayerParams) :
  (divide_channels args = 0%Z ->
   ResNet6_init C0 args reduce_w params = Raise ZeroDivisionError) /\
  ((0 < divide_channels args)%Z ->
   maintain_resolution args <> 0%Z -> conv_stride args <> 1%Z ->
   1 <= num_layers args ->
   ResNet6_init C0 args reduce_w params = Raise ValueError) /\
  ((0 < divide_channels args)%Z ->
   maintain_resolution args = 0%Z \/ conv_stride args = 1%Z \/
   num_layers args = 0 ->
   exists n,
     ResNet6_init C0 args reduce_w params = Ok n /\
     length (residual_blocks n) = num_layers args /\
     output_channels n = (Z.of_nat C0 / divide_channels args)%Z /\
     (match reduce_channels n with
      | Some l => (1 < divide_channels args)%Z /\ in_features l = C0 /\
                  Z.of_nat (out_features l) = output_channels n
      | None => divide_channels args = 1%Z
      end) /\
     Forall (fun l =>
               _ResLayer_padding (kernel_size args) args
               = Ok (mc_padding (mconv2 l)) /\
               Z.of_nat (c_in (conv1 l)) = output_channels n /\
               Z.of_nat (mc_out (mconv2 l)) = output_channels n /\
               Z.of_nat (out_features (fc2 l)) = output_channels n /\
               training l = true)
            (residual_blocks n)) /\
  ((divide_channels args < 0)%Z -> num_layers args = 0 ->
   ResNet6_init C0 args reduce_w params
   = Ok (MkResNet6 None (Z.of_nat C0 / divide_channels args)%Z [])) /\
  ((divide_channels args < 0)%Z -> 0 < C0 -> 1 <= num_layers args ->
   is_ok (ResNet6_init C0 args reduce_w params) = false).
Proof.
  unfold ResNet6_init. split; [|split; [|split; [|split]]].
  - intros H. rewrite H. reflexivity.
  - intros Hd Hres Hstride Hn.
    destruct (Z.eqb_spec (divide_channels args) 0) as [E|_]; [lia|].
    destruct (Z.ltb_spec (Z.of_nat C0 / divide_channels args) 0) as [E|_].
    { pose proof (Z.div_pos (Z.of_nat C0) (divide_channels args)). lia. }
    rewrite build_blocks_raises by assumption. reflexivity.
  - intros Hd Hcase.
    destruct (Z.eqb_spec (divide_channels args) 0) as [E|_]; [lia|].
    assert (Hpos : (0 <= Z.of_nat C0 / divide_channels args)%Z)
      by (apply Z.div_pos; lia).
    destruct (Z.ltb_spec (Z.of_nat C0 / divide_channels args) 0) as [E|_];
      [lia|].
    assert (Hb : exists blocks,
              build_blocks (num_layers args)
                (Z.to_nat (Z.of_nat C0 / divide_channels args))
                (kernel_size args) args params 0 = Ok blocks /\
              length blocks = num_layers args /\
              Forall (fun l =>
                        _ResLayer_padding (kernel_size args) args
                        = Ok (mc_padding (mconv2 l)) /\
                        c_in (conv1 l)
                        = Z.to_nat (Z.of_nat C0 / divide_channels args) /\
                        mc_out (mconv2 l)
                        = Z.to_nat (Z.of_nat C0 / divide_channels args) /\
                        out_features (fc2 l)
                        = Z.to_nat (Z.of_nat C0 / divide_channels args) /\
                        training l = true) blocks).
    { destruct Hcase as [H|[H|H]].
      - apply build_blocks_returns. left. exact H.
      - apply build_blocks_returns. right. exact H.
      - rewrite H. exists []. repeat split. constructor. }
    destruct Hb as (blocks & Hblocks & Hlen & Hall).
    rewrite Hblocks. cbn [bind]. eexists. split; [reflexivity|].
    cbn [residual_blocks output_channels reduce_channels].
    split; [exact Hlen|]. split; [reflexivity|]. split.
    + destruct (Z.ltb_spec 1 (divide_channels args)) as [E|E].
      * cbn [Linear_init in_features out_features].
        rewrite Z2Nat.id by exact Hpos. repeat split. exact E.
      * lia.
    + revert Hall. apply Forall_impl.
      intros l (P0 & P1 & P2 & P3 & P4).
      rewrite P1, P2, P3, Z2Nat.id by exact Hpos. repeat split; assumption.
  - intros Hd Hn.
    destruct (Z.eqb_spec (divide_channels args) 0) as [E|_]; [lia|].
    destruct (Z.ltb_spec 1 (divide_channels args)) as [E|_]; [lia|].
    rewrite Hn. cbn [build_blocks].
    destruct (Z.ltb_spec (Z.of_nat C0 / divide_channels args) 0);
      reflexivity.
  - intros Hd HC Hn.
    destruct (Z.eqb_spec (divide_channels args) 0) as [E|_]; [lia|].
    assert (Hneg : (Z.of_nat C0 / divide_channels args < 0)%Z).
    { pose proof (Z.div_mod (Z.of_nat C0) (divide_channels args)).
      pose proof (Z.mod_neg_bound (Z.of_nat C0) (divide_channels args)).
      nia. }
    destruct (Z.ltb_spec (Z.of_nat C0 / divide_channels args) 0) as [_|E];
      [|lia].
    destruct (num_layers args) as [|n]; [lia|].
    destruct (_ResLayer_padding (kernel_size args) args); reflexivity.
Qed.

Lemma ResNet6_init_cases_witness :
  (exists n,
     ResNet6_init 2 ex_args (fun _ _ => 1%R) (fun _ => ex_params) = Ok n /\
     length (residual_blocks n) = 1 /\ output_channels n = 2%Z) /\
  ResNet6_init 2 ex_args_stride2 (fun _ _ => 1%R) (fun _ => ex_params)
  = Raise ValueError.
Proof.
  split.
  - destruct (proj1 (proj2 (proj2 (ResNet6_init_cases 2 ex_args
                                     (fun _ _ => 1%R) (fun _ => ex_params)))))
      as (n & Hn & Hl & Hc & _).
    + reflexivity.
    + right. left. reflexivity.
    + exists n. split; [exact Hn|]. split; [exact Hl | exact Hc].
  - apply (proj1 (proj2 (ResNet6_init_cases 2 ex_args_stride2
                           (fun _ _ => 1%R) (fun _ => ex_params)))).
    + reflexivity.
    + discriminate.
    + discriminate.
    + cbn. lia.
Defined.

(** ** [_expand] at any rank *)

Lemma expand_dims_untouched (sizes strides : list nat)
  (dim reps start : nat) :
  length strides = length sizes -> dim < start ->
  expand_dims sizes strides (expand_shape dim reps start (length sizes))
  = Ok (sizes, strides).
Proof.
  revert strides start. induction sizes as [|n sizes IH];
    intros strides start Hl Hd; destruct strides as [|s strides];
    try discriminate Hl; cbn [length expand_shape seq map expand_dims].
  - reflexivity.
  - fold (expand_shape dim reps (S start) (length sizes)).
    rewrite IH by (cbn [length] in Hl; lia). cbn [bind].
    destruct (Nat.eqb_spec start dim) as [E|_]; [lia|].
    reflexivity.
Qed.

Lemma expand_dims_inserted (pre post spre spost : list nat)
  (s reps start : nat) :
  length spre = length pre -> length spost = length post ->
  exists st,
    expand_dims (pre ++ 1 :: post) (spre ++ s :: spost)
      (expand_shape (start + length pre) reps start
         (length (pre ++ 1 :: post)))
    = Ok (pre ++ reps :: post, spre ++ st :: spost) /\
    forall i, i < reps -> i * st = 0.
Proof.
  revert spre start. induction pre as [|n pre IH]; intros spre start Hl Hl';
    destruct spre as [|s0 spre]; try discriminate Hl.
  - cbn [app length]. rewrite Nat.add_0_r.
    cbn [expand_shape seq map expand_dims].
    fold (expand_shape start reps (S start) (length post)).
    rewrite expand_dims_untouched by lia. cbn [bind].
    rewrite Nat.eqb_refl.
    assert (Hneg : (Z.of_nat reps =? -1)%Z = false)
      by (apply Z.eqb_neq; lia).
    assert (Hlt : (Z.of_nat reps <? 0)%Z = false) by (apply Z.ltb_ge; lia).
    rewrite Hneg, Hlt.
    destruct (Z.eqb_spec (Z.of_nat 1) (Z.of_nat reps)) as [E|E].
    + exists s. replace reps with 1 by lia. split; [reflexivity|].
      intros i Hi. replace i with 0 by lia. reflexivity.
    + exists 0. rewrite Nat.eqb_refl, Nat2Z.id. split; [reflexivity|].
      intros i _. lia.
  - cbn [app length]. cbn [expand_shape seq map expand_dims].
    fold (expand_shape (start + S (length pre)) reps (S start)
            (length (pre ++ 1 :: post))).
    replace (start + S (length pre)) with (S start + length pre) by lia.
    destruct (IH spre (S start)) as (st & Hst & Hz);
      [cbn [length] in Hl; lia | exact Hl' |].
    rewrite Hst. cbn [bind].
    destruct (Nat.eqb_spec start (S start + length pre)) as [E|_]; [lia|].
    exists st. split; [reflexivity | exact Hz].
Qed.

Lemma dot_insert (pre post spre spost : list nat) (i s : nat) :
  length spre = length pre ->
  dot (pre ++ i :: post) (spre ++ s :: spost)
  = dot (pre ++ post) (spre ++ spost) + i * s.
Proof.
  revert spre. induction pre as [|n pre IH]; intros spre Hl;
    destruct spre as [|s0 spre]; try discriminate Hl; cbn [app dot].
  - lia.
  - rewrite IH by (cbn [length] in Hl; lia). lia.
Qed.

(** What [_expand] does to a tensor of any rank. *)
Lemma _expand_inserts (h : heap) (v : view) (dim reps : nat) :
  (ndim v < dim -> _expand v dim reps = Raise IndexError) /\
  (dim <= ndim v -> length (v_strides v) = ndim v ->
   exists e,
     _expand v dim reps = Ok e /\
     v_store e = v_store v /\
     v_sizes e = firstn dim (v_sizes v) ++ reps :: skipn dim (v_sizes v) /\
     forall pre i post, length pre = dim -> i < reps ->
       read h e (pre ++ i :: post) = read h v (pre ++ post)).
Proof.
  unfold _expand, unsqueeze. split.
  - intros H. destruct (Nat.leb_spec dim (ndim v)); [lia | reflexivity].
  - intros Hd Hl. destruct (Nat.leb_spec dim (ndim v)) as [_|E]; [|lia].
    cbn [bind]. unfold expand, ndim in *. cbn [v_sizes v_strides v_store].
    set (s := match nth_error (v_sizes v) dim, nth_error (v_strides v) dim with
              | Some n, Some s => n * s
              | _, _ => 1
              end).
    destruct (expand_dims_inserted (firstn dim (v_sizes v))
                (skipn dim (v_sizes v)) (firstn dim (v_strides v))
                (skipn dim (v_strides v)) s reps 0)
      as (st & Hst & Hz).
    + rewrite !length_firstn. lia.
    + rewrite !length_skipn. lia.
    + rewrite length_firstn in Hst.
      replace (0 + Nat.min dim (length (v_sizes v))) with dim in Hst by lia.
      unfold expand_shape in Hst. rewrite Hst. cbn [bind].
      eexists. split; [reflexivity|]. cbn [v_store v_sizes].
      split; [reflexivity|]. split; [reflexivity|].
      intros pre i post Hpre Hi. unfold read. cbn [v_store v_strides].
      rewrite dot_insert by (rewrite length_firstn; lia).
      rewrite firstn_skipn, (Hz i Hi), Nat.add_0_r. reflexivity.
Qed.

(** X5. [_expand] on a tensor of any rank. A [dim] larger than the rank
    raises [IndexError]. Otherwise the result is a view of the same storage
    whose sizes are those of the tensor with [reps] inserted at [dim], and
    whose element at an index is the element of the tensor at the index with
    position [dim] removed: the tensor is repeated and nothing is copied. *)
Theorem expand_any_rank (h : heap) (v : view) (dim reps : nat) :
  (ndim v < dim -> _expand v dim reps = Raise IndexError) /\
  (dim <= ndim v -> length (v_strides v) = ndim v ->
   exists e,
     _expand v dim reps = Ok e /\
     v_store e = v_store v /\
     v_sizes e = firstn dim (v_sizes v) ++ reps :: skipn dim (v_sizes v) /\
     forall pre i post, length pre = dim -> i < reps ->
       read h e (pre ++ i :: post) = read h v (pre ++ post)).
Proof. exact (_expand_inserts h v dim reps). Qed.

Lemma expand_any_rank_witness :
  exists e,
    _expand ex_encoder_states 1 2 = Ok e /\
    v_sizes e = [1; 2; 3; 1] /\
    read ex_heap e [0; 1; 2; 0] = read ex_heap ex_encoder_states [0; 2; 0].
Proof.
  destruct (proj2 (expand_any_rank ex_heap ex_encoder_states 1 2))
    as (e & He & _ & Hs & Hr).
  - cbn. lia.
  - reflexivity.
  - exists e. split; [exact He|]. split; [exact Hs|].
    apply (Hr [0] 1 [2; 0]); [reflexivity | lia].
Defined.

(** ** [forward] with [cache_decoder=False], and the context size *)

Lemma predict_last_step (self : Attn2dDecoder) (x : tensor4) :
  dec_training self = false ->
  predict self (last_step4 x) = (y <- predict self x ;; Ok (last_step3 y)).
Proof.
  intros Htr. destruct x as [a b c d f].
  unfold predict, max_dim2, nn_dropout, last_step4. rewrite Htr.
  cbn [n0 n1 n2 n3 at4].
  destruct c as [|s]; [reflexivity|]. cbn [bind].
  destruct (projection self) as [l|].
  - unfold linear3. cbn [m0 m1 m2 at3].
    destruct (d =? in_features l); [|reflexivity]. cbn [bind m0 m1 m2 at3].
    destruct (out_features l =? in_features (prediction self));
      reflexivity.
  - cbn [bind]. unfold linear3. cbn [m0 m1 m2 at3].
    destruct (d =? in_features (prediction self)); reflexivity.
Qed.

(** X6. [Attn2dDecoder.forward] with [cache_decoder=False] in evaluation
    mode. A call that is given an incremental state returns the last target
    position of what the call without a state returns on the same arguments
    (and raises when that call raises): the whole prefix is embedded and run
    through the network, only the last row is kept. The state that was
    passed is left as it is. *)
Theorem forward_without_cache (self : Attn2dDecoder) (h : heap)
  (tokens : tokens2) (enc : EncoderOut) (st : inc_state)
  (context_size : option Z) :
  dec_training self = false ->
  forward self h tokens enc (Some st) context_size false
  = (r <- forward self h tokens enc None context_size false ;;
     Ok (last_step3 (fst r), Some st)).
Proof.
  intros Htr. unfold forward.
  destruct (size (encoder_out enc) 1) as [ts|]; [cbn [bind]|reflexivity].
  destruct (match context_size with
            | Some c => s <- slice_context (encoder_out enc) c ;; Ok (Some s)
            | None => Ok None
            end) as [src|]; [cbn [bind]|reflexivity].
  destruct (match embed_positions self with
            | Some pos => p <- pos tokens false ;; Ok (Some p)
            | None => Ok None
            end) as [positions|]; [cbn [bind]|reflexivity].
  destruct (embed_target self tokens positions) as [tgt|];
    [cbn [bind]|reflexivity].
  destruct (match src with Some s => Ok s | None => Raise UnboundLocalError end)
    as [src'|]; [cbn [bind]|reflexivity].
  destruct (input_grid self h src' tgt) as [x|]; [cbn [bind]|reflexivity].
  destruct (ResNet6_forward (net self) x (encoder_padding_mask enc)
              (padding_mask tokens (padding_idx self)) None)
    as [[y s']|]; [cbn [bind]|reflexivity].
  rewrite (predict_last_step self y Htr).
  destruct (predict self y) as [z|]; reflexivity.
Qed.

Lemma forward_without_cache_witness :
  forward (eval_decoder ex_decoder) ex_heap ex_tokens ex_encoder_out
          (Some empty_state) (Some 3%Z) false
  = (r <- forward (eval_decoder ex_decoder) ex_heap ex_tokens ex_encoder_out
            None (Some 3%Z) false ;;
     Ok (last_step3 (fst r), Some empty_state)).
Proof.
  apply (forward_without_cache (eval_decoder ex_decoder) ex_heap ex_tokens
           ex_encoder_out empty_state (Some 3%Z)).
  reflexivity.
Defined.

Lemma slice_stop_beyond (n : nat) (c : Z) :
  (Z.of_nat n <= c)%Z -> slice_stop n c = slice_stop n (Z.of_nat n).
Proof.
  intros H. unfold slice_stop.
  destruct (Z.ltb_spec c 0); [lia|].
  destruct (Z.ltb_spec (Z.of_nat n) 0); [lia|].
  rewrite Nat2Z.id. lia.
Qed.

Lemma slice_stop_negative (n : nat) (c : Z) :
  (- Z.of_nat n <= c < 0)%Z -> slice_stop n c = slice_stop n (Z.of_nat n + c).
Proof.
  intros H. unfold slice_stop.
  destruct (Z.ltb_spec c 0); [|lia].
  destruct (Z.ltb_spec (Z.of_nat n + c) 0); [lia|]. lia.
Qed.

Lemma forward_same_stop (self : Attn2dDecoder) (h : heap)
  (tokens : tokens2) (enc : EncoderOut) (st : option inc_state)
  (cache_decoder : bool) (Ts : nat) (c c' : Z) :
  size (encoder_out enc) 1 = Ok Ts ->
  slice_stop Ts c = slice_stop Ts c' ->
  forward self h tokens enc st (Some c) cache_decoder
  = forward self h tokens enc st (Some c') cache_decoder.
Proof.
  intros Hs Hc. unfold forward. rewrite Hs. cbn [bind].
  assert (E : slice_context (encoder_out enc) c
              = slice_context (encoder_out enc) c').
  { unfold slice_context. unfold size in Hs.
    destruct (v_sizes (encoder_out enc)) as [|b [|n rest]]; try reflexivity.
    cbn [nth_error] in Hs. injection Hs as ->. rewrite Hc. reflexivity. }
  rewrite E. reflexivity.
Qed.

(** X7. The context size of [Attn2dDecoder.forward] is a Python slice stop
    on the source axis. A context size at or beyond the source length [Ts]
    gives what the context size [Ts] gives: the whole source is read, and
    nothing is raised for asking more. A negative context size [-k] with
    [k <= Ts] gives what [Ts - k] gives: the last [k] source positions are
    left out. *)
Theorem forward_context_clamped (self : Attn2dDecoder) (h : heap)
  (tokens : tokens2) (enc : EncoderOut) (st : option inc_state)
  (cache_decoder : bool) (Ts : nat) (c : Z) :
  size (encoder_out enc) 1 = Ok Ts ->
  ((Z.of_nat Ts <= c)%Z ->
   forward self h tokens enc st (Some c) cache_decoder
   = forward self h tokens enc st (Some (Z.of_nat Ts)) cache_decoder) /\
  ((- Z.of_nat Ts <= c < 0)%Z ->
   forward self h tokens enc st (Some c) cache_decoder
   = forward self h tokens enc st (Some (Z.of_nat Ts + c)%Z) cache_decoder).
Proof.
  intros Hs. split; intros Hc;
    apply (forward_same_stop self h tokens enc st cache_decoder Ts); auto.
  - apply slice_stop_beyond; exact Hc.
  - apply slice_stop_negative; exact Hc.
Qed.

Lemma forward_context_clamped_witness :
  forward ex_decoder ex_heap ex_tokens ex_encoder_out None (Some 5%Z) true
  = forward ex_decoder ex_heap ex_tokens ex_encoder_out None (Some 3%Z) true
  /\
  forward ex_decoder ex_heap ex_tokens ex_encoder_out None (Some (-1)%Z) true
  = forward ex_decoder ex_heap ex_tokens ex_encoder_out None (Some 2%Z) true.
Proof.
  split.
  - apply (proj1 (forward_context_clamped ex_decoder ex_heap ex_tokens
                    ex_encoder_out None true 3 5%Z eq_refl)).
    lia.
  - apply (proj2 (forward_context_clamped ex_decoder ex_heap ex_tokens
                    ex_encoder_out None true 3 (-1)%Z eq_refl)).
    lia.
Defined.

(** ** An empty context *)

Lemma bdim_zero (a r : nat) : bdim a 0 = Ok r -> r = 0.
Proof.
  unfold bdim. destruct a as [|[|a]]; cbn; intros H; congruence.
Qed.

Lemma scaled_add_empty (s : R) (x y r : tensor4) :
  n2 y = 0 -> scaled_add s x y = Ok r -> n2 r = 0.
Proof.
  intros Hy H. unfold scaled_add in H.
  bind_ok H q0 Hq0. bind_ok H q1 Hq1. bind_ok H q2 Hq2. bind_ok H q3 Hq3.
  injection H as <-. cbn [n2]. rewrite Hy in Hq2. exact (bdim_zero _ _ Hq2).
Qed.

Lemma linear_sizes (l : Linear) (x r : tensor4) :
  linear l x = Ok r -> n0 r = n0 x /\ n1 r = n1 x /\ n2 r = n2 x.
Proof.
  unfold linear. destruct (n3 x =? in_features l); [|discriminate].
  intros H. injection H as <-. cbn. auto.
Qed.

Lemma ResLayer_forward_empty (self : _ResLayer) (key : nat) (x : tensor4)
  (em dm : option mask2) (st : option inc_state) (r : tensor4)
  (st' : option inc_state) :
  n2 x = 0 -> _ResLayer_forward self key x em dm st = Ok (r, st') ->
  n2 r = 0.
Proof.
  intros Hx H. unfold _ResLayer_forward in H.
  bind_ok H a Ea. destruct a as [a sa].
  bind_ok H y Ey. injection H as <- _.
  unfold residual_ffn in Ey.
  bind_ok Ey res Eres.
  pose proof (scaled_add_empty _ _ _ _ Hx Eres) as Hres.
  bind_ok Ey f1 Ef1. bind_ok Ey f2 Ef2.
  exact (scaled_add_empty _ _ _ _ Hres Ey).
Qed.

Lemma run_blocks_empty (blocks : list _ResLayer) (key : nat) (x : tensor4)
  (em dm : option mask2) (st : option inc_state) (r : tensor4)
  (st' : option inc_state) :
  n2 x = 0 -> run_blocks blocks key x em dm st = Ok (r, st') -> n2 r = 0.
Proof.
  revert key x st. induction blocks as [|l blocks IH]; intros key x st Hx H.
  - cbn in H. injection H as <- _. exact Hx.
  - cbn [run_blocks] in H. bind_ok H a Ea. destruct a as [a sa].
    apply (IH _ _ _ (ResLayer_forward_empty _ _ _ _ _ _ _ _ Hx Ea) H).
Qed.

Lemma ResNet6_forward_empty (self : ResNet6) (x : tensor4)
  (em dm : option mask2) (st : option inc_state) (r : tensor4)
  (st' : option inc_state) :
  n2 x = 0 -> ResNet6_forward self x em dm st = Ok (r, st') -> n2 r = 0.
Proof.
  intros Hx H. unfold ResNet6_forward in H. bind_ok H y Ey.
  apply (run_blocks_empty _ _ _ _ _ _ _ _) with (2 := H).
  destruct (reduce_channels self) as [l|].
  - destruct (linear_sizes _ _ _ Ey) as (_ & _ & ->). exact Hx.
  - injection Ey as <-. exact Hx.
Qed.

Lemma expand_dims_lengths (sizes strides : list nat) (shape : list Z)
  (r : list nat * list nat) :
  expand_dims sizes strides shape = Ok r -> length strides = length sizes.
Proof.
  revert strides shape r. induction sizes as [|n sizes IH];
    intros [|s strides] [|t shape] r H; try discriminate H.
  - reflexivity.
  - cbn [expand_dims] in H. bind_ok H p Ep. cbn [length].
    f_equal. exact (IH _ _ _ Ep).
Qed.

Lemma _expand_sizes (v e : view) (dim reps : nat) :
  _expand v dim reps = Ok e ->
  v_sizes e = firstn dim (v_sizes v) ++ reps :: skipn dim (v_sizes v).
Proof.
  intros H.
  destruct (Nat.le_gt_cases dim (ndim v)) as [Hd|Hd].
  - assert (Hl : length (v_strides v) = ndim v).
    { unfold _expand, unsqueeze in H.
      destruct (Nat.leb_spec dim (ndim v)); [|lia]. cbn [bind] in H.
      unfold expand in H. bind_ok H p Ep.
      apply expand_dims_lengths in Ep. cbn [v_sizes v_strides] in Ep.
      rewrite !length_app in Ep. cbn [length] in Ep.
      rewrite !length_firstn, !length_skipn in Ep. unfold ndim in *. lia. }
    destruct (proj2 (_expand_inserts [] v dim reps) Hd Hl)
      as (e' & He' & _ & Hs & _).
    rewrite H in He'. injection He' as <-. exact Hs.
  - rewrite (proj1 (_expand_inserts [] v dim reps) Hd) in H. discriminate H.
Qed.

Lemma build_grid_empty (h h' : heap) (src tgt g : view) (b : nat)
  (rest : list nat) :
  v_sizes src = b :: 0 :: rest ->
  build_grid h src tgt = Ok (g, h') ->
  nth_error (v_sizes g) 2 = Some 0.
Proof.
  intros Hsrc H. unfold build_grid in H.
  bind_ok H slen Eslen. bind_ok H tlen Etlen. bind_ok H es Ees. bind_ok H et Eet.
  unfold cat in H.
  destruct (3 <? ndim es); [|discriminate H].
  bind_ok H sizes Esz. unfold alloc in H.
  injection H as <- _. cbn [v_sizes].
  apply _expand_sizes in Ees. rewrite Hsrc in Ees. cbn in Ees.
  rewrite Ees in Esz.
  destruct (v_sizes et) as [|a0 [|a1 [|a2 sb]]]; cbn in Esz;
    try discriminate Esz.
  - destruct (b =? a0); discriminate Esz.
  - destruct (b =? a0); [|discriminate Esz].
    destruct (tlen =? a1); discriminate Esz.
  - destruct (b =? a0); [|discriminate Esz].
    destruct (tlen =? a1); [|discriminate Esz].
    destruct a2; [|discriminate Esz].
    cbn [Nat.eqb] in Esz.
    destruct (cat_sizes rest sb 0) as [rs|]; [|discriminate Esz].
    cbn in Esz. injection Esz as <-. reflexivity.
Qed.

Lemma input_grid_empty (self : Attn2dDecoder) (h : heap) (src : view)
  (tgt : tensor3) (x : tensor4) (b : nat) (rest : list nat) :
  (forall y, n2 (input_dropout self y) = n2 y) ->
  v_sizes src = b :: 0 :: rest ->
  input_grid self h src tgt = Ok x -> n2 x = 0.
Proof.
  intros Hdrop Hsrc H. unfold input_grid in H.
  destruct (store3 h tgt) as [tv h1].
  bind_ok H p Ep. destruct p as [g h2].
  bind_ok H y Ey. injection H as <-.
  apply (build_grid_empty _ _ _ _ _ _ _ Hsrc) in Ep.
  unfold tensor4_of in Ey.
  destruct (v_sizes g) as [|a0 [|a1 [|a2 [|a3 [|]]]]]; try discriminate Ey.
  injection Ey as <-. cbn in Ep. injection Ep as ->.
  unfold nn_dropout. destruct (dec_training self); [rewrite Hdrop|];
    reflexivity.
Qed.

(** X8. [Attn2dDecoder.forward] never returns on an empty context. When the
    slice [[:context_size]] of the encoder states is empty (a context size
    of 0, one at or below minus the source length, or an empty source), and
    the input dropout keeps the sizes of its input, the call raises,
    whatever the tokens, the state, the mode of the layers and the
    convolutions are: a layer that returns on an empty source axis returns
    an empty source axis, because its residual connections keep it, and the
    max over an empty axis is an error. *)
Theorem forward_empty_context (self : Attn2dDecoder) (h : heap)
  (tokens : tokens2) (enc : EncoderOut) (st : option inc_state)
  (cache_decoder : bool) (Ts : nat) (c : Z) :
  (forall y, n2 (input_dropout self y) = n2 y) ->
  size (encoder_out enc) 1 = Ok Ts ->
  slice_stop Ts c = 0 ->
  is_ok (forward self h tokens enc st (Some c) cache_decoder) = false.
Proof.
  intros Hdrop Hs Hc.
  destruct (forward self h tokens enc st (Some c) cache_decoder)
    as [[y s]|] eqn:H; [exfalso | reflexivity].
  unfold forward in H. rewrite Hs in H. cbn [bind] in H.
  bind_ok H src Esrc.
  bind_ok H positions Epos.
  bind_ok H tgt_emb Etgt.
  bind_ok H src_emb Esrc'.
  bind_ok H x0 Ex0.
  bind_ok H xs Enet. destruct xs as [x1 st1].
  bind_ok H x2 Epred.
  bind_ok Esrc sl Esl. injection Esrc as <-. injection Esrc' as <-.
  unfold slice_context in Esl. unfold size in Hs.
  destruct (v_sizes (encoder_out enc)) as [|b [|n rest]]; try discriminate Esl.
  cbn [nth_error] in Hs. injection Hs as Hn. rewrite Hn, Hc in Esl.
  injection Esl as <-.
  assert (H0 : n2 x0 = 0)
    by (eapply input_grid_empty; [exact Hdrop | | exact Ex0]; reflexivity).
  pose proof (ResNet6_forward_empty _ _ _ _ _ _ _ H0 Enet) as H1.
  unfold predict in Epred. bind_ok Epred m Em.
  unfold max_dim2 in Em.
  destruct st; cbn [last_step4 n2] in Em; rewrite H1 in Em; discriminate Em.
Qed.

Lemma forward_empty_context_witness :
  is_ok (forward ex_decoder ex_heap ex_tokens ex_encoder_out None
           (Some 0%Z) true) = false.
Proof.
  apply (forward_empty_context ex_decoder ex_heap ex_tokens ex_encoder_out
           None true 3 0%Z).
  - intros y. reflexivity.
  - reflexivity.
  - reflexivity.
Defined.

(** ** [forward] without an incremental state *)

Lemma ResLayer_forward_stateless (self : _ResLayer) (key : nat)
  (x : tensor4) (em dm : option mask2) (y : tensor4)
  (s : option inc_state) :
  _ResLayer_forward self key x em dm None = Ok (y, s) -> s = None.
Proof.
  unfold _ResLayer_forward, conv_activations. intros H.
  bind_ok H a Ea. destruct a as [a sa].
  bind_ok H r Er. injection H as _ <-.
  bind_ok Ea c Ec. bind_ok Ea p Ep. destruct p as [z slot].
  bind_ok Ea w Ew. injection Ea as _ <-. reflexivity.
Qed.

Lemma run_blocks_stateless (blocks : list _ResLayer) (key : nat)
  (x : tensor4) (em dm : option mask2) (y : tensor4)
  (s : option inc_state) :
  run_blocks blocks key x em dm None = Ok (y, s) -> s = None.
Proof.
  revert key x. induction blocks as [|l blocks IH]; intros key x H.
  - cbn in H. injection H as _ <-. reflexivity.
  - cbn [run_blocks] in H. bind_ok H a Ea. destruct a as [a sa].
    rewrite (ResLayer_forward_stateless _ _ _ _ _ _ _ Ea) in H.
    exact (IH _ _ H).
Qed.

Lemma ResNet6_forward_stateless (self : ResNet6) (x : tensor4)
  (em dm : option mask2) (y : tensor4) (s : option inc_state) :
  ResNet6_forward self x em dm None = Ok (y, s) -> s = None.
Proof.
  unfold ResNet6_forward. intros H. bind_ok H z Ez.
  exact (run_blocks_stateless _ _ _ _ _ _ _ H).
Qed.

(** X9. [Attn2dDecoder.forward] without an incremental state. The flag
    [cache_decoder] has no effect: the call returns the same tensor, or
    raises the same exception, for both values of the flag; and no state is
    left behind, whatever the residual blocks and their convolutions are. *)
Theorem forward_stateless (self : Attn2dDecoder) (h : heap)
  (tokens : tokens2) (enc : EncoderOut) (context_size : option Z) :
  forward self h tokens enc None context_size true
  = forward self h tokens enc None context_size false /\
  forall cache_decoder y s,
    forward self h tokens enc None context_size cache_decoder = Ok (y, s) ->
    s = None.
Proof.
  assert (Hnone : forall cache_decoder y s,
    forward self h tokens enc None context_size cache_decoder = Ok (y, s) ->
    s = None).
  { intros cd y s H. unfold forward in H.
    bind_ok H ts Ets.
    bind_ok H src Esrc.
    bind_ok H positions Epos.
    bind_ok H tgt_emb Etgt.
    bind_ok H src_emb Esrc'.
    bind_ok H x0 Ex0.
    bind_ok H xs Enet. destruct xs as [x1 st1].
    bind_ok H x2 Epred.
    injection H as _ <-.
    destruct cd; [|reflexivity].
    exact (ResNet6_forward_stateless _ _ _ _ _ _ Enet). }
  split; [|exact Hnone].
  unfold forward.
  destruct (size (encoder_out enc) 1) as [ts|]; [cbn [bind]|reflexivity].
  destruct (match context_size with
            | Some c => s <- slice_context (encoder_out enc) c ;; Ok (Some s)
            | None => Ok None
            end) as [src|]; [cbn [bind]|reflexivity].
  destruct (match embed_positions self with
            | Some pos => p <- pos tokens false ;; Ok (Some p)
            | None => Ok None
            end) as [positions|]; [cbn [bind]|reflexivity].
  destruct (embed_target self tokens positions) as [tgt|];
    [cbn [bind]|reflexivity].
  destruct (match src with
            | Some s => Ok s
            | None => Raise UnboundLocalError
            end) as [src'|]; [cbn [bind]|reflexivity].
  destruct (input_grid self h src' tgt) as [x|]; [cbn [bind]|reflexivity].
  destruct (ResNet6_forward (net self) x (encoder_padding_mask enc)
              (padding_mask tokens (padding_idx self)) None)
    as [[z s']|] eqn:En; [cbn [bind]|reflexivity].
  rewrite (ResNet6_forward_stateless _ _ _ _ _ _ En).
  destruct (predict self z); reflexivity.
Qed.

(** ** The padding masks outside training, and training without dropout *)

Lemma ResLayer_forward_eval_masks (self : _ResLayer) (key : nat)
  (x : tensor4) (em dm : option mask2) (st : option inc_state) :
  training self = false ->
  _ResLayer_forward self key x em dm st
  = _ResLayer_forward self key x None None st.
Proof.
  intros Htr. unfold _ResLayer_forward, conv_activations,
    zero_padding_positions. rewrite Htr. reflexivity.
Qed.

Lemma run_blocks_eval_masks (blocks : list _ResLayer) (key : nat)
  (x : tensor4) (em dm : option mask2) (st : option inc_state) :
  Forall (fun l => training l = false) blocks ->
  run_blocks blocks key x em dm st = run_blocks blocks key x None None st.
Proof.
  intros Hall. revert key x st.
  induction Hall as [|l blocks Hl _ IH]; intros key x st; [reflexivity|].
  cbn [run_blocks]. rewrite (ResLayer_forward_eval_masks l key x em dm st Hl).
  destruct (_ResLayer_forward l key x None None st) as [[y s]|];
    [cbn [bind]; apply IH | reflexivity].
Qed.

Lemma ResNet6_forward_eval_masks (self : ResNet6) (x : tensor4)
  (em dm : option mask2) (st : option inc_state) :
  Forall (fun l => training l = false) (residual_blocks self) ->
  ResNet6_forward self x em dm st = ResNet6_forward self x None None st.
Proof.
  intros Hall. unfold ResNet6_forward.
  destruct (match reduce_channels self with
            | Some l => linear l x
            | None => Ok x
            end) as [y|]; [cbn [bind] | reflexivity].
  apply run_blocks_eval_masks; exact Hall.
Qed.

(** X10. Outside training the source padding mask has no effect on
    [Attn2dDecoder.forward]. When every residual block is in evaluation
    mode, the call with an encoder output that carries a padding mask
    returns what the call returns with the same encoder states and no mask,
    and raises when that call raises; a mask of the wrong sizes is not
    noticed either. The [masked_fill] calls are guarded by
    [self.training]. *)
Theorem forward_eval_source_mask (self : Attn2dDecoder) (h : heap)
  (tokens : tokens2) (states : view) (mask : option mask2)
  (st : option inc_state) (context_size : option Z) (cache_decoder : bool) :
  Forall (fun l => training l = false) (residual_blocks (net self)) ->
  forward self h tokens (MkEncoderOut states mask) st context_size
    cache_decoder
  = forward self h tokens (MkEncoderOut states None) st context_size
      cache_decoder.
Proof.
  intros Hall. unfold forward. cbn [encoder_out encoder_padding_mask].
  destruct (size states 1) as [ts|]; [cbn [bind]|reflexivity].
  destruct (match context_size with
            | Some c => s <- slice_context states c ;; Ok (Some s)
            | None => Ok None
            end) as [src|]; [cbn [bind]|reflexivity].
  destruct (match embed_positions self with
            | Some pos =>
                p <- pos tokens match st with
                                | Some _ => cache_decoder
                                | None => false
                                end ;; Ok (Some p)
            | None => Ok None
            end) as [positions|]; [cbn [bind]|reflexivity].
  destruct (embed_target self _ _) as [tgt|]; [cbn [bind]|reflexivity].
  destruct (match src with Some s => Ok s | None => Raise UnboundLocalError end)
    as [src'|]; [cbn [bind]|reflexivity].
  destruct (input_grid self h src' tgt) as [x|]; [cbn [bind]|reflexivity].
  rewrite (ResNet6_forward_eval_masks (net self) x mask _ _ Hall).
  rewrite (ResNet6_forward_eval_masks (net self) x None
             (padding_mask _ _) _ Hall).
  reflexivity.
Qed.

Lemma forward_eval_source_mask_witness :
  forward (eval_decoder ex_decoder) ex_heap ex_tokens
          (MkEncoderOut ex_encoder_states (Some ex_source_mask)) None
          (Some 3%Z) true
  = forward (eval_decoder ex_decoder) ex_heap ex_tokens
            (MkEncoderOut ex_encoder_states None) None (Some 3%Z) true.
Proof.
  apply (forward_eval_source_mask (eval_decoder ex_decoder) ex_heap
           ex_tokens ex_encoder_states (Some ex_source_mask) None
           (Some 3%Z) true).
  repeat constructor.
Defined.

Lemma ResLayer_forward_no_dropout (self : _ResLayer) (key : nat)
  (x : tensor4) (st : option inc_state) :
  truthy (drop_rate self) = false ->
  _ResLayer_forward self key x None None st
  = _ResLayer_forward (eval_layer self) key x None None st.
Proof.
  intros Hp. unfold _ResLayer_forward, conv_activations,
    zero_padding_positions, residual_ffn, eval_layer.
  cbn [training drop_rate conv1 mconv2 fc1 fc2 scale noise1 noise2].
  rewrite Hp. destruct (training self); reflexivity.
Qed.

Lemma run_blocks_no_dropout (blocks : list _ResLayer) (key : nat)
  (x : tensor4) (st : option inc_state) :
  Forall (fun l => truthy (drop_rate l) = false) blocks ->
  run_blocks blocks key x None None st
  = run_blocks (map eval_layer blocks) key x None None st.
Proof.
  intros Hall. revert key x st.
  induction Hall as [|l blocks Hl _ IH]; intros key x st; [reflexivity|].
  cbn [run_blocks map]. rewrite (ResLayer_forward_no_dropout l key x st Hl).
  destruct (_ResLayer_forward (eval_layer l) key x None None st)
    as [[y s]|]; [cbn [bind]; apply IH | reflexivity].
Qed.

(** X11. [ResNet6.forward] without dropout and without padding masks does
    not depend on the mode. When the dropout rate of every residual block is
    0 (the guard [if self.drop_rate] is then false), a call without masks
    returns in training mode what it returns in evaluation mode, with the
    same incremental state, and raises when that call raises. *)
Theorem ResNet6_forward_no_dropout (self : ResNet6) (x : tensor4)
  (st : option inc_state) :
  Forall (fun l => truthy (drop_rate l) = false) (residual_blocks self) ->
  ResNet6_forward self x None None st
  = ResNet6_forward (eval_net self) x None None st.
Proof.
  intros Hall. unfold ResNet6_forward, eval_net.
  cbn [reduce_channels residual_blocks].
  destruct (match reduce_channels self with
            | Some l => linear l x
            | None => Ok x
            end) as [y|]; [cbn [bind] | reflexivity].
  apply run_blocks_no_dropout; exact Hall.
Qed.

Lemma ResNet6_forward_no_dropout_witness :
  ResNet6_forward ex_net_no_dropout ex_grid None None None
  = ResNet6_forward (eval_net ex_net_no_dropout) ex_grid None None None.
Proof.
  apply (ResNet6_forward_no_dropout ex_net_no_dropout ex_grid None).
  repeat constructor.
Defined.

(** ** [Attn2dEncoder] *)

Lemma mask_any_false (m : mask2) :
  mask_any m = false <->
  forall b i, b < k0 m -> i < k1 m -> mat m b i = false.
Proof.
  unfold mask_any. split.
  - intros H b i Hb Hi.
    destruct (mat m b i) eqn:E; [|reflexivity].
    assert (Ht : existsb (fun b => existsb (fun i => mat m b i)
                                     (seq 0 (k1 m))) (seq 0 (k0 m)) = true).
    { apply existsb_exists. exists b. split; [apply in_seq; lia|].
      apply existsb_exists. exists i. split; [apply in_seq; lia|exact E]. }
    congruence.
  - intros H.
    destruct (existsb _ _) eqn:E; [|reflexivity].
    apply existsb_exists in E. destruct E as (b & Hb & E).
    apply existsb_exists in E. destruct E as (i & Hi & E).
    apply in_seq in Hb. apply in_seq in Hi.
    rewrite H in E by lia. discriminate E.
Qed.

Lemma padding_mask_cases (t : tokens2) (pad : nat) :
  (padding_mask t pad = None <->
   forall b i, b < t0 t -> i < t1 t -> tok t b i <> pad) /\
  (forall m, padding_mask t pad = Some m ->
     k0 m = t0 t /\ k1 m = t1 t /\
     forall b i, mat m b i = true <-> tok t b i = pad).
Proof.
  unfold padding_mask.
  destruct (mask_any (eq_padding t pad)) eqn:E; cbn [negb]; split.
  - split; [discriminate|]. intros H. exfalso.
    assert (F : mask_any (eq_padding t pad) = false).
    { apply mask_any_false. cbn [eq_padding k0 k1 mat]. intros b i Hb Hi.
      apply Nat.eqb_neq. apply H; assumption. }
    congruence.
  - intros m H. injection H as <-. cbn [eq_padding k0 k1 mat].
    repeat split; apply Nat.eqb_eq; assumption.
  - split; [|reflexivity]. intros _ b i Hb Hi.
    apply Nat.eqb_neq.
    exact (proj1 (mask_any_false (eq_padding t pad)) E b i Hb Hi).
  - intros m H. discriminate H.
Qed.

Lemma embedding_outside_table (e : Embedding) (t : tokens2) (b i : nat) :
  b < t0 t -> i < t1 t -> num_embeddings e <= tok t b i ->
  embedding e t = Raise IndexError.
Proof.
  intros Hb Hi Hout. unfold embedding.
  destruct (forallb _ _) eqn:E; [|reflexivity]. exfalso.
  rewrite forallb_forall in E.
  specialize (E b (proj2 (in_seq _ _ _) (conj (Nat.le_0_l b) Hb))).
  rewrite forallb_forall in E.
  specialize (E i (proj2 (in_seq _ _ _) (conj (Nat.le_0_l i) Hi))).
  apply Nat.ltb_lt in E. lia.
Qed.

(** X12. [Attn2dEncoder.forward] in evaluation mode and without positional
    embeddings. A token outside the embedding table raises [IndexError].
    Otherwise the call returns: the states are a new [B x Ts x C] tensor
    whose entry at [(b, i, c)] is [embed_scale] times entry [c] of the
    embedding of token [(b, i)], the tensors that were in the store are
    unchanged, and the padding mask is [None] exactly when no source token
    is the padding symbol; a mask that is returned has the sizes of the
    tokens and marks exactly the padding symbols. *)
Theorem Attn2dEncoder_forward_cases (self : Attn2dEncoder) (h : heap)
  (src_tokens : tokens2) :
  enc_training self = false -> enc_embed_positions self = None ->
  ((exists b i, b < t0 src_tokens /\ i < t1 src_tokens /\
      num_embeddings (enc_embed_tokens self) <= tok src_tokens b i) ->
   Attn2dEncoder_forward self h src_tokens = Raise IndexError) /\
  ((forall b i, b < t0 src_tokens -> i < t1 src_tokens ->
      tok src_tokens b i < num_embeddings (enc_embed_tokens self)) ->
   exists out h',
     Attn2dEncoder_forward self h src_tokens = Ok (out, h') /\
     v_sizes (encoder_out out)
     = [t0 src_tokens; t1 src_tokens;
        embedding_dim (enc_embed_tokens self)] /\
     (forall b i c, b < t0 src_tokens -> i < t1 src_tokens ->
        c < embedding_dim (enc_embed_tokens self) ->
        read h' (encoder_out out) [b; i; c]
        = (enc_embed_scale self
           * emb_weight (enc_embed_tokens self) (tok src_tokens b i) c)%R) /\
     (forall v idx, v_store v < length h -> read h' v idx = read h v idx) /\
     (encoder_padding_mask out = None <->
      forall b i, b < t0 src_tokens -> i < t1 src_tokens ->
        tok src_tokens b i <> enc_padding_idx self) /\
     (forall m, encoder_padding_mask out = Some m ->
        k0 m = t0 src_tokens /\ k1 m = t1 src_tokens /\
        forall b i, mat m b i = true <->
                    tok src_tokens b i = enc_padding_idx self)).
Proof.
  intros Htr Hpos. unfold Attn2dEncoder_forward. rewrite Htr, Hpos. split.
  - intros (b & i & Hb & Hi & Hout).
    rewrite (embedding_outside_table _ _ b i Hb Hi Hout). reflexivity.
  - intros Hin. rewrite (embedding_in_vocabulary _ _ Hin).
    cbn [bind nn_dropout]. unfold store3.
    cbn [scale3 m0 m1 m2 at3].
    set (f := fun idx : list nat => _).
    set (sizes := [t0 src_tokens; t1 src_tokens;
                   embedding_dim (enc_embed_tokens self)]).
    pose proof (read_alloc h sizes f) as Hread.
    pose proof (read_after_alloc h sizes f) as Hold.
    destruct (alloc h sizes f) as [x h'] eqn:Ea.
    exists (MkEncoderOut x (padding_mask src_tokens (enc_padding_idx self))),
      h'.
    cbn [encoder_out encoder_padding_mask fst snd] in *.
    split; [reflexivity|]. split.
    { unfold alloc in Ea. injection Ea as <- _. reflexivity. }
    split.
    { intros b i c Hb Hi Hc. rewrite Hread.
      - subst f. cbn [nth]. reflexivity.
      - subst sizes. repeat constructor; assumption. }
    split; [exact Hold|].
    exact (padding_mask_cases src_tokens (enc_padding_idx self)).
Qed.

Lemma Attn2dEncoder_forward_cases_witness :
  exists out h' m,
    Attn2dEncoder_forward ex_encoder [] ex_source_tokens = Ok (out, h') /\
    v_sizes (encoder_out out) = [1; 3; 1] /\
    encoder_padding_mask out = Some m /\ mat m 0 2 = true.
Proof.
  destruct (proj2 (Attn2dEncoder_forward_cases ex_encoder [] ex_source_tokens
                     eq_refl eq_refl))
    as (out & h' & Hf & Hs & _ & _ & Hnone & Hsome).
  - intros b i _ _. cbn. destruct (i =? 2); lia.
  - destruct (encoder_padding_mask out) as [m|] eqn:Em.
    + exists out, h', m. split; [exact Hf|]. split; [exact Hs|].
      split; [exact Em|].
      apply (proj2 (proj2 (Hsome m eq_refl))). reflexivity.
    + exfalso.
      apply (proj1 Hnone eq_refl 0 2); [cbn; lia | cbn; lia | reflexivity].
Defined.

Lemma index_select0_rows (h : heap) (v : view) (new_order : list nat)
  (B : nat) (rest : list nat) :
  v_sizes v = B :: rest ->
  Forall (fun k => k < B) new_order ->
  exists w h',
    index_select0 h v new_order = Ok (w, h') /\
    v_sizes w = length new_order :: rest /\
    (forall k idx, k < length new_order -> Forall2 lt idx rest ->
       read h' w (k :: idx) = read h v (nth k new_order 0 :: idx)) /\
    (forall u idx, v_store u < length h -> read h' u idx = read h u idx).
Proof.
  intros Hs Hall. unfold index_select0. rewrite Hs.
  assert (E : forallb (fun k => k <? B) new_order = true).
  { apply forallb_forall. intros k Hk. apply Nat.ltb_lt.
    rewrite Forall_forall in Hall. exact (Hall k Hk). }
  rewrite E.
  set (f := fun idx : list nat => _).
  pose proof (read_alloc h (length new_order :: rest) f) as Hread.
  pose proof (read_after_alloc h (length new_order :: rest) f) as Hold.
  destruct (alloc h (length new_order :: rest) f) as [w h'] eqn:Ea.
  cbn [fst snd] in *. exists w, h'. split; [reflexivity|]. split.
  { unfold alloc in Ea. injection Ea as <- _. reflexivity. }
  split; [|exact Hold].
  intros k idx Hk Hidx. rewrite Hread by (constructor; assumption).
  subst f. reflexivity.
Qed.

Lemma index_select0_outside (h : heap) (v : view) (new_order : list nat)
  (B k : nat) (rest : list nat) :
  v_sizes v = B :: rest -> In k new_order -> B <= k ->
  index_select0 h v new_order = Raise IndexError.
Proof.
  intros Hs Hk Hout. unfold index_select0. rewrite Hs.
  destruct (forallb _ _) eqn:E; [|reflexivity]. exfalso.
  rewrite forallb_forall in E. specialize (E k Hk).
  apply Nat.ltb_lt in E. lia.
Qed.

(** X13. [Attn2dEncoder.reorder_encoder_out] on an encoder output of batch
    size [B]. An entry of [new_order] that is not below [B] makes the call
    raise. Otherwise the call returns: the states are a new tensor with one
    row per entry of [new_order], row [k] being row [new_order[k]] of the
    old states; the padding mask, when there is one, is reordered in the
    same way, and [None] stays [None]; the tensors that were in the store
    are unchanged. *)
Theorem reorder_encoder_out_rows (h : heap) (e : EncoderOut)
  (new_order : list nat) (B : nat) (rest : list nat) :
  v_sizes (encoder_out e) = B :: rest ->
  (forall m, encoder_padding_mask e = Some m -> k0 m = B) ->
  ((exists k, In k new_order /\ B <= k) ->
   is_ok (reorder_encoder_out h e new_order) = false) /\
  (Forall (fun k => k < B) new_order ->
   exists e' h',
     reorder_encoder_out h e new_order = Ok (e', h') /\
     v_sizes (encoder_out e') = length new_order :: rest /\
     (forall k idx, k < length new_order -> Forall2 lt idx rest ->
        read h' (encoder_out e') (k :: idx)
        = read h (encoder_out e) (nth k new_order 0 :: idx)) /\
     (forall u idx, v_store u < length h -> read h' u idx = read h u idx) /\
     match encoder_padding_mask e, encoder_padding_mask e' with
     | Some m, Some m' =>
         k0 m' = length new_order /\ k1 m' = k1 m /\
         forall k i, mat m' k i = mat m (nth k new_order 0) i
     | None, None => True
     | _, _ => False
     end).
Proof.
  intros Hs Hm. unfold reorder_encoder_out. split.
  - intros (k & Hk & Hout).
    rewrite (index_select0_outside h _ _ B k rest Hs Hk Hout). reflexivity.
  - intros Hall.
    destruct (index_select0_rows h _ _ B rest Hs Hall)
      as (w & h' & Hw & Hsz & Hrd & Hold).
    rewrite Hw. cbn [bind].
    destruct (encoder_padding_mask e) as [m|] eqn:Em.
    + unfold index_select0_mask. rewrite (Hm m eq_refl).
      assert (E : forallb (fun k => k <? B) new_order = true).
      { apply forallb_forall. intros k Hk. apply Nat.ltb_lt.
        rewrite Forall_forall in Hall. exact (Hall k Hk). }
      rewrite E. cbn [bind]. eexists. eexists. split; [reflexivity|].
      cbn [encoder_out encoder_padding_mask k0 k1 mat].
      repeat split; assumption.
    + cbn [bind]. eexists. eexists. split; [reflexivity|].
      cbn [encoder_out encoder_padding_mask].
      repeat split; assumption.
Qed.

Lemma reorder_encoder_out_rows_witness :
  exists e' h',
    reorder_encoder_out ex_heap ex_encoder_out [0; 0] = Ok (e', h') /\
    v_sizes (encoder_out e') = [2; 3; 1] /\
    read h' (encoder_out e') [1; 2; 0] = read ex_heap ex_encoder_states
                                              [0; 2; 0].
Proof.
  assert (Hm : forall m, encoder_padding_mask ex_encoder_out = Some m ->
                         k0 m = 1) by (intros m H; discriminate H).
  destruct (proj2 (reorder_encoder_out_rows ex_heap ex_encoder_out [0; 0]
                     1 [3; 1] eq_refl Hm))
    as (e' & h' & Hf & Hs & Hr & _).
  - repeat constructor.
  - exists e', h'. split; [exact Hf|]. split; [exact Hs|].
    apply (Hr 1 [2; 0]); [cbn; lia | repeat constructor].
Defined.

(** ** The scores passed to the controller *)

Lemma flat_cell (b i j T Ts : nat) :
  i < T -> j < Ts ->
  let r := (b * T + i) * Ts + j in
  r / Ts = b * T + i /\ r mod Ts = j /\
  (r / Ts) mod T = i /\ r / Ts / T = b /\ r / (T * Ts) = b.
Proof.
  intros Hi Hj r.
  assert (Hq : r / Ts = b * T + i).
  { symmetry. apply (Nat.div_unique r Ts (b * T + i) j); [exact Hj|].
    subst r. lia. }
  assert (Hb : (b * T + i) / T = b).
  { symmetry. apply (Nat.div_unique (b * T + i) T b i); [exact Hi|]. lia. }
  split; [exact Hq|]. split.
  { symmetry. apply (Nat.mod_unique r Ts (b * T + i) j); [exact Hj|].
    subst r. lia. }
  rewrite Hq. split.
  { symmetry. apply (Nat.mod_unique (b * T + i) T b i); [exact Hi|]. lia. }
  split; [exact Hb|].
  rewrite (Nat.mul_comm T Ts), <- Nat.Div0.div_div, Hq. exact Hb.
Qed.

Lemma forbid_source_at (scores r : tensor3) (m : mask2) :
  forbid_source scores m = Ok r ->
  m0 r = m0 scores /\ m1 r = m1 scores /\ m2 r = m2 scores /\
  forall b i j, at3 r b i j =
    if marks (Some m) b j then (-1000)%R else at3 scores b i j.
Proof.
  unfold forbid_source. destruct (_ && _); [|discriminate].
  intros H. injection H as <-. cbn. auto.
Qed.

Lemma forbid_target_at (scores r : tensor3) (m : mask2) :
  forbid_target scores m = Ok r ->
  m0 r = m0 scores /\ m1 r = m1 scores /\ m2 r = m2 scores /\
  forall b i j, at3 r b i j =
    if marks (Some m) b i then (-1000)%R else at3 scores b i j.
Proof.
  unfold forbid_target. destruct (_ && _); [|discriminate].
  intros H. injection H as <-. cbn. auto.
Qed.

Lemma forward_train_scores_at (self : Attn2dDecoder) (h : heap)
  (tokens : tokens2) (enc : EncoderOut) (target : tokens2) (out : TrainOut) :
  forward_train self h tokens enc target = Ok out ->
  exists scores,
    controller self (out_observations out) scores = Ok (out_controls out) /\
    (forall b i j,
       marks (encoder_padding_mask enc) b j
       || marks (padding_mask tokens (padding_idx self)) b i = true ->
       at3 scores b i j = (-1000)%R) /\
    (n1 (out_x out) = m1 scores -> n2 (out_x out) = m2 scores ->
     t1 target = m1 scores ->
     forall b i j, i < m1 scores -> j < m2 scores ->
       marks (encoder_padding_mask enc) b j
       || marks (padding_mask tokens (padding_idx self)) b i = false ->
       at3 scores b i j = at4 (out_x out) b i j (tok target b i)).
Proof.
  unfold forward_train. intros H.
  bind_ok H positions Epos.
  bind_ok H tgt_emb Etgt.
  bind_ok H batch_size Eb.
  bind_ok H src_length Es.
  bind_ok H x0 Ex0.
  bind_ok H obs Eobs.
  bind_ok H xs Enet. destruct xs as [x1 st1].
  bind_ok H x2 Eagg.
  bind_ok H x3 Eproj.
  bind_ok H x4 Epred.
  bind_ok H scores Escores.
  bind_ok H scores1 Es1.
  bind_ok H scores2 Es2.
  bind_ok H c Ec.
  injection H as <-. cbn [out_x out_observations out_controls].
  exists scores2. split; [exact Ec|].
  set (em := encoder_padding_mask enc) in *.
  set (dm := padding_mask tokens (padding_idx self)) in *.
  set (lx := log_softmax x4) in *.
  assert (Hg : m1 scores = m1 tgt_emb /\ m2 scores = src_length /\
               forall b i j, at3 scores b i j =
                 let r := (b * m1 tgt_emb + i) * src_length + j in
                 at4 lx (r / (n1 lx * n2 lx)) ((r / n2 lx) mod n1 lx)
                     (r mod n2 lx)
                     (tok target (r / src_length / t1 target)
                                 ((r / src_length) mod t1 target))).
  { unfold gather_scores in Escores.
    destruct (_ && _) in Escores; [|discriminate Escores].
    injection Escores as <-. cbn. auto. }
  destruct Hg as (Hg1 & Hg2 & Hg).
  assert (Hs1 : m1 scores1 = m1 scores /\ m2 scores1 = m2 scores /\
                forall b i j, at3 scores1 b i j =
                  if marks em b j then (-1000)%R else at3 scores b i j).
  { destruct em as [m|].
    - destruct (forbid_source_at _ _ _ Es1) as (_ & A & B & C). auto.
    - injection Es1 as <-. cbn. auto. }
  destruct Hs1 as (Ha1 & Ha2 & Ha).
  assert (Hs2 : m1 scores2 = m1 scores1 /\ m2 scores2 = m2 scores1 /\
                forall b i j, at3 scores2 b i j =
                  if marks dm b i then (-1000)%R else at3 scores1 b i j).
  { destruct dm as [m|].
    - destruct (forbid_target_at _ _ _ Es2) as (_ & A & B & C). auto.
    - injection Es2 as <-. cbn. auto. }
  destruct Hs2 as (Hb1 & Hb2 & Hb).
  split.
  - intros b i j Hm. rewrite Hb, Ha.
    destruct (marks dm b i); [reflexivity|].
    rewrite orb_false_r in Hm. rewrite Hm. reflexivity.
  - intros Hn1 Hn2 Ht b i j Hi Hj Hm.
    apply orb_false_elim in Hm. destruct Hm as [Hme Hmd].
    rewrite Hb, Hmd, Ha, Hme, Hg. cbn zeta.
    rewrite Hn1, Hn2, Ht, Hb1, Hb2, Ha1, Ha2, Hg1, Hg2.
    rewrite Hb1, Ha1, Hg1 in Hi. rewrite Hb2, Ha2, Hg2 in Hj.
    destruct (flat_cell b i j (m1 tgt_emb) src_length Hi Hj)
      as (Q1 & Q2 & Q3 & Q4 & Q5).
    rewrite Q5, Q1, Q2. rewrite Q1 in Q3, Q4. rewrite Q3, Q4. reflexivity.
Qed.

(** X14. The scores that [Attn2dDecoder.forward_train] passes to the
    controller. When the call returns, the controls it returns are what the
    controller returns on the returned observations and on a tensor of
    scores such that: the score of a cell whose source position is marked
    by the encoder mask, or whose target position holds the padding symbol,
    is -1000; and, when the log-probabilities have the target and source
    lengths of the scores and [target] has that target length, the score of
    every other cell [(b, i, j)] is the returned log-probability of the
    reference token [target[b, i]] at that cell. *)
Theorem forward_train_controller_scores (self : Attn2dDecoder) (h : heap)
  (tokens : tokens2) (enc : EncoderOut) (target : tokens2) (out : TrainOut) :
  forward_train self h tokens enc target = Ok out ->
  exists scores,
    controller self (out_observations out) scores = Ok (out_controls out) /\
    (forall b i j,
       marks (encoder_padding_mask enc) b j
       || marks (padding_mask tokens (padding_idx self)) b i = true ->
       at3 scores b i j = (-1000)%R) /\
    (n1 (out_x out) = m1 scores -> n2 (out_x out) = m2 scores ->
     t1 target = m1 scores ->
     forall b i j, i < m1 scores -> j < m2 scores ->
       marks (encoder_padding_mask enc) b j
       || marks (padding_mask tokens (padding_idx self)) b i = false ->
       at3 scores b i j = at4 (out_x out) b i j (tok target b i)).
Proof. exact (forward_train_scores_at self h tokens enc target out). Qed.

Lemma forward_train_controller_scores_witness :
  exists out scores,
    forward_train ex_decoder ex_heap ex_tokens ex_encoder_out ex_target
    = Ok out /\
    controller ex_decoder (out_observations out) scores
    = Ok (out_controls out).
Proof.
  pose proof ex_forward_train_returns as Hok.
  destruct (forward_train ex_decoder ex_heap ex_tokens ex_encoder_out
              ex_target) as [out|e] eqn:E; [|discriminate Hok].
  destruct (forward_train_controller_scores ex_decoder ex_heap ex_tokens
              ex_encoder_out ex_target out E) as (scores & Hc & _).
  exists out, scores. split; [reflexivity | exact Hc].
Defined.

Lemma Attn2dEncoder_forward_mask (self : Attn2dEncoder) (h h' : heap)
  (src_tokens : tokens2) (out : EncoderOut) :
  Attn2dEncoder_forward self h src_tokens = Ok (out, h') ->
  encoder_padding_mask out = padding_mask src_tokens (enc_padding_idx self).
Proof.
  unfold Attn2dEncoder_forward. intros H.
  bind_ok H e Ee. bind_ok H x Ex.
  destruct (store3 h _) as [v h1]. injection H as <- _. reflexivity.
Qed.

Lemma marks_padding_mask (t : tokens2) (pad b i : nat) :
  b < t0 t -> i < t1 t -> tok t b i = pad ->
  marks (padding_mask t pad) b i = true.
Proof.
  intros Hb Hi Hp.
  destruct (padding_mask t pad) as [m|] eqn:E.
  - destruct (proj2 (padding_mask_cases t pad) m E) as (K0 & K1 & Hm).
    cbn [marks]. rewrite K0, K1, !bidx_id by assumption.
    apply Hm. exact Hp.
  - exfalso. exact (proj1 (proj1 (padding_mask_cases t pad)) E b i Hb Hi Hp).
Qed.

(** X15. [Attn2dWaitkModel.forward], the encoder followed by
    [forward_train]. When the call returns, the scores that the controller
    was given are -1000 at every cell [(b, i, j)] whose source token
    [src_tokens[b, j]] is the encoder's padding symbol or whose target token
    [prev_output_tokens[b, i]] is the decoder's padding symbol, in either
    mode. *)
Theorem model_forward_padding_scores (encoder : Attn2dEncoder)
  (decoder : Attn2dDecoder) (h : heap)
  (target src_tokens prev_output_tokens : tokens2) (out : TrainOut) :
  Attn2dWaitkModel_forward encoder decoder h target src_tokens
    prev_output_tokens = Ok out ->
  exists scores,
    controller decoder (out_observations out) scores = Ok (out_controls out)
    /\
    forall b i j,
      b < t0 src_tokens -> j < t1 src_tokens ->
      b < t0 prev_output_tokens -> i < t1 prev_output_tokens ->
      tok src_tokens b j = enc_padding_idx encoder \/
      tok prev_output_tokens b i = padding_idx decoder ->
      at3 scores b i j = (-1000)%R.
Proof.
  unfold Attn2dWaitkModel_forward. intros H.
  bind_ok H p Ep. destruct p as [e h'].
  destruct (forward_train_scores_at _ _ _ _ _ _ H) as (scores & Hc & Hpad & _).
  exists scores. split; [exact Hc|].
  intros b i j Hb Hj Hb' Hi [Hs|Ht]; apply Hpad; apply orb_true_iff.
  - left. rewrite (Attn2dEncoder_forward_mask _ _ _ _ _ Ep).
    apply marks_padding_mask; assumption.
  - right. apply marks_padding_mask; assumption.
Qed.

Lemma ex_model_forward_returns :
  is_ok (Attn2dWaitkModel_forward ex_encoder ex_decoder [] ex_target
           ex_source_tokens ex_tokens) = true.
Proof. reflexivity. Qed.

Lemma model_forward_padding_scores_witness :
  exists out scores,
    Attn2dWaitkModel_forward ex_encoder ex_decoder [] ex_target
      ex_source_tokens ex_tokens = Ok out /\
    controller ex_decoder (out_observations out) scores
    = Ok (out_controls out) /\
    at3 scores 0 1 2 = (-1000)%R.
Proof.
  pose proof ex_model_forward_returns as Hok.
  destruct (Attn2dWaitkModel_forward ex_encoder ex_decoder [] ex_target
              ex_source_tokens ex_tokens) as [out|e] eqn:E;
    [|discriminate Hok].
  destruct (model_forward_padding_scores ex_encoder ex_decoder []
              ex_target ex_source_tokens ex_tokens out E)
    as (scores & Hc & Hpad).
  exists out, scores. split; [reflexivity|]. split; [exact Hc|].
  apply Hpad; [cbn; lia | cbn; lia | cbn; lia | cbn; lia |].
  left. reflexivity.
Defined.

(** ** [base_architecture] *)

Lemma set_defaults_lookup (attrs : String.string -> option pyval)
  (l : list (String.string * pyval)) (k : String.string) :
  set_defaults attrs l k =
  match attrs k with
  | Some v => Some v
  | None => option_map snd (find (fun kv => String.eqb k (fst kv)) l)
  end.
Proof.
  unfold set_defaults. revert attrs.
  induction l as [|[n d] l IH]; intros attrs; cbn [fold_left find fst snd].
  - destruct (attrs k); reflexivity.
  - rewrite IH. unfold set_default, setattr.
    destruct (String.eqb_spec k n) as [->|Hn].
    + destruct (attrs n); reflexivity.
    + destruct (attrs k); reflexivity.
Qed.

Lemma find_app_key (l1 l2 : list (String.string * pyval))
  (k : String.string) :
  option_map snd (find (fun kv => String.eqb k (fst kv)) (l1 ++ l2)) =
  match option_map snd (find (fun kv => String.eqb k (fst kv)) l1) with
  | Some v => Some v
  | None => option_map snd (find (fun kv => String.eqb k (fst kv)) l2)
  end.
Proof.
  induction l1 as [|[n d] l1 IH]; cbn [app find fst]; [reflexivity|].
  destruct (String.eqb k n); [reflexivity | exact IH].
Qed.

Lemma base_architecture_steps (args a : Namespace) :
  base_architecture args = Ok a ->
  let early := set_defaults (ns_attrs args) defaults_early in
  ns_attrs a =
  set_defaults
    (setattr early "add_positional_emnbeddings"%string
       (getattr (early "add_positional_embeddings"%string) (PBool false)))
    defaults_tail.
Proof.
  unfold base_architecture.
  destruct (getattr (ns_divide_channels args) 2 =? 0)%Z; [discriminate|].
  intros H. injection H as <-. reflexivity.
Qed.

(** What a successful call leaves in the namespace. *)
Lemma base_architecture_attrs (args a : Namespace) :
  base_architecture args = Ok a ->
  forall k,
    ns_attrs a k =
    if String.eqb k "add_positional_emnbeddings"%string
    then Some (getattr (ns_attrs args "add_positional_embeddings"%string)
                       (PBool false))
    else match ns_attrs args k with
         | Some v => Some v
         | None => default_of k
         end.
Proof.
  intros H k. rewrite (base_architecture_steps args a H). cbn zeta.
  rewrite set_defaults_lookup. unfold setattr.
  destruct (String.eqb k "add_positional_emnbeddings"%string).
  - reflexivity.
  - rewrite set_defaults_lookup. unfold default_of.
    change constant_defaults with (defaults_early ++ defaults_tail).
    rewrite find_app_key.
    destruct (ns_attrs args k); [reflexivity|].
    destruct (option_map snd (find _ defaults_early)); reflexivity.
Qed.

Lemma default_of_unset_key :
  default_of "add_positional_embeddings"%string = None.
Proof. reflexivity. Qed.

(** X16. [base_architecture] fills in the attributes that are not set. With
    [divide_channels] set to 0 it raises [ZeroDivisionError], also when
    [reduce_dim] is set: the default of [reduce_dim] is computed before it
    is known to be needed. Otherwise it returns, and then: an attribute that
    was set keeps its value and an unset attribute with a constant default
    gets it, except that the misspelt attribute
    [add_positional_emnbeddings] is overwritten with the value of
    [add_positional_embeddings] (or [False]), while
    [add_positional_embeddings] itself is left as it was, unset included;
    [output_dim] defaults to the decoder embedding size, [reduce_dim] to
    [(encoder_embed_dim + decoder_embed_dim) // divide_channels], and
    [conv_groups] to [reduce_dim], never to the 1 of the second default;
    and a second call changes nothing. *)
Theorem base_architecture_cases (args : Namespace) :
  (ns_divide_channels args = Some 0%Z ->
   base_architecture args = Raise ZeroDivisionError) /\
  (ns_divide_channels args <> Some 0%Z ->
   exists a,
     base_architecture args = Ok a /\
     (forall k v, k <> "add_positional_emnbeddings"%string ->
        ns_attrs args k = Some v -> ns_attrs a k = Some v) /\
     (forall k v, k <> "add_positional_emnbeddings"%string ->
        ns_attrs args k = None -> default_of k = Some v ->
        ns_attrs a k = Some v) /\
     ns_attrs a "add_positional_embeddings"%string
     = ns_attrs args "add_positional_embeddings"%string /\
     ns_attrs a "add_positional_emnbeddings"%string
     = Some (getattr (ns_attrs args "add_positional_embeddings"%string)
                     (PBool false)) /\
     ns_encoder_embed_dim a
     = Some (getattr (ns_encoder_embed_dim args) 256%Z) /\
     ns_decoder_embed_dim a
     = Some (getattr (ns_decoder_embed_dim args) 256%Z) /\
     ns_output_dim a
     = Some (getattr (ns_output_dim args)
                     (getattr (ns_decoder_embed_dim args) 256%Z)) /\
     ns_divide_channels a = Some (getattr (ns_divide_channels args) 2%Z) /\
     (forall e d c r, ns_encoder_embed_dim a = Some e ->
        ns_decoder_embed_dim a = Some d -> ns_divide_channels a = Some c ->
        ns_reduce_dim a = Some r ->
        ns_reduce_dim args = None -> r = ((e + d) / c)%Z) /\
     (forall r, ns_reduce_dim args = Some r -> ns_reduce_dim a = Some r) /\
     (forall g, ns_conv_groups args = Some g -> ns_conv_groups a = Some g) /\
     (ns_conv_groups args = None -> ns_conv_groups a = ns_reduce_dim a) /\
     exists a',
       base_architecture a = Ok a' /\
       ns_encoder_embed_dim a' = ns_encoder_embed_dim a /\
       ns_decoder_embed_dim a' = ns_decoder_embed_dim a /\
       ns_output_dim a' = ns_output_dim a /\
       ns_divide_channels a' = ns_divide_channels a /\
       ns_reduce_dim a' = ns_reduce_dim a /\
       ns_conv_groups a' = ns_conv_groups a /\
       forall k, ns_attrs a' k = ns_attrs a k).
Proof.
  split.
  - intros H. unfold base_architecture. rewrite H. reflexivity.
  - intros H.
    assert (Hd : (getattr (ns_divide_channels args) 2 =? 0)%Z = false).
    { destruct (ns_divide_channels args) as [d|]; [|reflexivity].
      cbn [getattr]. apply Z.eqb_neq. intros ->. apply H. reflexivity. }
    destruct (base_architecture args) as [a|] eqn:Ea.
    2:{ unfold base_architecture in Ea. rewrite Hd in Ea. discriminate Ea. }
    pose proof (base_architecture_attrs args a Ea) as Hat.
    exists a. split; [reflexivity|].
    assert (Hf : a = MkNamespace
              (Some (getattr (ns_encoder_embed_dim args) 256%Z))
              (Some (getattr (ns_decoder_embed_dim args) 256%Z))
              (Some (getattr (ns_output_dim args)
                       (getattr (ns_decoder_embed_dim args) 256%Z)))
              (Some (getattr (ns_divide_channels args) 2%Z))
              (Some (getattr (ns_reduce_dim args)
                       ((getattr (ns_encoder_embed_dim args) 256
                         + getattr (ns_decoder_embed_dim args) 256)
                        / getattr (ns_divide_channels args) 2)%Z))
              (Some (getattr (ns_conv_groups args)
                       (getattr (ns_reduce_dim args)
                          ((getattr (ns_encoder_embed_dim args) 256
                            + getattr (ns_decoder_embed_dim args) 256)
                           / getattr (ns_divide_channels args) 2)%Z)))
              (ns_attrs a)).
    { unfold base_architecture in Ea. rewrite Hd in Ea.
      injection Ea as <-. reflexivity. }
    split.
    { intros k v Hk Hv. rewrite Hat, Hv.
      destruct (String.eqb_spec k "add_positional_emnbeddings"%string);
        [contradiction | reflexivity]. }
    split.
    { intros k v Hk Hn Hv. rewrite Hat, Hn, Hv.
      destruct (String.eqb_spec k "add_positional_emnbeddings"%string);
        [contradiction | reflexivity]. }
    split.
    { rewrite Hat. cbn [String.eqb Ascii.eqb Bool.eqb].
      destruct (ns_attrs args "add_positional_embeddings"%string);
        reflexivity. }
    split.
    { rewrite Hat. reflexivity. }
    assert (Hidem : exists a',
       base_architecture a = Ok a' /\
       ns_encoder_embed_dim a' = ns_encoder_embed_dim a /\
       ns_decoder_embed_dim a' = ns_decoder_embed_dim a /\
       ns_output_dim a' = ns_output_dim a /\
       ns_divide_channels a' = ns_divide_channels a /\
       ns_reduce_dim a' = ns_reduce_dim a /\
       ns_conv_groups a' = ns_conv_groups a /\
       forall k, ns_attrs a' k = ns_attrs a k).
    {
      destruct (base_architecture a) as [a'|] eqn:Ea'.
      2:{ unfold base_architecture in Ea'. rewrite Hf in Ea'.
          cbn [ns_divide_channels getattr] in Ea'. rewrite Hd in Ea'.
          discriminate Ea'. }
      pose proof (base_architecture_attrs a a' Ea') as Hat'.
      exists a'. split; [reflexivity|].
      assert (Hf' : ns_encoder_embed_dim a' = ns_encoder_embed_dim a /\
                    ns_decoder_embed_dim a' = ns_decoder_embed_dim a /\
                    ns_output_dim a' = ns_output_dim a /\
                    ns_divide_channels a' = ns_divide_channels a /\
                    ns_reduce_dim a' = ns_reduce_dim a /\
                    ns_conv_groups a' = ns_conv_groups a).
      { unfold base_architecture in Ea'. rewrite Hf in Ea'.
        cbn [ns_encoder_embed_dim ns_decoder_embed_dim ns_output_dim
             ns_divide_channels ns_reduce_dim ns_conv_groups getattr] in Ea'.
        rewrite Hd in Ea'. injection Ea' as <-. rewrite Hf.
        cbn [ns_encoder_embed_dim ns_decoder_embed_dim ns_output_dim
             ns_divide_channels ns_reduce_dim ns_conv_groups].
        repeat split; reflexivity. }
      destruct Hf' as (F1 & F2 & F3 & F4 & F5 & F6).
      repeat (split; [assumption|]).
      intros k. rewrite Hat'. rewrite (Hat k).
      destruct (String.eqb_spec k "add_positional_emnbeddings"%string)
        as [->|Hk].
      + f_equal. rewrite Hat. cbn [String.eqb Ascii.eqb Bool.eqb].
        destruct (ns_attrs args "add_positional_embeddings"%string);
          reflexivity.
      + destruct (ns_attrs args k); [reflexivity|].
        destruct (default_of k); reflexivity.
    }
    pose proof (f_equal ns_encoder_embed_dim Hf) as G1.
    pose proof (f_equal ns_decoder_embed_dim Hf) as G2.
    pose proof (f_equal ns_output_dim Hf) as G3.
    pose proof (f_equal ns_divide_channels Hf) as G4.
    pose proof (f_equal ns_reduce_dim Hf) as G5.
    pose proof (f_equal ns_conv_groups Hf) as G6.
    cbn [ns_encoder_embed_dim ns_decoder_embed_dim ns_output_dim
         ns_divide_channels ns_reduce_dim ns_conv_groups] in G1, G2, G3, G4,
      G5, G6.
    do 4 (split; [assumption|]).
    split.
    { intros e d c r He Hdd Hc Hr Hn. rewrite Hn in G5. cbn [getattr] in G5.
      congruence. }
    split.
    { intros r Hr. rewrite Hr in G5. exact G5. }
    split.
    { intros g Hg. rewrite Hg in G6. exact G6. }
    split.
    { intros Hg. rewrite Hg in G6. cbn [getattr] in G6. congruence. }
    exact Hidem.
Qed.

Lemma base_architecture_cases_witness :
  exists a,
    base_architecture ex_namespace = Ok a /\
    ns_reduce_dim a = Some 256%Z /\ ns_conv_groups a = Some 256%Z /\
    ns_attrs a "add_positional_embeddings"%string = None /\
    ns_attrs a "kernel_size"%string = Some (PInt 3).
Proof.
  destruct (proj2 (base_architecture_cases ex_namespace))
    as (a & Ha & _ & Hdef & Hpos & _ & He & Hd & _ & Hc & Hr & _ & _ & Hg
        & _).
  - discriminate.
  - exists a. split; [exact Ha|].
    destruct (ns_reduce_dim a) as [r|] eqn:Er.
    + assert (Hr256 : r = 256%Z)
        by (rewrite (Hr _ _ _ r He Hd Hc eq_refl eq_refl); reflexivity).
      split; [rewrite Hr256; reflexivity|].
      split; [rewrite (Hg eq_refl), Hr256; reflexivity|].
      split; [exact Hpos|].
      apply Hdef; [discriminate | reflexivity | reflexivity].
    + exfalso. unfold base_architecture in Ha. cbn in Ha.
      injection Ha as Ha. rewrite <- Ha in Er. discriminate Er.
Defined.
